(** * PlaceField: a grid map with a reverse index and an exploration tracker

    A shallow embedding of [droidlet/memory/place_field.py] and the properties
    of its specification.

    Conventions of the embedding.
    - Python integers are [Z]; the grids are numpy arrays of floats that only
      ever hold integer values (fill values, registry indices, 0/1 and time
      stamps), so a cell holds a [Z].
    - World coordinates are floats in the source; they are idealised here as
      rationals [Q], and [round] is Python's round-half-to-even.
    - A method is a computation in a state-and-exception monad over the
      instance: it returns a value or raises, and the instance it leaves
      behind is observable in both cases.
    - A Python dict whose iteration order matters is an insertion-ordered
      list; the others are [gmap]s. *)

From Stdlib Require Import ZArith QArith Qround Qabs String Ascii List Lia.
From Stdlib Require Import DecimalString DecimalZ DecimalPos.
From stdpp Require Import gmap strings list fin_maps.

Close Scope Q_scope.
Local Open Scope string_scope.
Local Open Scope Z_scope.

(** ** Module constants *)

Definition MAX_MAP_SIZE : Z := 4097.
Definition MAP_INIT_SIZE : Z := 1025.
Definition BIG_I : Z := MAX_MAP_SIZE.
Definition BIG_J : Z := MAX_MAP_SIZE.

(** ** Exceptions and results *)

Inductive exn : Type :=
| AssertionError
| TypeError
| AttributeError
| KeyError
| IndexError
| ValueError
| Exception (msg : string).

Inductive outcome (A : Type) : Type :=
| Return (a : A)
| Raise (e : exn).
Arguments Return {A} a.
Arguments Raise {A} e.

Definition obind {A B} (o : outcome A) (k : A -> outcome B) : outcome B :=
  match o with
  | Return a => k a
  | Raise e => Raise e
  end.

(** ** Python built-ins used by the source *)

(** [str(n)] and [int(s)] on integers, in decimal. *)
Definition py_str (n : Z) : string := NilZero.string_of_int (Z.to_int n).

Definition py_int (s : string) : outcome Z :=
  match NilZero.int_of_string s with
  | Some d => Return (Z.of_int d)
  | None => Raise ValueError
  end.

(** [round(q)]: to the nearest integer, ties to the even one. *)
Definition py_round (q : Q) : Z :=
  let f := Qfloor q in
  match Qcompare (q - inject_Z f) (1 # 2) with
  | Lt => f
  | Gt => f + 1
  | Eq => if Z.even f then f else f + 1
  end.

(** Index normalisation of sequences and arrays: [-n <= i < 0] counts from
    the end, anything outside [-n, n) is an IndexError. *)
Definition norm_index (n i : Z) : option Z :=
  if (0 <=? i) && (i <? n) then Some i
  else if (- n <=? i) && (i <? 0) then Some (n + i)
  else None.

Definition list_getitem {A} (l : list A) (i : Z) : outcome A :=
  match norm_index (Z.of_nat (length l)) i with
  | Some k =>
      match l !! Z.to_nat k with
      | Some a => Return a
      | None => Raise IndexError
      end
  | None => Raise IndexError
  end.

(** ** Square numpy arrays *)

Record ndarray : Type := { shape0 : Z; at_ : Z -> Z -> Z }.

(** [v * np.ones((n, n))] *)
Definition full (n v : Z) : ndarray := {| shape0 := n; at_ := fun _ _ => v |}.

Definition ndarray_get (a : ndarray) (i j : Z) : outcome Z :=
  match norm_index (shape0 a) i, norm_index (shape0 a) j with
  | Some i', Some j' => Return (at_ a i' j')
  | _, _ => Raise IndexError
  end.

(** The array [a] with [v] stored at a cell inside it. *)
Definition upd (a : ndarray) (i j v : Z) : ndarray :=
  {| shape0 := shape0 a;
     at_ := fun x y => if (x =? i) && (y =? j) then v else at_ a x y |}.

Definition ndarray_set (a : ndarray) (i j v : Z) : outcome ndarray :=
  match norm_index (shape0 a) i, norm_index (shape0 a) j with
  | Some i', Some j' => Return (upd a i' j' v)
  | _, _ => Raise IndexError
  end.

(** Resolution of one bound of a slice [a:b] against a length [n]. *)
Definition slice_bound (n k : Z) : Z :=
  if k <? 0 then Z.max (n + k) 0 else Z.min k n.

Definition in_range (lo len x : Z) : bool := (lo <=? x) && (x <? lo + len).

(** [dst[start:stop, start:stop] = src]: the region has the same bounds on
    both axes; [src] must have the region's shape or be broadcast from a
    single cell, otherwise numpy raises ValueError. *)
Definition slice_assign (dst : ndarray) (start stop : Z) (src : ndarray)
  : outcome ndarray :=
  let n := shape0 dst in
  let lo := slice_bound n start in
  let len := Z.max 0 (slice_bound n stop - lo) in
  if shape0 src =? len then
    Return {| shape0 := n;
              at_ := fun x y =>
                if in_range lo len x && in_range lo len y
                then at_ src (x - lo) (y - lo) else at_ dst x y |}
  else if shape0 src =? 1 then
    Return {| shape0 := n;
              at_ := fun x y =>
                if in_range lo len x && in_range lo len y
                then at_ src 0 0 else at_ dst x y |}
  else Raise ValueError.

(** ** The instance *)

Inductive layer : Type := Updated | Map | Memids.

(** [maps[h]]: the three arrays of one height slice. *)
Record hslice : Type := { updated : ndarray; map_ : ndarray; memids : ndarray }.

Definition get_layer (m : layer) (sl : hslice) : ndarray :=
  match m with
  | Updated => updated sl
  | Map => map_ sl
  | Memids => memids sl
  end.

Definition set_layer (m : layer) (a : ndarray) (sl : hslice) : hslice :=
  match m with
  | Updated => {| updated := a; map_ := map_ sl; memids := memids sl |}
  | Map => {| updated := updated sl; map_ := a; memids := memids sl |}
  | Memids => {| updated := updated sl; map_ := map_ sl; memids := a |}
  end.

Definition coord : Type := Q * Q * Q.

(** A key of [maps] is a slice number or Python's [None] (the default of
    [extend_map]'s parameter [h]). *)
Record PlaceField : Type := {
  index2memid : list string;
  memid2index : gmap string Z;
  examined : list (coord * Z);
  examined_id : gset Z;
  last : option coord;
  maps : gmap (option Z) hslice;
  map_size : Z;
  pixels_per_unit : Q;
  memid2locs : gmap string (list string)
}.

Definition set_registry (l : list string) (m : gmap string Z) (s : PlaceField)
  : PlaceField :=
  {| index2memid := l; memid2index := m; examined := examined s;
     examined_id := examined_id s; last := last s; maps := maps s;
     map_size := map_size s; pixels_per_unit := pixels_per_unit s;
     memid2locs := memid2locs s |}.

Definition set_maps (m : gmap (option Z) hslice) (s : PlaceField) : PlaceField :=
  {| index2memid := index2memid s; memid2index := memid2index s;
     examined := examined s; examined_id := examined_id s; last := last s;
     maps := m; map_size := map_size s; pixels_per_unit := pixels_per_unit s;
     memid2locs := memid2locs s |}.

Definition set_memid2locs (m : gmap string (list string)) (s : PlaceField)
  : PlaceField :=
  {| index2memid := index2memid s; memid2index := memid2index s;
     examined := examined s; examined_id := examined_id s; last := last s;
     maps := maps s; map_size := map_size s;
     pixels_per_unit := pixels_per_unit s; memid2locs := m |}.

Definition set_explore (e : list (coord * Z)) (ids : gset Z) (l : option coord)
  (s : PlaceField) : PlaceField :=
  {| index2memid := index2memid s; memid2index := memid2index s;
     examined := e; examined_id := ids; last := l; maps := maps s;
     map_size := map_size s; pixels_per_unit := pixels_per_unit s;
     memid2locs := memid2locs s |}.

Definition set_params (n : Z) (ppu : Q) (s : PlaceField) : PlaceField :=
  {| index2memid := index2memid s; memid2index := memid2index s;
     examined := examined s; examined_id := examined_id s; last := last s;
     maps := maps s; map_size := n; pixels_per_unit := ppu;
     memid2locs := memid2locs s |}.

(** ** The monad of methods *)

Definition M (A : Type) : Type := PlaceField -> outcome A * PlaceField.

Definition ret {A} (a : A) : M A := fun s => (Return a, s).
Definition raise {A} (e : exn) : M A := fun s => (Raise e, s).
Definition bind {A B} (m : M A) (k : A -> M B) : M B :=
  fun s =>
    match m s with
    | (Return a, s') => k a s'
    | (Raise e, s') => (Raise e, s')
    end.
Definition get : M PlaceField := fun s => (Return s, s).
Definition modify (f : PlaceField -> PlaceField) : M unit :=
  fun s => (Return tt, f s).
Definition lift {A} (o : outcome A) : M A := fun s => (o, s).
Definition assert (b : bool) : M unit :=
  if b then ret tt else raise AssertionError.

Notation "x <- m ;; k" := (bind m (fun x => k))
  (at level 100, m at next level, right associativity).
Notation "m ;;; k" := (bind m (fun _ => k))
  (at level 100, right associativity).

(** ** Access to the grids: [self.maps[h][m][i, j]] *)

Definition maps_getitem (h : option Z) : M hslice :=
  fun s =>
    match maps s !! h with
    | Some sl => (Return sl, s)
    | None => (Raise KeyError, s)
    end.

Definition cell_get (h : option Z) (m : layer) (i j : Z) : M Z :=
  sl <- maps_getitem h ;;
  lift (ndarray_get (get_layer m sl) i j).

Definition cell_set (h : option Z) (m : layer) (i j v : Z) : M unit :=
  sl <- maps_getitem h ;;
  a <- lift (ndarray_set (get_layer m sl) i j v) ;;
  modify (fun s => set_maps (<[h := set_layer m a sl]> (maps s)) s).

(** ** Cell keys *)

Definition ijh2idx (i j h : Z) : string :=
  py_str (h * BIG_I * BIG_J + i * BIG_J + j).

Definition idx2ijh (idx : string) : outcome (Z * Z * Z) :=
  obind (py_int idx) (fun idx =>
    let j := idx mod BIG_J in
    let idx := (idx - j) / BIG_J in
    let i := idx mod BIG_I in
    let h := (idx - i) / BIG_I in
    Return (i, j, h)).

(** ** The identity registry *)

Definition maybe_add_memid (memid : string) : M Z :=
  s <- get ;;
  match memid2index s !! memid with
  | Some idx => ret idx
  | None =>
      let idx := Z.of_nat (length (index2memid s)) in
      modify (set_registry (index2memid s ++ [memid])
                           (<[memid := idx]> (memid2index s))) ;;;
      ret idx
  end.

(** ** Growth *)

(** Truth value of a slice key: [None] and [0] are false. *)
Definition key_truthy (h : option Z) : bool :=
  match h with
  | None => false
  | Some z => negb (z =? 0)
  end.

Definition fill_values : list (layer * Z) :=
  [(Updated, -1); (Map, 0); (Memids, 0)].

Definition init_slice : hslice :=
  {| updated := full MAP_INIT_SIZE (-1);
     map_ := full MAP_INIT_SIZE 0;
     memids := full MAP_INIT_SIZE 0 |}.

(** The loop [for m, v in {...}.items()] of [extend_map]. *)
Fixpoint pad_layers (h : option Z) (new_w extension : Z)
  (mvs : list (layer * Z)) : M unit :=
  match mvs with
  | [] => ret tt
  | (m, v) :: rest =>
      sl <- maps_getitem h ;;
      new_map <- lift (slice_assign (full new_w v) extension (- extension)
                                    (get_layer m sl)) ;;
      modify (fun s => set_maps (<[h := set_layer m new_map sl]> (maps s)) s) ;;;
      pad_layers h new_w extension rest
  end.

Definition extend_map (h : option Z) (extension : Z) : M Z :=
  assert (0 <=? extension) ;;;
  s <- get ;;
  let h :=
    if negb (key_truthy h) && (size (maps s) =? 1)%nat
    then match head (map_to_list (maps s)) with
         | Some (k, _) => k
         | None => h
         end
    else h in
  match maps s !! h with
  | Some _ => ret tt
  | None => modify (fun s => set_maps (<[h := init_slice]> (maps s)) s)
  end ;;;
  sl <- maps_getitem h ;;
  let w := shape0 (map_ sl) in
  let new_w := w + 2 * extension in
  if MAX_MAP_SIZE <? new_w then ret (-1)
  else
    pad_layers h new_w extension fill_values ;;;
    ret new_w.

(** ** Coordinates *)

Definition y2slice (y : Q) : Z := 0.

Definition real2map (x z : Q) (h : Z) : M (Z * Z) :=
  sl <- maps_getitem (Some h) ;;
  s <- get ;;
  let n := shape0 (map_ sl) in
  let i := Qplus (Qmult x (pixels_per_unit s)) (inject_Z (n / 2)) in
  let j := Qplus (Qmult z (pixels_per_unit s)) (inject_Z (n / 2)) in
  ret (py_round i, py_round j).

(** ** Deleting *)

(** The inner dicts of [memid2locs] are insertion-ordered sets of keys. *)
Definition dict_add (k : string) (d : list string) : list string :=
  if bool_decide (k ∈ d) then d else d ++ [k].

Definition dict_pop (k : string) (d : list string) : list string :=
  filter (fun k' => k' ≠ k) d.

(** A dict is false when it is missing or empty. *)
Definition locs_truthy (o : option (list string)) : bool :=
  match o with
  | Some (_ :: _) => true
  | _ => false
  end.

Definition dict_getitem {V} (m : gmap string V) (k : string) : outcome V :=
  match m !! k with
  | Some v => Return v
  | None => Raise KeyError
  end.

Definition maybe_delete_loc (i j h t : Z) (memid : string) : M unit :=
  v <- cell_get (Some h) Memids i j ;;
  s <- get ;;
  current_memid <- lift (list_getitem (index2memid s) v) ;;
  if bool_decide (memid = "NULL") || bool_decide (current_memid = memid) then
    null <- lift (dict_getitem (memid2index s) "NULL") ;;
    cell_set (Some h) Memids i j null ;;;
    cell_set (Some h) Map i j 0 ;;;
    cell_set (Some h) Updated i j t ;;;
    let idx := ijh2idx i j h in
    s <- get ;;
    if locs_truthy (memid2locs s !! memid) then
      modify (fun s =>
        set_memid2locs (alter (dict_pop idx) memid (memid2locs s)) s) ;;;
      s <- get ;;
      match memid2locs s !! memid with
      | Some [] => modify (fun s => set_memid2locs (delete memid (memid2locs s)) s)
      | _ => ret tt
      end
    else ret tt
  else ret tt.

Definition move_error : string :=
  "tried to delete more than one pixel from the place_field by memid with is_move set".

(** The loop [for idx in self.memid2locs.get(memid, [])]. *)
Fixpoint delete_loop (idxs : list string) (t : Z) (is_move : bool) (count : Z)
  : M unit :=
  match idxs with
  | [] => ret tt
  | idx :: rest =>
      ijh <- lift (idx2ijh idx) ;;
      let '(i, j, h) := ijh in
      cell_set (Some h) Memids i j 0 ;;;
      cell_set (Some h) Map i j 0 ;;;
      cell_set (Some h) Updated i j t ;;;
      let count := count + 1 in
      if is_move && (1 <? count) then raise (Exception move_error)
      else delete_loop rest t is_move count
  end.

Definition delete_loc_by_memid (memid : string) (t : Z) (is_move : bool)
  : M unit :=
  assert (negb (bool_decide (memid = ""))) ;;;
  assert (negb (bool_decide (memid = "NULL"))) ;;;
  s <- get ;;
  delete_loop (default [] (memid2locs s !! memid)) t is_move 0 ;;;
  modify (fun s => set_memid2locs (delete memid (memid2locs s)) s).

(** ** Batched updates *)

(** A change record, with the defaults of [c.get]: [memid] is ["NULL"],
    [is_obstacle] is true, [is_move] and [is_delete] are false. *)
Record change : Type := {
  pos : option coord;
  memid : string;
  is_obstacle : bool;
  is_move : bool;
  is_delete : bool
}.

Definition missing_location_error : string :=
  "tried to update a map location without a location or a memid".

(** [max(i - map_size + 1, j - map_size + 1, -i, -j)] *)
Definition overshoot (n i j : Z) : Z :=
  Z.max (Z.max (Z.max (i - n + 1) (j - n + 1)) (- i)) (- j).

(** The last statements of the loop body, which store the change in the
    cell [(i, j)] of slice [h] and record the cell in [memid2locs].  The
    default of [memid2index.get] is an argument, so [maybe_add_memid] runs
    before the lookup. *)
Definition store_change (c : change) (i j h t : Z) : M unit :=
  added <- maybe_add_memid (memid c) ;;
  s <- get ;;
  cell_set (Some h) Memids i j (default added (memid2index s !! memid c)) ;;;
  cell_set (Some h) Map i j (Z.b2z (is_obstacle c)) ;;;
  cell_set (Some h) Updated i j t ;;;
  modify (fun s =>
    if locs_truthy (memid2locs s !! memid c) then s
    else set_memid2locs (<[memid c := []]> (memid2locs s)) s) ;;;
  modify (fun s =>
    set_memid2locs (alter (dict_add (ijh2idx i j h)) (memid c) (memid2locs s)) s).

(** The body of the loop over the changes.  [continue] is a normal return
    of the body. *)
Definition apply_change (c : change) (t : Z) : M unit :=
  match pos c with
  | None =>
      assert (is_delete c) ;;;
      (if bool_decide (memid c = "") then raise (Exception missing_location_error)
       else ret tt) ;;;
      delete_loc_by_memid (memid c) t false
  | Some (x, y, z) =>
      let h := y2slice y in
      ij <- real2map x z h ;;
      s <- get ;;
      let sv := overshoot (map_size s) (fst ij) (snd ij) in
      (* [self.extend_map(s)]: the argument is bound to the first
         parameter, [h]; [extension] keeps its default *)
      (if 0 <? sv then extend_map (Some sv) 1 ;;; ret tt else ret tt) ;;;
      ij <- real2map x z h ;;
      let '(i, j) := ij in
      s <- get ;;
      let sv := overshoot (map_size s) i j in
      if 0 <? sv then ret tt
      else if is_delete c then maybe_delete_loc i j h t (memid c)
      else
        (if is_move c then
           assert (negb (bool_decide (memid c = "NULL"))) ;;;
           delete_loc_by_memid (memid c) t true
         else ret tt) ;;;
        store_change c i j h t
  end.

(** [update_map(changes)], with [t] the value of [self.get_time()]. *)
Fixpoint update_map (changes : list change) (t : Z) : M unit :=
  match changes with
  | [] => ret tt
  | c :: rest => apply_change c t ;;; update_map rest t
  end.

(** ** Construction *)

Definition blank : PlaceField :=
  {| index2memid := []; memid2index := ∅; examined := []; examined_id := ∅;
     last := None; maps := ∅; map_size := 0; pixels_per_unit := 1%Q;
     memid2locs := ∅ |}.

(** [__init__(memory, pixels_per_unit)], where [self_memid] is
    [memory.self_memid]. *)
Definition init (self_memid : string) (ppu : Q) : M unit :=
  maybe_add_memid "NULL" ;;;
  maybe_add_memid self_memid ;;;
  n <- extend_map (Some 0) 1 ;;
  modify (set_params n ppu) ;;;
  modify (set_memid2locs ∅).

Definition fresh (self_memid : string) (ppu : Q) : PlaceField :=
  snd (init self_memid ppu blank).

(** ** The exploration tracker *)

(** [no_y_l1(self, xyz, k)] is a module-level function of three positional
    parameters; a call with another number of arguments is a TypeError
    raised before the body runs. *)
Definition no_y_l1 (args : list coord) : outcome Q :=
  match args with
  | [_; xyz; k] =>
      Return (Qplus (Qabs (Qminus (fst (fst xyz)) (fst (fst k))))
                    (Qabs (Qminus (snd xyz) (snd k))))
  | _ => Raise TypeError
  end.

Definition Qltb (a b : Q) : bool :=
  match Qcompare a b with Lt => true | _ => false end.

Definition coord_eqb (a b : coord) : bool :=
  Qeq_bool (fst (fst a)) (fst (fst b)) && Qeq_bool (snd (fst a)) (snd (fst b))
  && Qeq_bool (snd a) (snd b).

(** The loop [for k, v in self.examined.items()] of [get_closest]. *)
Fixpoint closest_loop (items : list (coord * Z)) (xyz : coord)
  (c : option coord) (dist : Q) : outcome (option coord) :=
  match items with
  | [] => Return c
  | (k, _) :: rest =>
      obind (no_y_l1 [k; xyz]) (fun d =>
        if Qltb d dist then
          obind (no_y_l1 [k; xyz]) (fun d' => closest_loop rest xyz (Some k) d')
        else closest_loop rest xyz c dist)
  end.

Definition get_closest (xyz : coord) : M coord :=
  s <- get ;;
  c <- lift (closest_loop (examined s) xyz None (3 # 2)) ;;
  match c with
  | None =>
      modify (fun s =>
        set_explore
          (if existsb (fun kv => coord_eqb (fst kv) xyz) (examined s)
           then map (fun kv => if coord_eqb (fst kv) xyz then (fst kv, 0) else kv)
                    (examined s)
           else examined s ++ [(xyz, 0)])
          (examined_id s) (last s) s) ;;;
      ret xyz
  | Some k => ret k
  end.

Fixpoint examined_getitem (items : list (coord * Z)) (k : coord) : outcome Z :=
  match items with
  | [] => Raise KeyError
  | (k', v) :: rest => if coord_eqb k' k then Return v else examined_getitem rest k
  end.

(** An exploration target or candidate: the dict with keys ["xyz"], ["eid"]
    and ["label"]. *)
Record target : Type := { xyz : coord; eid : Z; label : string }.

Definition update (tg : target) : M unit :=
  k <- get_closest (xyz tg) ;;
  modify (fun s => set_explore (examined s) (examined_id s) (Some k) s) ;;;
  modify (fun s => set_explore (examined s) ({[eid tg]} ∪ examined_id s) (last s) s) ;;;
  s <- get ;;
  v <- lift (examined_getitem (examined s) k) ;;
  modify (fun s =>
    set_explore
      (map (fun kv => if coord_eqb (fst kv) k then (fst kv, v + 1) else kv)
           (examined s))
      (examined_id s) (last s) s).

Definition clear_examined : M unit :=
  modify (set_explore [] ∅ None).

(** [PlaceField] has no attribute [l1] (and no name [cls] is bound): the
    evaluation of [self.l1(cls.last, k)] raises at the attribute lookup. *)
Definition self_l1 {A} : M A := raise AttributeError.

(** The calls of [print] are left out. *)
Definition can_examine (x : target) : M bool :=
  k <- get_closest (xyz x) ;;
  s <- get ;;
  val <- match last s with
         | Some _ => d <- self_l1 ;; ret (negb (Qltb d 1%Q))
         | None => ret true
         end ;;
  s <- get ;;
  v <- lift (examined_getitem (examined s) k) ;;
  let val := v <? 2 in
  ret val.

(** ** Observations used in the statements *)

(** The identity owning a cell, read the way [maybe_delete_loc] reads it:
    [self.index2memid[int(self.maps[h]["memids"][i, j])]]. *)
Definition cell_owner (h i j : Z) : M string :=
  v <- cell_get (Some h) Memids i j ;;
  s <- get ;;
  lift (list_getitem (index2memid s) v).

(** The state a computation leaves behind, whether it returns or raises. *)
Definition after {A} (m : M A) (s : PlaceField) : PlaceField := snd (m s).

(** An insertion record and a record that only names a position. *)
Definition at_pos (x z : Q) (id : string) (obstacle move del : bool) : change :=
  {| pos := Some (x, 0%Q, z); memid := id; is_obstacle := obstacle;
     is_move := move; is_delete := del |}.

Definition insert_at (x z : Q) (id : string) : change :=
  at_pos x z id true false false.

(** Two exploration targets half a unit apart on both horizontal axes. *)
Definition origin_target : target :=
  {| xyz := (0%Q, 0%Q, 0%Q); eid := 1; label := "chair" |}.

Definition near_target : target :=
  {| xyz := ((1 # 2)%Q, 0%Q, (1 # 2)%Q); eid := 2; label := "table" |}.

(** The registry maps every token to its position in [index2memid] and back. *)
Definition registry_ok (s : PlaceField) : Prop :=
  forall memid k,
    memid2index s !! memid = Some k <->
    0 <= k /\ index2memid s !! Z.to_nat k = Some memid.

(** The registry of [s'] extends the registry of [s]: tokens are only
    appended, and consistency is kept. *)
Definition reg_ext (s s' : PlaceField) : Prop :=
  (exists suffix, index2memid s' = (index2memid s ++ suffix)%list)
  /\ (registry_ok s -> registry_ok s').

(** A computation that only ever extends the registry. *)
Definition mono {A} (m : M A) : Prop := forall s, reg_ext s (after m s).

(** The three arrays of a slice have side [n]. *)
Definition slice_ok (n : Z) (sl : hslice) : Prop :=
  shape0 (updated sl) = n /\ shape0 (map_ sl) = n /\ shape0 (memids sl) = n.

(** The slice after the three stores [memids[i, j] = vm], [map[i, j] = vo]
    and [updated[i, j] = vu]. *)
Definition store_slice (i j vm vo vu : Z) (sl : hslice) : hslice :=
  {| updated := upd (updated sl) i j vu;
     map_ := upd (map_ sl) i j vo;
     memids := upd (memids sl) i j vm |}.

(** The array [a] centred in an array of fill value [v] that is [e] cells
    wider on every side. *)
Definition pad (e v : Z) (a : ndarray) : ndarray :=
  {| shape0 := shape0 a + 2 * e;
     at_ := fun x y =>
       if in_range e (shape0 a) x && in_range e (shape0 a) y
       then at_ a (x - e) (y - e) else v |}.

Definition pad_slice (e : Z) (sl : hslice) : hslice :=
  {| updated := pad e (-1) (updated sl);
     map_ := pad e 0 (map_ sl);
     memids := pad e 0 (memids sl) |}.

Definition fill_value (m : layer) : Z :=
  match m with
  | Updated => -1
  | Map => 0
  | Memids => 0
  end.

(** [sl'] is [sl], of side [w], padded by [e] cells on every side: each array
    has side [w + 2 e], holds the old content shifted by [e] on both axes,
    and its fill value everywhere else. *)
Definition padded (e w : Z) (sl sl' : hslice) : Prop :=
  forall m : layer,
    shape0 (get_layer m sl') = w + 2 * e
    /\ (forall x y, 0 <= x < w -> 0 <= y < w ->
         at_ (get_layer m sl') (x + e) (y + e) = at_ (get_layer m sl) x y)
    /\ (forall x y, 0 <= x < w + 2 * e -> 0 <= y < w + 2 * e ->
         ~ (e <= x < e + w /\ e <= y < e + w) ->
         at_ (get_layer m sl') x y = fill_value m).

(** Slice 0 is a grid of side [n], and [map_size] agrees with it. *)
Definition grid_ok (n : Z) (s : PlaceField) : Prop :=
  exists sl, maps s !! Some 0 = Some sl /\ slice_ok n sl
             /\ map_size s = n /\ 0 < n <= MAX_MAP_SIZE.

(** The instance after the three stores in the cell [(i, j)] of slice 0. *)
Definition store_cell (i j vm vo vu : Z) (s : PlaceField) : PlaceField :=
  match maps s !! Some 0 with
  | Some sl => set_maps (<[Some 0 := store_slice i j vm vo vu sl]> (maps s)) s
  | None => s
  end.

(** Content of a cell of slice 0, as (owner index, occupancy, last update). *)
Definition cell (s : PlaceField) (i j : Z) : option (Z * Z * Z) :=
  match maps s !! Some 0 with
  | Some sl => Some (at_ (memids sl) i j, at_ (map_ sl) i j, at_ (updated sl) i j)
  | None => None
  end.

(** The cell a position falls in, by the arithmetic of [real2map] on a grid
    of side [n]. *)
Definition grid_index (n : Z) (ppu q : Q) : Z :=
  py_round (Qplus (Qmult q ppu) (inject_Z (n / 2))).

(** The methods of an instance, and the instance after a call. *)
Inductive call : Type :=
| CallUpdateMap (changes : list change) (t : Z)
| CallMaybeAddMemid (memid : string)
| CallExtendMap (h : option Z) (extension : Z)
| CallMaybeDeleteLoc (i j h t : Z) (memid : string)
| CallDeleteLocByMemid (memid : string) (t : Z) (is_move : bool)
| CallGetClosest (p : coord)
| CallUpdate (tg : target)
| CallClearExamined
| CallCanExamine (x : target).

Definition run (c : call) (s : PlaceField) : PlaceField :=
  match c with
  | CallUpdateMap changes t => after (update_map changes t) s
  | CallMaybeAddMemid memid => after (maybe_add_memid memid) s
  | CallExtendMap h extension => after (extend_map h extension) s
  | CallMaybeDeleteLoc i j h t memid => after (maybe_delete_loc i j h t memid) s
  | CallDeleteLocByMemid memid t is_move =>
      after (delete_loc_by_memid memid t is_move) s
  | CallGetClosest p => after (get_closest p) s
  | CallUpdate tg => after (update tg) s
  | CallClearExamined => after clear_examined s
  | CallCanExamine x => after (can_examine x) s
  end.

Definition run_all (cs : list call) (s : PlaceField) : PlaceField :=
  fold_left (fun s c => run c s) cs s.

(** The instances that exist: a new one, and one after any call. *)
Inductive reachable : PlaceField -> Prop :=
| reachable_fresh (self_memid : string) (ppu : Q) :
    reachable (fresh self_memid ppu)
| reachable_run (c : call) (s : PlaceField) :
    reachable s -> reachable (run c s).

(** The reverse index after a change is stored under [memid] in a cell of
    key [k]. *)
Definition add_loc (memid k : string) (locs : gmap string (list string))
  : gmap string (list string) :=
  alter (dict_add k) memid
    (if locs_truthy (locs !! memid) then locs else <[memid := []]> locs).

(** Instances used as examples: ["rock1"] stored in one cell, and in two. *)
Definition one_cell : PlaceField :=
  run (CallUpdateMap [insert_at 0%Q 0%Q "rock1"] 1) (fresh "self" 1%Q).

Definition two_cells : PlaceField :=
  run (CallUpdateMap [insert_at 0%Q 0%Q "rock1"; insert_at 1%Q 0%Q "rock1"] 1)
      (fresh "self" 1%Q).

(** A move record. *)
Definition move_to (x z : Q) (id : string) (obstacle : bool) : change :=
  at_pos x z id obstacle true false.

(** Between [s] and [s'] slice 0, the reverse index, the registry and the
    parameters are the same. *)
Definition same_grid (s s' : PlaceField) : Prop :=
  maps s' !! Some 0 = maps s !! Some 0
  /\ map_size s' = map_size s
  /\ pixels_per_unit s' = pixels_per_unit s
  /\ memid2locs s' = memid2locs s
  /\ index2memid s' = index2memid s
  /\ memid2index s' = memid2index s.

(** The side of slice 0 on every instance: the initial side, extended once
    by [__init__]. *)
Definition GRID_SIDE : Z := MAP_INIT_SIZE + 2.

(** A key of a cell of slice 0. *)
Definition key_ok (k : string) : Prop :=
  exists i j, k = ijh2idx i j 0 /\ 0 <= i < GRID_SIDE /\ 0 <= j < GRID_SIDE.

(** What holds of every instance built through the public operations:
    slice 0 is a grid of side [GRID_SIDE], the reverse index lists keys of its
    cells, without repetition and only for registered identities, and the
    registry is consistent with the sentinel at index 0. *)
Record wf (s : PlaceField) : Prop := {
  wf_grid : grid_ok GRID_SIDE s;
  wf_keys : forall X ks, memid2locs s !! X = Some ks -> NoDup ks /\ Forall key_ok ks;
  wf_placed : forall X ks, memid2locs s !! X = Some ks -> is_Some (memid2index s !! X);
  wf_registry : registry_ok s;
  wf_null : memid2index s !! "NULL" = Some 0
}.

(** The operations offered to callers: batched updates and the exploration
    tracker. *)
Definition public (c : call) : bool :=
  match c with
  | CallUpdateMap _ _ | CallGetClosest _ | CallUpdate _
  | CallClearExamined | CallCanExamine _ => true
  | _ => false
  end.

(** The instances a caller can build. *)
Inductive built : PlaceField -> Prop :=
| built_fresh (self_memid : string) (ppu : Q) : built (fresh self_memid ppu)
| built_run (c : call) (s : PlaceField) :
    public c = true -> built s -> built (run c s).

(** [s'] differs from [s] in the content of cells only. *)
Definition cells_changed (s s' : PlaceField) : Prop :=
  (forall n, grid_ok n s -> grid_ok n s')
  /\ memid2locs s' = memid2locs s
  /\ index2memid s' = index2memid s
  /\ memid2index s' = memid2index s.

(** ** Conversions, failures and invariants *)

Inductive failure : Type :=
| Raised (e : exn)
| ZeroDivisionError.

Definition py_truediv (a b : Q) : failure + Q :=
  if Qeq_bool b 0%Q then inl ZeroDivisionError else inr (Qdiv a b).

Definition map2real (i j h : Z) (s : PlaceField) : failure + (Q * Q) :=
  match maps s !! Some h with
  | None => inl (Raised KeyError)
  | Some sl =>
      let n := shape0 (map_ sl) in
      let i := i - n / 2 in
      let j := j - n / 2 in
      match py_truediv (inject_Z i) (pixels_per_unit s) with
      | inl f => inl f
      | inr x =>
          match py_truediv (inject_Z j) (pixels_per_unit s) with
          | inl f => inl f
          | inr z => inr (x, z)
          end
      end
  end.

(** A computation that relates every instance to the one it leaves behind
    by [R], whether it returns or raises. *)
Definition keeps (R : PlaceField -> PlaceField -> Prop) {A} (m : M A) : Prop :=
  forall s, R s (after m s).

(** The exploration tracker, the resolution and [map_size] are the same in
    [s] and [s']. *)
Definition same_tracker (s s' : PlaceField) : Prop :=
  examined s' = examined s
  /\ examined_id s' = examined_id s
  /\ last s' = last s
  /\ pixels_per_unit s' = pixels_per_unit s
  /\ map_size s' = map_size s.

(** A change record without a position. *)
Definition by_memid (id : string) (move del : bool) : change :=
  {| pos := None; memid := id; is_obstacle := true; is_move := move;
     is_delete := del |}.

(** Every cell of slice 0 with an owner other than the sentinel is listed
    in the reverse index of its owner. *)
Definition owner_listed (s : PlaceField) : Prop :=
  forall i j vm vo vu,
    0 <= i < GRID_SIDE -> 0 <= j < GRID_SIDE ->
    cell s i j = Some (vm, vo, vu) -> vm <> 0 ->
    exists X ks, 0 < vm /\ index2memid s !! Z.to_nat vm = Some X
                 /\ memid2locs s !! X = Some ks /\ ijh2idx i j 0 ∈ ks.

(** Every slice is a set of three square arrays of one side. *)
Definition slices_ok (s : PlaceField) : Prop :=
  forall h sl, maps s !! h = Some sl -> exists w, 0 <= w /\ slice_ok w sl.

(** No identity is listed with an empty set of cells. *)
Definition no_empty_locs (s : PlaceField) : Prop :=
  forall X, memid2locs s !! X <> Some [].

(** The reverse index after the key [k] is removed from the cells of
    [memid], as [maybe_delete_loc] does it: nothing happens when [memid] has
    no cells listed, and an identity left without cells is dropped. *)
Definition pop_loc (memid k : string) (locs : gmap string (list string))
  : gmap string (list string) :=
  if locs_truthy (locs !! memid) then
    match alter (dict_pop k) memid locs !! memid with
    | Some [] => delete memid (alter (dict_pop k) memid locs)
    | _ => alter (dict_pop k) memid locs
    end
  else locs.

(** What holds of the cells and slices of every instance a caller can
    build, beside [wf]. *)
Definition sound (s : PlaceField) : Prop :=
  owner_listed s /\ slices_ok s /\ no_empty_locs s.

(** The exploration tracker holds nothing, or one point: looked at by
    [can_examine] only (count 0, no last point) or examined once by
    [update] (count 1, and it is the last point). *)
Definition tracker_ok (s : PlaceField) : Prop :=
  match examined s with
  | [] => last s = None
  | [(p, v)] => (v = 0 /\ last s = None) \/ (v = 1 /\ last s = Some p)
  | _ => False
  end.

(** The identity [X] owns the cell [(i, j)] of slice 0: it is what reading
    the owner of the cell gives. *)
Definition owns (s : PlaceField) (X : string) (i j : Z) : Prop :=
  fst (cell_owner 0 i j s) = Return X.

(** An instance with stale keys: ["rock1"] is stored in two cells, both are
    deleted without naming it, and it is stored in two other cells, all at
    time 1. *)
Definition stale_cells : PlaceField :=
  run (CallUpdateMap [insert_at 0%Q 0%Q "rock1"; insert_at 1%Q 0%Q "rock1";
                      at_pos 0%Q 0%Q "NULL" true false true;
                      at_pos 1%Q 0%Q "NULL" true false true;
                      insert_at 3%Q 0%Q "rock1"; insert_at 4%Q 0%Q "rock1"] 1)
      (fresh "self" 1%Q).

(** * Properties *)

(** ** Cell keys *)

Lemma py_int_str (n : Z) : py_int (py_str n) = Return n.
Proof.
  unfold py_int, py_str.
  rewrite NilZero.isi.
  - now rewrite DecimalZ.of_to.
  - destruct n; simpl; try discriminate.
    intros [= H]. now apply Unsigned.to_uint_nonnil in H.
  - destruct n; simpl; try discriminate.
    intros [= H]. now apply Unsigned.to_uint_nonnil in H.
Qed.

Lemma decode_encode (i j h : Z) :
  0 <= i < BIG_I -> 0 <= j < BIG_J ->
  idx2ijh (ijh2idx i j h) = Return (i, j, h).
Proof.
  intros Hi Hj. unfold idx2ijh, ijh2idx.
  rewrite py_int_str. cbn [obind].
  unfold BIG_I, BIG_J, MAX_MAP_SIZE in *.
  assert (Hj' : (h * 4097 * 4097 + i * 4097 + j) mod 4097 = j).
  { replace (h * 4097 * 4097 + i * 4097 + j) with (j + (h * 4097 + i) * 4097) by ring.
    rewrite Z_mod_plus_full. apply Z.mod_small. lia. }
  rewrite Hj'.
  replace (h * 4097 * 4097 + i * 4097 + j - j) with ((h * 4097 + i) * 4097) by ring.
  rewrite Z.div_mul by lia.
  assert (Hi' : (h * 4097 + i) mod 4097 = i).
  { replace (h * 4097 + i) with (i + h * 4097) by ring.
    rewrite Z_mod_plus_full. apply Z.mod_small. lia. }
  rewrite Hi'.
  replace (h * 4097 + i - i) with (h * 4097) by ring.
  now rewrite Z.div_mul by lia.
Qed.

Lemma ijh2idx_inj (i j h i' j' h' : Z) :
  0 <= i < BIG_I -> 0 <= j < BIG_J -> 0 <= i' < BIG_I -> 0 <= j' < BIG_J ->
  ijh2idx i j h = ijh2idx i' j' h' -> (i, j, h) = (i', j', h').
Proof.
  intros Hi Hj Hi' Hj' E.
  pose proof (decode_encode i j h Hi Hj) as H1.
  pose proof (decode_encode i' j' h' Hi' Hj') as H2.
  rewrite E in H1. congruence.
Qed.

(** C8. Within the bound [0 <= i, j, h < MAX_MAP_SIZE], decoding the key of a
    cell gives back the cell: [idx2ijh(ijh2idx(i, j, h)) == (i, j, h)]. *)
Theorem idx2ijh_ijh2idx (i j h : Z) :
  0 <= i < MAX_MAP_SIZE -> 0 <= j < MAX_MAP_SIZE -> 0 <= h < MAX_MAP_SIZE ->
  idx2ijh (ijh2idx i j h) = Return (i, j, h).
Proof.
  intros Hi Hj _. now apply decode_encode.
Qed.

Lemma idx2ijh_ijh2idx_witness :
  (0 <= 513 < MAX_MAP_SIZE /\ 0 <= 4096 < MAX_MAP_SIZE /\ 0 <= 7 < MAX_MAP_SIZE)
  /\ idx2ijh (ijh2idx 513 4096 7) = Return (513, 4096, 7).
Proof.
  split.
  - unfold MAX_MAP_SIZE. lia.
  - apply (idx2ijh_ijh2idx 513 4096 7); unfold MAX_MAP_SIZE; lia.
Defined.

(** ** The exploration tracker *)

(** As soon as one point is recorded, the scan of [get_closest] stops at its
    first call of [no_y_l1], which passes two arguments for three
    parameters. *)
Lemma get_closest_nonempty (p : coord) (s : PlaceField) :
  examined s <> [] -> get_closest p s = (Raise TypeError, s).
Proof.
  intros Hne. unfold get_closest, bind, get, lift.
  destruct (examined s) as [|[k v] rest]; [congruence|].
  reflexivity.
Qed.

Lemma get_closest_empty (p : coord) (s : PlaceField) :
  examined s = [] ->
  get_closest p s = (Return p, set_explore [(p, 0)] (examined_id s) (last s) s).
Proof.
  intros He. unfold get_closest, bind, get, lift, modify, ret.
  rewrite He. cbn [closest_loop]. rewrite He. reflexivity.
Qed.

(** Whenever a last examined point is set, [can_examine] raises. *)
Lemma can_examine_last_raises (x : target) (s : PlaceField) :
  last s <> None -> exists e s', can_examine x s = (Raise e, s').
Proof.
  intros Hl. unfold can_examine, bind.
  destruct (examined s) as [|kv rest] eqn:He.
  - rewrite get_closest_empty by assumption.
    unfold get. cbn [last set_explore].
    destruct (last s); [|congruence].
    unfold self_l1, raise. eauto.
  - rewrite get_closest_nonempty by congruence. eauto.
Qed.

(** C3. After [update({xyz: (0,0,0), eid: 1})] on a fresh instance, the call
    [can_examine({xyz: (0.5,0,0.5), ...})] does not return [false]: it raises
    TypeError, out of the scan of [get_closest]. *)
Theorem can_examine_after_update_raises :
  let s := after (update origin_target) (fresh "self" 1%Q) in
  last s = Some (0%Q, 0%Q, 0%Q)
  /\ fst (can_examine near_target s) = Raise TypeError.
Proof.
  vm_compute. split; reflexivity.
Qed.

(** C4. The exploration operations do raise: after one [update] on a fresh
    instance, [get_closest], [update] and [can_examine] all raise
    TypeError. *)
Theorem exploration_calls_raise :
  let s := after (update origin_target) (fresh "self" 1%Q) in
  fst (update origin_target (fresh "self" 1%Q)) = Return tt
  /\ fst (get_closest (0%Q, 0%Q, 0%Q) s) = Raise TypeError
  /\ fst (update near_target s) = Raise TypeError
  /\ fst (can_examine near_target s) = Raise TypeError.
Proof.
  vm_compute. repeat split; reflexivity.
Qed.

(** ** The identity registry *)

Lemma reg_ext_refl (s : PlaceField) : reg_ext s s.
Proof.
  split; [exists []; now rewrite app_nil_r | auto].
Qed.

Lemma reg_ext_trans (s1 s2 s3 : PlaceField) :
  reg_ext s1 s2 -> reg_ext s2 s3 -> reg_ext s1 s3.
Proof.
  intros [[l1 E1] H1] [[l2 E2] H2]. split; [|auto].
  exists (l1 ++ l2)%list. now rewrite E2, E1, app_assoc.
Qed.

Lemma reg_ext_same (s s' : PlaceField) :
  index2memid s' = index2memid s -> memid2index s' = memid2index s ->
  reg_ext s s'.
Proof.
  intros E1 E2. split.
  - exists []. now rewrite app_nil_r.
  - unfold registry_ok. now rewrite E1, E2.
Qed.

Lemma mono_ret {A} (a : A) : mono (ret a).
Proof. intros s. apply reg_ext_refl. Qed.

Lemma mono_raise {A} (e : exn) : mono (@raise A e).
Proof. intros s. apply reg_ext_refl. Qed.

Lemma mono_get : mono get.
Proof. intros s. apply reg_ext_refl. Qed.

Lemma mono_lift {A} (o : outcome A) : mono (lift o).
Proof. intros s. apply reg_ext_refl. Qed.

Lemma mono_assert (b : bool) : mono (assert b).
Proof. destruct b; [apply mono_ret | apply mono_raise]. Qed.

Lemma mono_bind {A B} (m : M A) (k : A -> M B) :
  mono m -> (forall a, mono (k a)) -> mono (bind m k).
Proof.
  intros Hm Hk s. specialize (Hm s). unfold after, bind in *.
  destruct (m s) as [[a|e] s1]; cbn [snd] in *; [|assumption].
  eapply reg_ext_trans; [exact Hm | apply Hk].
Qed.

Lemma mono_modify (f : PlaceField -> PlaceField) :
  (forall s, index2memid (f s) = index2memid s /\ memid2index (f s) = memid2index s) ->
  mono (modify f).
Proof.
  intros Hf s. destruct (Hf s). now apply reg_ext_same.
Qed.

Lemma maybe_add_memid_known (memid : string) (idx : Z) (s : PlaceField) :
  memid2index s !! memid = Some idx ->
  maybe_add_memid memid s = (Return idx, s).
Proof.
  intros H. unfold maybe_add_memid, bind, get. now rewrite H.
Qed.

Lemma maybe_add_memid_new (memid : string) (s : PlaceField) :
  memid2index s !! memid = None ->
  maybe_add_memid memid s =
    (Return (Z.of_nat (length (index2memid s))),
     set_registry (index2memid s ++ [memid])
       (<[memid := Z.of_nat (length (index2memid s))]> (memid2index s)) s).
Proof.
  intros H. unfold maybe_add_memid, bind, get. now rewrite H.
Qed.

Lemma registry_ok_add (memid : string) (s : PlaceField) :
  memid2index s !! memid = None -> registry_ok s ->
  registry_ok
    (set_registry (index2memid s ++ [memid])
       (<[memid := Z.of_nat (length (index2memid s))]> (memid2index s)) s).
Proof.
  intros Hnew Hok m k. cbn [memid2index index2memid set_registry].
  destruct (decide (memid = m)) as [->|Hne].
  - rewrite lookup_insert_eq. split.
    + intros [= <-]. split; [lia|].
      rewrite Nat2Z.id. now rewrite lookup_app_r, Nat.sub_diag by lia.
    + intros [Hk Hl]. f_equal.
      destruct (decide (Z.to_nat k < length (index2memid s))%nat) as [Hlt|Hge].
      * rewrite lookup_app_l in Hl by assumption.
        assert (memid2index s !! m = Some k) by (apply Hok; auto). congruence.
      * apply lookup_lt_Some in Hl. rewrite length_app in Hl. cbn in Hl. lia.
  - rewrite lookup_insert_ne by assumption. rewrite (Hok m k). split.
    + intros [Hk Hl]. split; [assumption|].
      rewrite lookup_app_l; [assumption|]. now apply lookup_lt_Some in Hl.
    + intros [Hk Hl]. split; [assumption|].
      destruct (decide (Z.to_nat k < length (index2memid s))%nat) as [Hlt|Hge].
      * now rewrite lookup_app_l in Hl.
      * rewrite lookup_app_r in Hl by lia.
        destruct (Z.to_nat k - length (index2memid s))%nat as [|[|n]];
          simpl in Hl; simplify_eq.
Qed.

Lemma mono_maybe_add_memid (memid : string) : mono (maybe_add_memid memid).
Proof.
  intros s. unfold after.
  destruct (memid2index s !! memid) as [idx|] eqn:E.
  - rewrite (maybe_add_memid_known _ _ _ E). apply reg_ext_refl.
  - rewrite (maybe_add_memid_new _ _ E). cbn [snd]. split.
    + now exists [memid].
    + now apply registry_ok_add.
Qed.

Lemma mono_maps_getitem (h : option Z) : mono (maps_getitem h).
Proof.
  intros s. unfold after, maps_getitem.
  destruct (maps s !! h); apply reg_ext_refl.
Qed.

Ltac solve_mono_modify :=
  apply mono_modify; intros ?;
  repeat match goal with
         | |- context [if ?b then _ else _] => destruct b
         | |- context [match ?x with _ => _ end] => destruct x
         end;
  split; reflexivity.

Ltac mono_step :=
  match goal with
  | |- mono (bind _ _) => apply mono_bind; [|intros ?]
  | |- mono (ret _) => apply mono_ret
  | |- mono (raise _) => apply mono_raise
  | |- mono get => apply mono_get
  | |- mono (lift _) => apply mono_lift
  | |- mono (assert _) => apply mono_assert
  | |- mono (maps_getitem _) => apply mono_maps_getitem
  | |- mono (maybe_add_memid _) => apply mono_maybe_add_memid
  | |- mono (modify _) => solve_mono_modify
  | |- mono (if ?b then _ else _) => destruct b
  | |- mono (match ?x with _ => _ end) => destruct x
  end.

Ltac mono_auto := repeat mono_step.

Lemma mono_cell_get (h : option Z) (m : layer) (i j : Z) : mono (cell_get h m i j).
Proof. unfold cell_get. mono_auto. Qed.

Lemma mono_cell_set (h : option Z) (m : layer) (i j v : Z) :
  mono (cell_set h m i j v).
Proof. unfold cell_set. mono_auto. Qed.

Lemma mono_pad_layers (h : option Z) (new_w extension : Z) (mvs : list (layer * Z)) :
  mono (pad_layers h new_w extension mvs).
Proof.
  induction mvs as [|[m v] rest IH]; cbn [pad_layers]; mono_auto. exact IH.
Qed.

Lemma mono_extend_map (h : option Z) (extension : Z) : mono (extend_map h extension).
Proof.
  unfold extend_map. mono_auto; apply mono_pad_layers.
Qed.

Lemma mono_maybe_delete_loc (i j h t : Z) (memid : string) :
  mono (maybe_delete_loc i j h t memid).
Proof.
  unfold maybe_delete_loc.
  mono_auto; try apply mono_cell_get; try apply mono_cell_set.
Qed.

Lemma mono_delete_loop (idxs : list string) (t : Z) (is_move : bool) (count : Z) :
  mono (delete_loop idxs t is_move count).
Proof.
  revert count. induction idxs as [|idx rest IH]; intros count; cbn [delete_loop].
  - apply mono_ret.
  - mono_auto; try apply mono_cell_set; apply IH.
Qed.

Lemma mono_delete_loc_by_memid (memid : string) (t : Z) (is_move : bool) :
  mono (delete_loc_by_memid memid t is_move).
Proof.
  unfold delete_loc_by_memid. mono_auto. apply mono_delete_loop.
Qed.

Lemma mono_real2map (x z : Q) (h : Z) : mono (real2map x z h).
Proof. unfold real2map. mono_auto. Qed.

Lemma mono_store_change (c : change) (i j h t : Z) : mono (store_change c i j h t).
Proof. unfold store_change. mono_auto; apply mono_cell_set. Qed.

Lemma mono_apply_change (c : change) (t : Z) : mono (apply_change c t).
Proof.
  unfold apply_change.
  mono_auto;
    first [ apply mono_real2map | apply mono_extend_map
          | apply mono_maybe_delete_loc | apply mono_delete_loc_by_memid
          | apply mono_store_change ].
Qed.

Lemma mono_update_map (changes : list change) (t : Z) : mono (update_map changes t).
Proof.
  induction changes as [|c rest IH]; cbn [update_map]; mono_auto.
  - apply mono_apply_change.
  - exact IH.
Qed.

Lemma mono_get_closest (p : coord) : mono (get_closest p).
Proof. unfold get_closest. mono_auto. Qed.

Lemma mono_update (tg : target) : mono (update tg).
Proof. unfold update. mono_auto. apply mono_get_closest. Qed.

Lemma mono_can_examine (x : target) : mono (can_examine x).
Proof. unfold can_examine, self_l1. mono_auto. apply mono_get_closest. Qed.

Lemma mono_clear_examined : mono clear_examined.
Proof. unfold clear_examined. mono_auto. Qed.

Lemma reg_ext_run (c : call) (s : PlaceField) : reg_ext s (run c s).
Proof.
  destruct c; cbn [run].
  - apply mono_update_map.
  - apply mono_maybe_add_memid.
  - apply mono_extend_map.
  - apply mono_maybe_delete_loc.
  - apply mono_delete_loc_by_memid.
  - apply mono_get_closest.
  - apply mono_update.
  - apply mono_clear_examined.
  - apply mono_can_examine.
Qed.

Lemma reg_ext_run_all (cs : list call) (s : PlaceField) : reg_ext s (run_all cs s).
Proof.
  revert s. induction cs as [|c cs IH]; intros s; cbn [run_all fold_left].
  - apply reg_ext_refl.
  - eapply reg_ext_trans; [apply reg_ext_run | apply IH].
Qed.

Lemma registry_ok_blank : registry_ok blank.
Proof.
  intros m k. cbn [blank memid2index index2memid].
  rewrite lookup_empty, lookup_nil. split; [discriminate | intros [_ H]; discriminate].
Qed.

Lemma mono_init (self_memid : string) (ppu : Q) : mono (init self_memid ppu).
Proof. unfold init. mono_auto. apply mono_extend_map. Qed.

Lemma reachable_registry_ok (s : PlaceField) : reachable s -> registry_ok s.
Proof.
  induction 1 as [self_memid ppu | c s Hs IH].
  - apply (mono_init self_memid ppu blank), registry_ok_blank.
  - now apply (reg_ext_run c s).
Qed.


Lemma registry_stable (s s' : PlaceField) (memid : string) (k : Z) :
  registry_ok s -> reg_ext s s' -> memid2index s !! memid = Some k ->
  memid2index s' !! memid = Some k
  /\ forall memid', memid2index s' !! memid' = Some k -> memid' = memid.
Proof.
  intros Hok [[suffix E] Hok'] Hm. specialize (Hok' Hok).
  apply Hok in Hm as [Hk Hl].
  assert (Hl' : index2memid s' !! Z.to_nat k = Some memid).
  { rewrite E. rewrite lookup_app_l; [assumption|]. now apply lookup_lt_Some in Hl. }
  split.
  - now apply Hok'.
  - intros m' Hm'. apply Hok' in Hm' as [_ Hm']. congruence.
Qed.



(** ** Growth *)

Lemma slice_assign_pad (a : ndarray) (w e v : Z) :
  shape0 a = w -> 0 <= w -> 1 <= e ->
  slice_assign (full (w + 2 * e) v) e (- e) a = Return (pad e v a).
Proof.
  intros Hw Hw0 He. unfold slice_assign. cbn [shape0 full at_].
  assert (Hlo : slice_bound (w + 2 * e) e = e).
  { unfold slice_bound. destruct (Z.ltb_spec e 0); lia. }
  assert (Hhi : slice_bound (w + 2 * e) (- e) = w + e).
  { unfold slice_bound. destruct (Z.ltb_spec (- e) 0); lia. }
  rewrite Hlo, Hhi.
  replace (Z.max 0 (w + e - e)) with w by lia.
  rewrite <- Hw at 1. rewrite Z.eqb_refl.
  unfold pad. rewrite Hw. reflexivity.
Qed.

(** The key [extend_map] works on is the one it is given when that slice
    exists: a false key is only replaced by the single key of [maps]. *)
Lemma resolve_key (s : PlaceField) (h : option Z) (sl : hslice) :
  maps s !! h = Some sl ->
  (if negb (key_truthy h) && (size (maps s) =? 1)%nat
   then match head (map_to_list (maps s)) with
        | Some (k, _) => k
        | None => h
        end
   else h) = h.
Proof.
  intros Hh. destruct (negb (key_truthy h)); [|reflexivity]. cbn [andb].
  destruct (Nat.eqb_spec (size (maps s)) 1) as [Hs|]; [|reflexivity].
  apply elem_of_map_to_list in Hh.
  rewrite <- length_map_to_list in Hs.
  destruct (map_to_list (maps s)) as [|[k v] [|? ?]]; try discriminate.
  apply list_elem_of_singleton in Hh. cbn [head]. congruence.
Qed.

Lemma pad_layers_fill (s : PlaceField) (h : option Z) (sl : hslice) (w e : Z) :
  maps s !! h = Some sl -> slice_ok w sl -> 0 <= w -> 1 <= e ->
  pad_layers h (w + 2 * e) e fill_values s
  = (Return tt, set_maps (<[h := pad_slice e sl]> (maps s)) s).
Proof.
  intros Hh (Hu & Hm & Hi) Hw He.
  unfold fill_values. cbn [pad_layers].
  unfold bind, maps_getitem, lift, modify, ret.
  rewrite Hh. cbn [get_layer].
  rewrite (slice_assign_pad _ w e (-1) Hu Hw He).
  cbn [maps set_maps]. rewrite lookup_insert_eq.
  cbn [get_layer set_layer map_ updated memids].
  rewrite (slice_assign_pad _ w e 0 Hm Hw He).
  cbn [maps set_maps]. rewrite lookup_insert_eq.
  cbn [get_layer set_layer map_ updated memids].
  rewrite (slice_assign_pad _ w e 0 Hi Hw He).
  cbn [maps set_maps]. rewrite !insert_insert_eq.
  reflexivity.
Qed.

Lemma extend_map_existing (s : PlaceField) (h : option Z) (sl : hslice) (w e : Z) :
  maps s !! h = Some sl -> slice_ok w sl -> 0 <= w -> 1 <= e ->
  extend_map h e s =
    if MAX_MAP_SIZE <? w + 2 * e then (Return (-1), s)
    else (Return (w + 2 * e), set_maps (<[h := pad_slice e sl]> (maps s)) s).
Proof.
  intros Hh Hok Hw He. unfold extend_map.
  unfold bind at 1.
  destruct (Z.leb_spec 0 e); [|lia]. cbn [assert ret].
  unfold bind at 1. unfold get at 1.
  rewrite (resolve_key s h sl Hh).
  unfold bind at 1. rewrite Hh. cbn [ret].
  unfold bind at 1. unfold maps_getitem at 1. rewrite Hh.
  destruct Hok as (Hu & Hm & Hi). rewrite Hm.
  destruct (MAX_MAP_SIZE <? w + 2 * e); [reflexivity|].
  unfold bind. rewrite (pad_layers_fill s h sl w e Hh (conj Hu (conj Hm Hi)) Hw He).
  reflexivity.
Qed.

Lemma pad_slice_padded (e w : Z) (sl : hslice) :
  slice_ok w sl -> padded e w sl (pad_slice e sl).
Proof.
  intros (Hu & Hm & Hi) m.
  assert (Hsh : shape0 (get_layer m sl) = w) by (destruct m; assumption).
  assert (Hpad : get_layer m (pad_slice e sl) = pad e (fill_value m) (get_layer m sl))
    by (destruct m; reflexivity).
  rewrite Hpad. unfold pad. cbn [shape0 at_]. rewrite Hsh.
  split; [reflexivity|]. split.
  - intros x y Hx Hy. unfold in_range.
    destruct (Z.leb_spec e (x + e)); [|lia].
    destruct (Z.ltb_spec (x + e) (e + w)); [|lia].
    destruct (Z.leb_spec e (y + e)); [|lia].
    destruct (Z.ltb_spec (y + e) (e + w)); [|lia].
    cbn [andb]. f_equal; lia.
  - intros x y _ _ Hout. unfold in_range.
    destruct (Z.leb_spec e x), (Z.ltb_spec x (e + w)),
      (Z.leb_spec e y), (Z.ltb_spec y (e + w)); cbn [andb]; try reflexivity.
    exfalso. apply Hout. lia.
Qed.

(** A negative extension is refused by the assertion of [extend_map], and
    the extension 0 runs into the empty region [0:-0] of the new array. *)
Lemma extend_map_zero_raises :
  extend_map (Some 0) 0 (fresh "self" 1%Q) = (Raise ValueError, fresh "self" 1%Q).
Proof. vm_compute. reflexivity. Qed.

(** C7, as stated, fails for a negative extension: on the slice of a fresh
    instance [extend_map(0, -1)] neither returns [-1] nor pads, it raises
    AssertionError. *)
Lemma extend_map_negative_raises :
  is_Some (maps (fresh "self" 1%Q) !! Some 0)
  /\ fst (extend_map (Some 0) (-1) (fresh "self" 1%Q)) = Raise AssertionError.
Proof.
  split; [vm_compute; eauto | vm_compute; reflexivity].
Qed.

(** C7 (amended). For an existing slice of side [w] and an extension of at
    least 1, [extend_map] either returns [-1] and leaves the instance as it
    is, when [w + 2 * extension > MAX_MAP_SIZE], or returns the new side
    [w + 2 * extension] after padding the three arrays of the slice by
    [extension] cells on every side around their old content; nothing else
    of the instance changes. *)
Theorem extend_map_rejects_or_pads
  (s : PlaceField) (h : option Z) (sl : hslice) (w extension : Z) :
  maps s !! h = Some sl -> slice_ok w sl -> 0 <= w -> 1 <= extension ->
  (MAX_MAP_SIZE < w + 2 * extension
   /\ extend_map h extension s = (Return (-1), s))
  \/ (w + 2 * extension <= MAX_MAP_SIZE
      /\ exists sl',
          extend_map h extension s
          = (Return (w + 2 * extension), set_maps (<[h := sl']> (maps s)) s)
          /\ padded extension w sl sl').
Proof.
  intros Hh Hok Hw He.
  rewrite (extend_map_existing s h sl w extension Hh Hok Hw He).
  destruct (Z.ltb_spec MAX_MAP_SIZE (w + 2 * extension)).
  - left. split; [assumption | reflexivity].
  - right. split; [assumption|].
    exists (pad_slice extension sl). split; [reflexivity|].
    now apply pad_slice_padded.
Qed.

Lemma extend_map_rejects_or_pads_witness :
  exists sl,
    maps (fresh "self" 1%Q) !! Some 0 = Some sl
    /\ slice_ok 1027 sl
    /\ exists sl',
        extend_map (Some 0) 3 (fresh "self" 1%Q)
        = (Return 1033,
           set_maps (<[Some 0 := sl']> (maps (fresh "self" 1%Q))) (fresh "self" 1%Q))
        /\ padded 3 1027 sl sl'.
Proof.
  eexists. split; [vm_compute; reflexivity|].
  split; [repeat split|].
  destruct (extend_map_rejects_or_pads (fresh "self" 1%Q) (Some 0) _ 1027 3
              ltac:(vm_compute; reflexivity) ltac:(repeat split) ltac:(lia) ltac:(lia))
    as [[Hbig _] | [_ Hpad]].
  - unfold MAX_MAP_SIZE in Hbig. lia.
  - exact Hpad.
Defined.

(** ** Positions outside the grid *)

(** C2. A record 600 units off the centre needs 87 more cells, which the
    bound allows ([1027 + 2 * 87 <= MAX_MAP_SIZE]); [update_map] calls
    [extend_map(87)], which creates a slice 87 and pads it by one cell, leaves
    slice 0 and [map_size] as they were, and the record is dropped. *)
Theorem update_map_out_of_bounds_never_applied :
  let s := fresh "self" 1%Q in
  let r := update_map [insert_at 600%Q 0%Q "rock1"] 1 s in
  overshoot (map_size s) (grid_index 1027 1%Q 600%Q) (grid_index 1027 1%Q 0%Q) = 87
  /\ 1027 + 2 * 87 <= MAX_MAP_SIZE
  /\ fst r = Return tt
  /\ maps (snd r) !! Some 0 = maps s !! Some 0
  /\ map_size (snd r) = 1027
  /\ memid2locs (snd r) = ∅
  /\ memid2index (snd r) !! "rock1" = None
  /\ maps s !! Some 87 = None
  /\ (shape0 <$> (map_ <$> maps (snd r) !! Some 87)) = Some 1027.
Proof.
  vm_compute. repeat split; try reflexivity. discriminate.
Qed.

(** ** Owners and the reverse index *)

(** C1. Insert ["rock1"] at the origin, then delete whatever is at the
    origin without naming an identity: the cell is cleared and owned by the
    sentinel, but its key stays in [memid2locs["rock1"]]. *)
Theorem delete_without_memid_leaves_stale_key :
  let s1 := after (update_map [insert_at 0%Q 0%Q "rock1"] 1) (fresh "self" 1%Q) in
  let s2 := after (update_map [at_pos 0%Q 0%Q "NULL" true false true] 2) s1 in
  fst (update_map [insert_at 0%Q 0%Q "rock1"] 1 (fresh "self" 1%Q)) = Return tt
  /\ fst (cell_owner 0 513 513 s1) = Return "rock1"
  /\ memid2locs s1 !! "rock1" = Some [ijh2idx 513 513 0]
  /\ fst (update_map [at_pos 0%Q 0%Q "NULL" true false true] 2 s1) = Return tt
  /\ fst (cell_owner 0 513 513 s2) = Return "NULL"
  /\ cell s2 513 513 = Some (0, 0, 2)
  /\ memid2locs s2 !! "rock1" = Some [ijh2idx 513 513 0].
Proof.
  vm_compute. repeat split; reflexivity.
Qed.

(** The same happens when another identity is stored over an owned cell. *)
Lemma overwrite_leaves_stale_key :
  let s := after (update_map [insert_at 0%Q 0%Q "rock1"; insert_at 0%Q 0%Q "rock2"] 1)
                 (fresh "self" 1%Q) in
  fst (cell_owner 0 513 513 s) = Return "rock2"
  /\ memid2locs s !! "rock1" = Some [ijh2idx 513 513 0].
Proof.
  vm_compute. repeat split; reflexivity.
Qed.

(** A stale key is not harmless: once ["rock1"] is stored again elsewhere,
    its reverse index lists two keys although it owns one cell, and a move
    of ["rock1"] raises the move error. *)
Lemma stale_key_breaks_move :
  let s :=
    after (update_map [insert_at 0%Q 0%Q "rock1";
                       at_pos 0%Q 0%Q "NULL" true false true;
                       insert_at 3%Q 0%Q "rock1"] 1) (fresh "self" 1%Q) in
  fst (cell_owner 0 513 513 s) = Return "NULL"
  /\ fst (cell_owner 0 516 513 s) = Return "rock1"
  /\ memid2locs s !! "rock1" = Some [ijh2idx 513 513 0; ijh2idx 516 513 0]
  /\ fst (update_map [at_pos 5%Q 5%Q "rock1" true true false] 2 s)
     = Raise (Exception move_error).
Proof.
  vm_compute. repeat split; reflexivity.
Qed.

(** ** Moves and deletions by identity *)

Lemma norm_index_in (n i : Z) : 0 <= i < n -> norm_index n i = Some i.
Proof.
  intros H. unfold norm_index.
  destruct (Z.leb_spec 0 i); [|lia]. destruct (Z.ltb_spec i n); [|lia]. reflexivity.
Qed.

Lemma cell_set_eq (s : PlaceField) (h : option Z) (m : layer) (i j v : Z) (sl : hslice) :
  maps s !! h = Some sl ->
  0 <= i < shape0 (get_layer m sl) -> 0 <= j < shape0 (get_layer m sl) ->
  cell_set h m i j v s
  = (Return tt, set_maps (<[h := set_layer m (upd (get_layer m sl) i j v) sl]> (maps s)) s).
Proof.
  intros Hh Hi Hj. unfold cell_set, bind, maps_getitem, lift, modify, ndarray_set.
  rewrite Hh, (norm_index_in _ _ Hi), (norm_index_in _ _ Hj). reflexivity.
Qed.

Lemma store3_eq {A} (s : PlaceField) (n i j vm vo vu : Z) (sl : hslice) (k : M A) :
  maps s !! Some 0 = Some sl -> slice_ok n sl -> 0 <= i < n -> 0 <= j < n ->
  (cell_set (Some 0) Memids i j vm ;;; cell_set (Some 0) Map i j vo ;;;
   cell_set (Some 0) Updated i j vu ;;; k) s
  = k (store_cell i j vm vo vu s).
Proof.
  intros Hh (Hu & Hm & Hi) Hbi Hbj.
  unfold bind at 1.
  rewrite (cell_set_eq s _ Memids i j vm sl Hh) by (cbn [get_layer]; lia).
  unfold bind at 1.
  erewrite cell_set_eq;
    [| cbn [maps set_maps]; apply lookup_insert_eq
     | cbn [get_layer set_layer map_]; lia | cbn [get_layer set_layer map_]; lia].
  unfold bind at 1.
  erewrite cell_set_eq;
    [| cbn [maps set_maps]; apply lookup_insert_eq
     | cbn [get_layer set_layer updated]; lia | cbn [get_layer set_layer updated]; lia].
  unfold store_cell. rewrite Hh.
  cbn [maps set_maps]. rewrite !insert_insert_eq. reflexivity.
Qed.

Lemma grid_ok_store_cell (n i j vm vo vu : Z) (s : PlaceField) :
  grid_ok n s -> grid_ok n (store_cell i j vm vo vu s).
Proof.
  intros (sl & Hh & Hok & Hsz & Hn). unfold store_cell. rewrite Hh.
  exists (store_slice i j vm vo vu sl). cbn [maps set_maps map_size].
  rewrite lookup_insert_eq. repeat split; try tauto; apply Hok.
Qed.

Lemma grid_ok_frame (n : Z) (s s' : PlaceField) :
  maps s' = maps s -> map_size s' = map_size s -> grid_ok n s -> grid_ok n s'.
Proof.
  intros Em Es (sl & Hh & Hok & Hsz & Hn). exists sl. rewrite Em, Es. tauto.
Qed.

Lemma cell_store_cell (n i j vm vo vu x y : Z) (s : PlaceField) :
  grid_ok n s ->
  cell (store_cell i j vm vo vu s) x y
  = if (x =? i) && (y =? j) then Some (vm, vo, vu) else cell s x y.
Proof.
  intros (sl & Hh & _). unfold cell, store_cell. rewrite Hh.
  cbn [maps set_maps]. rewrite lookup_insert_eq.
  cbn [store_slice memids map_ updated upd at_].
  destruct ((x =? i) && (y =? j)); reflexivity.
Qed.


Lemma delete_loop_two (s : PlaceField) (n i1 j1 i2 j2 t : Z) (rest : list string) :
  grid_ok n s -> 0 <= i1 < n -> 0 <= j1 < n -> 0 <= i2 < n -> 0 <= j2 < n ->
  delete_loop (ijh2idx i1 j1 0 :: ijh2idx i2 j2 0 :: rest) t true 0 s
  = (Raise (Exception move_error),
     store_cell i2 j2 0 0 t (store_cell i1 j1 0 0 t s)).
Proof.
  intros Hg Hi1 Hj1 Hi2 Hj2.
  pose proof (grid_ok_store_cell n i1 j1 0 0 t s Hg) as Hg1.
  destruct Hg as (sl & Hh & Hok & Hsz & Hn).
  destruct Hg1 as (sl1 & Hh1 & Hok1 & _).
  cbn [delete_loop].
  unfold bind at 1. unfold lift at 1.
  rewrite decode_encode by (unfold BIG_I, BIG_J; lia).
  rewrite (store3_eq s n i1 j1 0 0 t sl) by assumption.
  replace (0 + 1) with 1 by lia. cbn [Z.ltb Z.compare Pos.compare Pos.compare_cont andb].
  cbn [delete_loop].
  unfold bind at 1. unfold lift at 1.
  rewrite decode_encode by (unfold BIG_I, BIG_J; lia).
  rewrite (store3_eq _ n i2 j2 0 0 t sl1) by assumption.
  reflexivity.
Qed.

Lemma delete_loc_by_memid_asserts {A} (memid : string) (k : M A) (s : PlaceField) :
  memid <> "" -> memid <> "NULL" ->
  (assert (negb (bool_decide (memid = ""))) ;;;
   assert (negb (bool_decide (memid = "NULL"))) ;;; k) s = k s.
Proof.
  intros H1 H2. unfold bind.
  rewrite !bool_decide_eq_false_2 by assumption. reflexivity.
Qed.

Lemma delete_loc_by_memid_none (s : PlaceField) (memid : string) (t : Z) (is_move : bool) :
  memid <> "" -> memid <> "NULL" -> memid2locs s !! memid = None ->
  delete_loc_by_memid memid t is_move s
  = (Return tt, set_memid2locs (delete memid (memid2locs s)) s).
Proof.
  intros H1 H2 Hl. unfold delete_loc_by_memid.
  rewrite delete_loc_by_memid_asserts by assumption.
  unfold bind, get. rewrite Hl. reflexivity.
Qed.


Lemma delete_loc_by_memid_two
  (s : PlaceField) (n i1 j1 i2 j2 t : Z) (memid : string) (rest : list string) :
  grid_ok n s -> memid <> "" -> memid <> "NULL" ->
  memid2locs s !! memid = Some (ijh2idx i1 j1 0 :: ijh2idx i2 j2 0 :: rest) ->
  0 <= i1 < n -> 0 <= j1 < n -> 0 <= i2 < n -> 0 <= j2 < n ->
  delete_loc_by_memid memid t true s
  = (Raise (Exception move_error),
     store_cell i2 j2 0 0 t (store_cell i1 j1 0 0 t s)).
Proof.
  intros Hg H1 H2 Hl Hi1 Hj1 Hi2 Hj2. unfold delete_loc_by_memid.
  rewrite delete_loc_by_memid_asserts by assumption.
  unfold bind at 1. unfold get at 1. rewrite Hl.
  change (default [] (Some (ijh2idx i1 j1 0 :: ijh2idx i2 j2 0 :: rest)))
    with (ijh2idx i1 j1 0 :: ijh2idx i2 j2 0 :: rest).
  unfold bind. rewrite (delete_loop_two s n i1 j1 i2 j2 t rest) by assumption.
  reflexivity.
Qed.

Lemma memid2locs_store_cell (i j vm vo vu : Z) (s : PlaceField) :
  memid2locs (store_cell i j vm vo vu s) = memid2locs s.
Proof. unfold store_cell. destruct (maps s !! Some 0); reflexivity. Qed.

Lemma registry_store_cell (i j vm vo vu : Z) (s : PlaceField) :
  index2memid (store_cell i j vm vo vu s) = index2memid s
  /\ memid2index (store_cell i j vm vo vu s) = memid2index s.
Proof. unfold store_cell. destruct (maps s !! Some 0); split; reflexivity. Qed.

Lemma real2map_eq (s : PlaceField) (n : Z) (x z : Q) :
  grid_ok n s ->
  real2map x z 0 s
  = (Return (grid_index n (pixels_per_unit s) x, grid_index n (pixels_per_unit s) z), s).
Proof.
  intros (sl & Hh & (_ & Hm & _) & _). unfold real2map, bind, maps_getitem, get, ret.
  rewrite Hh, Hm. reflexivity.
Qed.

Lemma overshoot_inside (n i j : Z) :
  0 <= i < n -> 0 <= j < n -> (0 <? overshoot n i j) = false.
Proof.
  intros Hi Hj. unfold overshoot. apply Z.ltb_ge. lia.
Qed.

Lemma overshoot_outside (n i j : Z) :
  ~ (0 <= i < n /\ 0 <= j < n) -> (0 <? overshoot n i j) = true.
Proof.
  intros H. unfold overshoot. apply Z.ltb_lt. lia.
Qed.

(** Registering a token touches the registry only. *)
Lemma maybe_add_memid_total (memid : string) (s : PlaceField) :
  exists idx,
    maybe_add_memid memid s = (Return idx, after (maybe_add_memid memid) s)
    /\ memid2index (after (maybe_add_memid memid) s) !! memid = Some idx
    /\ maps (after (maybe_add_memid memid) s) = maps s
    /\ map_size (after (maybe_add_memid memid) s) = map_size s
    /\ memid2locs (after (maybe_add_memid memid) s) = memid2locs s.
Proof.
  unfold after. destruct (memid2index s !! memid) as [idx|] eqn:E.
  - exists idx. rewrite (maybe_add_memid_known _ _ _ E). cbn [snd]. tauto.
  - eexists. rewrite (maybe_add_memid_new _ _ E). cbn [snd].
    split; [reflexivity|]. cbn [memid2index set_registry maps map_size memid2locs].
    rewrite lookup_insert_eq. tauto.
Qed.

Lemma store_change_eq (s : PlaceField) (n i j t : Z) (c : change) :
  grid_ok n s -> 0 <= i < n -> 0 <= j < n ->
  exists idx,
    memid2index (after (maybe_add_memid (memid c)) s) !! memid c = Some idx
    /\ store_change c i j 0 t s
       = (Return tt,
          set_memid2locs
            (add_loc (memid c) (ijh2idx i j 0) (memid2locs s))
            (store_cell i j idx (Z.b2z (is_obstacle c)) t
               (after (maybe_add_memid (memid c)) s))).
Proof.
  intros Hg Hi Hj.
  destruct (maybe_add_memid_total (memid c) s) as (idx & Hadd & Hidx & Hmaps & Hsz & Hlocs).
  exists idx. split; [assumption|].
  set (s1 := after (maybe_add_memid (memid c)) s) in *.
  assert (Hg1 : grid_ok n s1) by (eapply grid_ok_frame; eauto).
  destruct Hg1 as (sl1 & Hh1 & Hok1 & _).
  unfold store_change.
  unfold bind at 1. rewrite Hadd.
  unfold bind at 1. unfold get at 1. rewrite Hidx.
  change (default idx (Some idx)) with idx.
  rewrite (store3_eq s1 n i j idx _ t sl1) by assumption.
  unfold bind, modify. f_equal.
  rewrite memid2locs_store_cell, Hlocs. unfold add_loc.
  destruct (locs_truthy (memid2locs s !! memid c)).
  - rewrite memid2locs_store_cell, Hlocs. unfold store_cell.
    destruct (maps s1 !! Some 0); reflexivity.
  - cbn [memid2locs set_memid2locs]. unfold store_cell.
    destruct (maps s1 !! Some 0); reflexivity.
Qed.

Lemma apply_change_inside (s : PlaceField) (n t : Z) (c : change) (x y z : Q) :
  grid_ok n s -> pos c = Some (x, y, z) -> is_delete c = false ->
  0 <= grid_index n (pixels_per_unit s) x < n ->
  0 <= grid_index n (pixels_per_unit s) z < n ->
  apply_change c t s
  = ((if is_move c then
        assert (negb (bool_decide (memid c = "NULL"))) ;;;
        delete_loc_by_memid (memid c) t true
      else ret tt) ;;;
     store_change c (grid_index n (pixels_per_unit s) x)
       (grid_index n (pixels_per_unit s) z) 0 t) s.
Proof.
  intros Hg Hpos Hdel Hi Hj.
  pose proof Hg as (sl & Hh & Hok & Hsz & Hn).
  unfold apply_change. rewrite Hpos. unfold y2slice.
  unfold bind at 1. rewrite (real2map_eq s n x z Hg).
  unfold bind at 1. unfold get at 1. cbn [fst snd]. rewrite Hsz.
  rewrite (overshoot_inside n _ _ Hi Hj).
  unfold bind at 1. unfold ret at 1.
  unfold bind at 1. rewrite (real2map_eq s n x z Hg).
  unfold bind at 1. unfold get at 1. rewrite Hsz.
  rewrite (overshoot_inside n _ _ Hi Hj). rewrite Hdel.
  reflexivity.
Qed.

Lemma update_map_single (c : change) (t : Z) (s : PlaceField) :
  update_map [c] t s
  = match apply_change c t s with
    | (Return _, s') => (Return tt, s')
    | (Raise e, s') => (Raise e, s')
    end.
Proof. reflexivity. Qed.

Lemma cell_owner_eq (s : PlaceField) (n i j vm vo vu : Z) :
  grid_ok n s -> 0 <= i < n -> 0 <= j < n -> cell s i j = Some (vm, vo, vu) ->
  fst (cell_owner 0 i j s) = list_getitem (index2memid s) vm.
Proof.
  intros (sl & Hh & (_ & _ & Hm) & _) Hi Hj Hc.
  unfold cell in Hc. rewrite Hh in Hc. injection Hc as Hvm _ _.
  unfold cell_owner, cell_get, bind, maps_getitem, lift, ndarray_get, get.
  rewrite Hh. cbn [get_layer]. rewrite Hm, !norm_index_in by assumption.
  rewrite Hvm. destruct (list_getitem (index2memid s) vm); reflexivity.
Qed.

Lemma add_loc_fresh (memid k : string) (locs : gmap string (list string)) :
  add_loc memid k (delete memid locs) !! memid = Some [k].
Proof.
  unfold add_loc. rewrite lookup_delete_eq. cbn [locs_truthy].
  rewrite lookup_alter_eq, lookup_insert_eq. reflexivity.
Qed.

Lemma add_loc_none (memid k : string) (locs : gmap string (list string)) :
  locs !! memid = None -> add_loc memid k locs !! memid = Some [k].
Proof.
  intros H. unfold add_loc. rewrite H. cbn [locs_truthy].
  rewrite lookup_alter_eq, lookup_insert_eq. reflexivity.
Qed.

Lemma pair_neq_eqb (x y i j : Z) : (x, y) <> (i, j) -> (x =? i) && (y =? j) = false.
Proof.
  intros H. destruct (Z.eqb_spec x i), (Z.eqb_spec y j); try reflexivity.
  subst. congruence.
Qed.


(** A move of an identity with two cells or more, and with none, on any
    instance whose slice 0 is a grid. *)
Lemma move_record_on_grid
  (s : PlaceField) (n t : Z) (c : change) (x y z : Q) (i j : Z) :
  grid_ok n s ->
  pos c = Some (x, y, z) -> is_move c = true -> is_delete c = false ->
  memid c <> "" -> memid c <> "NULL" ->
  grid_index n (pixels_per_unit s) x = i -> grid_index n (pixels_per_unit s) z = j ->
  0 <= i < n -> 0 <= j < n ->
  (forall i1 j1 i2 j2 rest,
      memid2locs s !! memid c = Some (ijh2idx i1 j1 0 :: ijh2idx i2 j2 0 :: rest) ->
      0 <= i1 < n -> 0 <= j1 < n -> 0 <= i2 < n -> 0 <= j2 < n ->
      fst (update_map [c] t s) = Raise (Exception move_error))
  /\ (memid2locs s !! memid c = None ->
      exists s' idx,
        update_map [c] t s = (Return tt, s')
        /\ memid2index s' !! memid c = Some idx
        /\ cell s' i j = Some (idx, Z.b2z (is_obstacle c), t)
        /\ memid2locs s' !! memid c = Some [ijh2idx i j 0]).
Proof.
  intros Hg Hpos Hmove Hdel Hne Hnull Ei Ej Hi Hj.
  assert (Hstep : update_map [c] t s
    = match (delete_loc_by_memid (memid c) t true ;;; store_change c i j 0 t) s with
      | (Return _, s') => (Return tt, s')
      | (Raise e, s') => (Raise e, s')
      end).
  { rewrite update_map_single.
    rewrite (apply_change_inside s n t c x y z Hg Hpos Hdel) by (rewrite ?Ei, ?Ej; assumption).
    rewrite Ei, Ej, Hmove.
    unfold bind at 1. unfold bind at 1.
    rewrite bool_decide_eq_false_2 by assumption. reflexivity. }
  rewrite Hstep. split.
  - intros i1 j1 i2 j2 rest Hlocs Hi1 Hj1 Hi2 Hj2. unfold bind.
    rewrite (delete_loc_by_memid_two s n i1 j1 i2 j2 t (memid c) rest) by assumption.
    reflexivity.
  - intros Hlocs. unfold bind.
    rewrite (delete_loc_by_memid_none s (memid c) t true) by assumption.
    set (s1 := set_memid2locs (delete (memid c) (memid2locs s)) s).
    assert (Hg1 : grid_ok n s1) by (eapply grid_ok_frame; [| | exact Hg]; reflexivity).
    destruct (store_change_eq s1 n i j t c Hg1 Hi Hj) as (idx & Hidx & Hst).
    rewrite Hst. eexists. exists idx. split; [reflexivity|].
    set (s2 := after (maybe_add_memid (memid c)) s1) in *.
    destruct (maybe_add_memid_total (memid c) s1) as (idx' & _ & _ & Hmaps & Hsz & _).
    fold s2 in Hmaps, Hsz.
    assert (Hg2 : grid_ok n s2) by (eapply grid_ok_frame; eauto).
    split; [|split].
    + cbn [memid2index set_memid2locs].
      rewrite (proj2 (registry_store_cell _ _ _ _ _ _)). exact Hidx.
    + change (cell (store_cell i j idx (Z.b2z (is_obstacle c)) t s2) i j
              = Some (idx, Z.b2z (is_obstacle c), t)).
      rewrite (cell_store_cell n) by assumption. now rewrite !Z.eqb_refl.
    + cbn [memid2locs set_memid2locs]. unfold s1. cbn [memid2locs set_memid2locs].
      apply add_loc_fresh.
Qed.

(** The deletion in move mode of an identity with two cells or more, on
    any instance whose slice 0 is a grid. *)
Lemma delete_two_cells_on_grid
  (s : PlaceField) (n t : Z) (memid : string) (i1 j1 i2 j2 : Z) (rest : list string) :
  grid_ok n s -> memid <> "" -> memid <> "NULL" ->
  memid2locs s !! memid = Some (ijh2idx i1 j1 0 :: ijh2idx i2 j2 0 :: rest) ->
  NoDup (ijh2idx i1 j1 0 :: ijh2idx i2 j2 0 :: rest) ->
  0 <= i1 < n -> 0 <= j1 < n -> 0 <= i2 < n -> 0 <= j2 < n ->
  exists s',
    delete_loc_by_memid memid t true s = (Raise (Exception move_error), s')
    /\ (i1, j1) <> (i2, j2)
    /\ cell s' i1 j1 = Some (0, 0, t)
    /\ cell s' i2 j2 = Some (0, 0, t)
    /\ (forall x y, (x, y) <> (i1, j1) -> (x, y) <> (i2, j2) ->
        cell s' x y = cell s x y)
    /\ memid2locs s' = memid2locs s.
Proof.
  intros Hg Hne Hnull Hlocs Hnd Hi1 Hj1 Hi2 Hj2.
  rewrite (delete_loc_by_memid_two s n i1 j1 i2 j2 t memid rest) by assumption.
  eexists. split; [reflexivity|].
  assert (Hg1 : grid_ok n (store_cell i1 j1 0 0 t s)) by now apply grid_ok_store_cell.
  assert (Hdiff : (i1, j1) <> (i2, j2)).
  { intros [= -> ->]. apply NoDup_cons in Hnd as [Hnotin _].
    apply Hnotin. left. }
  split; [assumption|]. split; [|split; [|split]].
  - rewrite (cell_store_cell n) by assumption.
    rewrite (pair_neq_eqb _ _ _ _ Hdiff).
    rewrite (cell_store_cell n) by assumption. now rewrite !Z.eqb_refl.
  - rewrite (cell_store_cell n) by assumption. now rewrite !Z.eqb_refl.
  - intros x y H1 H2.
    rewrite (cell_store_cell n), (pair_neq_eqb _ _ _ _ H2) by assumption.
    now rewrite (cell_store_cell n), (pair_neq_eqb _ _ _ _ H1) by assumption.
  - now rewrite !memid2locs_store_cell.
Qed.

(** ** Positions outside the grid, in general *)

(** [extend_map] called on a slice other than 0 leaves slice 0 alone. *)
Lemma extend_map_other_slice (sv : Z) (s : PlaceField) :
  sv <> 0 -> same_grid s (after (extend_map (Some sv) 1) s).
Proof.
  intros Hsv.
  assert (Hkey : key_truthy (Some sv) = true).
  { cbn [key_truthy]. destruct (Z.eqb_spec sv 0); [contradiction | reflexivity]. }
  unfold extend_map. rewrite Hkey. cbn [negb andb].
  unfold fill_values. cbn [pad_layers].
  unfold after, bind, assert, get, maps_getitem, modify, lift, ret.
  cbn [Z.leb Z.compare].
  repeat (case_match; simplify_eq; cbn [snd fst maps set_maps] in * );
    unfold same_grid; cbn [maps set_maps map_size pixels_per_unit memid2locs
                            index2memid memid2index snd];
    rewrite ?lookup_insert_ne by congruence; tauto.
Qed.

Lemma grid_ok_same_grid (n : Z) (s s' : PlaceField) :
  same_grid s s' -> grid_ok n s -> grid_ok n s'.
Proof.
  intros (Hm & Hs & _) (sl & Hh & Hok & Hsz & Hn).
  exists sl. rewrite Hm, Hs. tauto.
Qed.

(** A record whose position falls outside slice 0 is never applied, and
    slice 0 never grows: the call [self.extend_map(s)] works on slice [s]. *)
Lemma out_of_bounds_record_dropped
  (s : PlaceField) (n t : Z) (c : change) (x y z : Q) :
  grid_ok n s -> pos c = Some (x, y, z) ->
  ~ (0 <= grid_index n (pixels_per_unit s) x < n
     /\ 0 <= grid_index n (pixels_per_unit s) z < n) ->
  same_grid s (after (update_map [c] t) s).
Proof.
  intros Hg Hpos Hout.
  pose proof Hg as (sl & Hh & Hok & Hsz & Hn).
  set (i := grid_index n (pixels_per_unit s) x) in *.
  set (j := grid_index n (pixels_per_unit s) z) in *.
  assert (Hsv : overshoot n i j <> 0).
  { pose proof (overshoot_outside n i j Hout) as H. apply Z.ltb_lt in H. lia. }
  pose proof (extend_map_other_slice (overshoot n i j) s Hsv) as Hsame.
  unfold after. rewrite update_map_single.
  unfold apply_change. rewrite Hpos. unfold y2slice.
  unfold bind at 1. rewrite (real2map_eq s n x z Hg). fold i j.
  unfold bind at 1. unfold get at 1. cbn [fst snd]. rewrite Hsz.
  rewrite (overshoot_outside n i j Hout).
  unfold bind at 1. unfold bind at 1.
  unfold after in Hsame.
  destruct (extend_map (Some (overshoot n i j)) 1 s) as [[r|e] s1]; cbn [snd] in *;
    [|exact Hsame].
  unfold ret at 1.
  pose proof (grid_ok_same_grid n s s1 Hsame Hg) as Hg1.
  destruct Hsame as (Hm & Hs & Hp & Hrest).
  unfold bind at 1. rewrite (real2map_eq s1 n x z Hg1). rewrite Hp. fold i j.
  unfold bind at 1. unfold get at 1. rewrite Hs, Hsz.
  rewrite (overshoot_outside n i j Hout).
  cbn [ret snd]. unfold same_grid. tauto.
Qed.

(** ** What holds of every instance *)

Lemma cells_changed_refl (s : PlaceField) : cells_changed s s.
Proof. unfold cells_changed. tauto. Qed.

Lemma cells_changed_trans (s1 s2 s3 : PlaceField) :
  cells_changed s1 s2 -> cells_changed s2 s3 -> cells_changed s1 s3.
Proof.
  intros (H1 & H2 & H3 & H4) (G1 & G2 & G3 & G4). unfold cells_changed.
  rewrite G2, G3, G4. auto.
Qed.

Lemma cells_changed_store_cell (i j vm vo vu : Z) (s : PlaceField) :
  cells_changed s (store_cell i j vm vo vu s).
Proof.
  split; [intros n; apply grid_ok_store_cell|].
  split; [apply memid2locs_store_cell | apply registry_store_cell].
Qed.

(** Stores into cells keep an instance well formed. *)
Lemma wf_cells_changed (s s' : PlaceField) : wf s -> cells_changed s s' -> wf s'.
Proof.
  intros [Hg Hk Hp Hr Hn] (H1 & H2 & H3 & H4).
  split; unfold registry_ok in *; rewrite ?H2, ?H3, ?H4; auto.
Qed.

Lemma key_ok_decode (k : string) :
  key_ok k -> exists i j, k = ijh2idx i j 0 /\ 0 <= i < GRID_SIDE /\ 0 <= j < GRID_SIDE
                          /\ idx2ijh k = Return (i, j, 0).
Proof.
  intros (i & j & -> & Hi & Hj). exists i, j. repeat split; try lia.
  apply decode_encode; unfold BIG_I, BIG_J, MAX_MAP_SIZE, GRID_SIDE, MAP_INIT_SIZE in *; lia.
Qed.

(** The loop of [delete_loc_by_memid] over keys of cells of slice 0 only
    changes cells, and runs to its end unless [is_move] is set. *)
Lemma delete_loop_valid (ks : list string) (t : Z) (is_move : bool) (count : Z)
  (s : PlaceField) :
  grid_ok GRID_SIDE s -> Forall key_ok ks ->
  exists r s', delete_loop ks t is_move count s = (r, s')
               /\ cells_changed s s'
               /\ (is_move = false -> r = Return tt).
Proof.
  intros Hg Hks. revert s count Hg.
  induction Hks as [|k ks Hk Hks IH]; intros s count Hg.
  - exists (Return tt), s. cbn. split; [reflexivity|]. split; [apply cells_changed_refl | auto].
  - destruct (key_ok_decode k Hk) as (i & j & -> & Hi & Hj & Hdec).
    pose proof Hg as (sl & Hh & Hok & _).
    cbn [delete_loop]. unfold bind at 1. unfold lift at 1. rewrite Hdec.
    rewrite (store3_eq s GRID_SIDE i j 0 0 t sl) by assumption.
    pose proof (cells_changed_store_cell i j 0 0 t s) as Hcc.
    destruct (is_move && (1 <? count + 1)) eqn:Hraise.
    + eexists _, _. split; [reflexivity|]. split; [exact Hcc|].
      intros ->. discriminate.
    + destruct (IH (store_cell i j 0 0 t s) (count + 1)) as (r & s' & E & Hcc' & Hr).
      { now apply grid_ok_store_cell. }
      exists r, s'. split; [exact E|]. split; [|exact Hr].
      eapply cells_changed_trans; eauto.
Qed.

Lemma wf_set_memid2locs (L : gmap string (list string)) (s : PlaceField) :
  wf s ->
  (forall X ks, L !! X = Some ks ->
     NoDup ks /\ Forall key_ok ks /\ is_Some (memid2index s !! X)) ->
  wf (set_memid2locs L s).
Proof.
  intros [Hg Hk Hp Hr Hn] HL. split; cbn [memid2locs memid2index set_memid2locs].
  - eapply grid_ok_frame; [| | exact Hg]; reflexivity.
  - intros X ks H. destruct (HL X ks H) as (? & ? & ?). auto.
  - intros X ks H. destruct (HL X ks H) as (? & ? & ?). auto.
  - exact Hr.
  - exact Hn.
Qed.

Lemma wf_delete_locs (memid : string) (s : PlaceField) :
  wf s -> wf (set_memid2locs (delete memid (memid2locs s)) s).
Proof.
  intros Hwf. apply wf_set_memid2locs; [assumption|].
  intros X ks H. apply lookup_delete_Some in H as [_ H].
  destruct (wf_keys s Hwf X ks H). split; [|split]; auto.
  exact (wf_placed s Hwf X ks H).
Qed.

Lemma wf_delete_loc_by_memid (memid : string) (t : Z) (is_move : bool) (s : PlaceField) :
  wf s -> wf (after (delete_loc_by_memid memid t is_move) s).
Proof.
  intros Hwf. unfold after, delete_loc_by_memid.
  unfold bind at 1. destruct (bool_decide (memid = "")); cbn [negb assert raise ret snd];
    [assumption|].
  unfold bind at 1. destruct (bool_decide (memid = "NULL")); cbn [negb assert raise ret snd];
    [assumption|].
  unfold bind at 1. unfold get at 1.
  assert (Hks : Forall key_ok (default [] (memid2locs s !! memid))).
  { destruct (memid2locs s !! memid) as [ks|] eqn:E; cbn; [|constructor].
    apply (wf_keys s Hwf memid ks E). }
  destruct (delete_loop_valid _ t is_move 0 s (wf_grid s Hwf) Hks) as (r & s' & E & Hcc & _).
  unfold bind. rewrite E.
  pose proof (wf_cells_changed s s' Hwf Hcc) as Hwf'.
  destruct r; cbn [snd modify]; [|assumption].
  now apply wf_delete_locs.
Qed.

Lemma dict_pop_ok (k : string) (ks : list string) :
  NoDup ks -> Forall key_ok ks ->
  NoDup (dict_pop k ks) /\ Forall key_ok (dict_pop k ks).
Proof.
  intros Hnd Hf. unfold dict_pop. split; [now apply NoDup_filter|].
  apply Forall_forall. intros x Hx. apply list_elem_of_filter in Hx as [_ Hx].
  eapply Forall_forall in Hf; eauto.
Qed.

Lemma wf_maybe_delete_loc (i j t : Z) (memid : string) (s : PlaceField) :
  wf s -> 0 <= i < GRID_SIDE -> 0 <= j < GRID_SIDE ->
  wf (after (maybe_delete_loc i j 0 t memid) s).
Proof.
  intros Hwf Hi Hj. pose proof (wf_grid s Hwf) as Hg.
  pose proof Hg as (sl & Hh & Hok & _).
  unfold after, maybe_delete_loc.
  unfold bind at 1. destruct (cell_get (Some 0) Memids i j s) as [[v|e] s0] eqn:Eget.
  2:{ unfold cell_get, bind, maps_getitem, lift in Eget. rewrite Hh in Eget.
      destruct (ndarray_get _ _ _); simplify_eq. assumption. }
  assert (s0 = s) as ->.
  { unfold cell_get, bind, maps_getitem, lift in Eget. rewrite Hh in Eget.
    destruct (ndarray_get _ _ _); simplify_eq. reflexivity. }
  unfold bind at 1. unfold get at 1.
  unfold bind at 1. unfold lift at 1.
  destruct (list_getitem (index2memid s) v) as [current|e]; cbn [snd]; [|assumption].
  destruct (bool_decide (memid = "NULL") || bool_decide (current = memid));
    cbn [ret snd]; [|assumption].
  unfold bind at 1. unfold lift at 1. unfold dict_getitem.
  rewrite (wf_null s Hwf).
  rewrite (store3_eq s GRID_SIDE i j 0 0 t sl) by assumption.
  set (s1 := store_cell i j 0 0 t s).
  assert (Hwf1 : wf s1).
  { eapply wf_cells_changed; [exact Hwf | apply cells_changed_store_cell]. }
  unfold bind at 1. unfold get at 1.
  destruct (locs_truthy (memid2locs s1 !! memid)); cbn [ret snd]; [|assumption].
  unfold bind at 1. unfold modify at 1.
  set (s2 := set_memid2locs _ s1).
  assert (Hwf2 : wf s2).
  { apply wf_set_memid2locs; [assumption|]. intros X ks H.
    destruct (decide (X = memid)) as [->|Hne].
    - rewrite lookup_alter_eq in H.
      destruct (memid2locs s1 !! memid) as [ks0|] eqn:E0; cbn in H; simplify_eq.
      destruct (wf_keys s1 Hwf1 memid ks0 E0) as [Hnd Hf].
      destruct (dict_pop_ok (ijh2idx i j 0) ks0 Hnd Hf).
      split; [|split]; auto.
      exact (wf_placed s1 Hwf1 memid ks0 E0).
    - rewrite lookup_alter_ne in H by congruence.
      destruct (wf_keys s1 Hwf1 X ks H). split; [|split]; auto.
      exact (wf_placed s1 Hwf1 X ks H). }
  unfold bind at 1. unfold get at 1.
  destruct (memid2locs s2 !! memid) as [[|k ks]|]; cbn [ret snd modify]; try assumption.
  now apply wf_delete_locs.
Qed.

Lemma wf_maybe_add_memid (memid : string) (s : PlaceField) :
  wf s -> wf (after (maybe_add_memid memid) s).
Proof.
  intros Hwf.
  pose proof (mono_maybe_add_memid memid s) as [_ Hreg].
  destruct (maybe_add_memid_total memid s) as (idx & E & Hidx & Hm & Hs & Hl).
  set (s1 := after (maybe_add_memid memid) s) in *.
  split.
  - eapply grid_ok_frame; eauto. apply (wf_grid s Hwf).
  - rewrite Hl. apply (wf_keys s Hwf).
  - intros X ks H. rewrite Hl in H.
    destruct (wf_placed s Hwf X ks H) as [k Hk].
    exists k. eapply registry_stable; eauto.
    + apply (wf_registry s Hwf).
    + apply mono_maybe_add_memid.
  - apply Hreg, (wf_registry s Hwf).
  - eapply registry_stable; eauto.
    + apply (wf_registry s Hwf).
    + apply mono_maybe_add_memid.
    + apply (wf_null s Hwf).
Qed.

Lemma dict_add_ok (k : string) (ks : list string) :
  key_ok k -> NoDup ks -> Forall key_ok ks ->
  NoDup (dict_add k ks) /\ Forall key_ok (dict_add k ks).
Proof.
  intros Hk Hnd Hf. unfold dict_add. case_bool_decide as Hin; [auto|].
  split.
  - apply NoDup_app. split; [assumption|]. split; [|apply NoDup_singleton].
    intros x Hx Hx'. apply list_elem_of_singleton in Hx'. subst. contradiction.
  - apply Forall_app. split; [assumption|]. constructor; [assumption|constructor].
Qed.

Lemma wf_store_change (c : change) (i j t : Z) (s : PlaceField) :
  wf s -> 0 <= i < GRID_SIDE -> 0 <= j < GRID_SIDE ->
  wf (after (store_change c i j 0 t) s).
Proof.
  intros Hwf Hi Hj.
  destruct (store_change_eq s GRID_SIDE i j t c (wf_grid s Hwf) Hi Hj) as (idx & Hidx & E).
  unfold after at 1. rewrite E. cbn [snd].
  pose proof (wf_maybe_add_memid (memid c) s Hwf) as Hwf1.
  destruct (maybe_add_memid_total (memid c) s) as (? & _ & _ & _ & _ & Hl).
  set (s1 := after (maybe_add_memid (memid c)) s) in *.
  set (s2 := store_cell i j idx (Z.b2z (is_obstacle c)) t s1).
  assert (Hwf2 : wf s2).
  { eapply wf_cells_changed; [exact Hwf1 | apply cells_changed_store_cell]. }
  assert (Hidx2 : memid2index s2 !! memid c = Some idx).
  { unfold s2. now rewrite (proj2 (registry_store_cell _ _ _ _ _ _)). }
  assert (Hl2 : memid2locs s2 = memid2locs s).
  { unfold s2. now rewrite memid2locs_store_cell. }
  assert (Hkey : key_ok (ijh2idx i j 0)) by (exists i, j; auto).
  apply wf_set_memid2locs; [assumption|].
  intros X ks H. unfold add_loc in H.
  destruct (decide (X = memid c)) as [->|Hne].
  - rewrite lookup_alter_eq in H.
    destruct (locs_truthy (memid2locs s !! memid c)) eqn:Ht.
    + destruct (memid2locs s !! memid c) as [ks0|] eqn:E0; cbn in H; simplify_eq.
      rewrite <- Hl2 in E0.
      destruct (wf_keys s2 Hwf2 _ _ E0) as [Hnd Hf].
      destruct (dict_add_ok (ijh2idx i j 0) ks0 Hkey Hnd Hf).
      split; [|split]; eauto.
    + rewrite lookup_insert_eq in H. cbn in H. simplify_eq.
      destruct (dict_add_ok (ijh2idx i j 0) [] Hkey (NoDup_nil_2) (Forall_nil_2 _)).
      split; [|split]; eauto.
  - rewrite lookup_alter_ne in H by congruence.
    assert (H' : memid2locs s2 !! X = Some ks).
    { rewrite Hl2. destruct (locs_truthy (memid2locs s !! memid c)); [assumption|].
      now rewrite lookup_insert_ne in H by congruence. }
    destruct (wf_keys s2 Hwf2 X ks H'). split; [|split]; auto.
    exact (wf_placed s2 Hwf2 X ks H').
Qed.

Lemma apply_change_inside_delete (s : PlaceField) (n t : Z) (c : change) (x y z : Q) :
  grid_ok n s -> pos c = Some (x, y, z) -> is_delete c = true ->
  0 <= grid_index n (pixels_per_unit s) x < n ->
  0 <= grid_index n (pixels_per_unit s) z < n ->
  apply_change c t s
  = maybe_delete_loc (grid_index n (pixels_per_unit s) x)
      (grid_index n (pixels_per_unit s) z) 0 t (memid c) s.
Proof.
  intros Hg Hpos Hdel Hi Hj.
  pose proof Hg as (sl & Hh & Hok & Hsz & Hn).
  unfold apply_change. rewrite Hpos. unfold y2slice.
  unfold bind at 1. rewrite (real2map_eq s n x z Hg).
  unfold bind at 1. unfold get at 1. cbn [fst snd]. rewrite Hsz.
  rewrite (overshoot_inside n _ _ Hi Hj).
  unfold bind at 1. unfold ret at 1.
  unfold bind at 1. rewrite (real2map_eq s n x z Hg).
  unfold bind at 1. unfold get at 1. rewrite Hsz.
  rewrite (overshoot_inside n _ _ Hi Hj). rewrite Hdel.
  reflexivity.
Qed.

Lemma after_update_map_single (c : change) (t : Z) (s : PlaceField) :
  after (update_map [c] t) s = after (apply_change c t) s.
Proof.
  unfold after. rewrite update_map_single.
  destruct (apply_change c t s) as [[[]|e] s']; reflexivity.
Qed.

Lemma wf_same_grid (s s' : PlaceField) : wf s -> same_grid s s' -> wf s'.
Proof.
  intros [Hg Hk Hp Hr Hn] (H1 & H2 & H3 & H4 & H5 & H6).
  split; unfold registry_ok in *; rewrite ?H4, ?H5, ?H6; auto.
  eapply grid_ok_same_grid; [|exact Hg]. unfold same_grid. tauto.
Qed.

Lemma wf_bind {A B} (m : M A) (k : A -> M B) (s : PlaceField) :
  wf (after m s) -> (forall a s', wf s' -> wf (after (k a) s')) ->
  wf (after (bind m k) s).
Proof.
  intros Hm Hk. unfold after, bind in *.
  destruct (m s) as [[a|e] s1]; cbn [snd] in *; [now apply Hk | assumption].
Qed.

(** Every change record keeps the instance well formed, whether it is
    applied, dropped or raises. *)
Lemma wf_apply_change (c : change) (t : Z) (s : PlaceField) :
  wf s -> wf (after (apply_change c t) s).
Proof.
  intros Hwf. pose proof (wf_grid s Hwf) as Hg.
  destruct (pos c) as [[[x y] z]|] eqn:Hpos.
  - set (i := grid_index GRID_SIDE (pixels_per_unit s) x).
    set (j := grid_index GRID_SIDE (pixels_per_unit s) z).
    destruct (decide (0 <= i < GRID_SIDE /\ 0 <= j < GRID_SIDE)) as [[Hi Hj]|Hout].
    + destruct (is_delete c) eqn:Hdel.
      * unfold after.
        rewrite (apply_change_inside_delete s GRID_SIDE t c x y z Hg Hpos Hdel Hi Hj).
        now apply wf_maybe_delete_loc.
      * unfold after.
        rewrite (apply_change_inside s GRID_SIDE t c x y z Hg Hpos Hdel Hi Hj).
        apply wf_bind.
        -- destruct (is_move c); [|exact Hwf].
           apply wf_bind.
           ++ destruct (negb (bool_decide (memid c = "NULL"))); exact Hwf.
           ++ intros _ s' Hs'. now apply wf_delete_loc_by_memid.
        -- intros _ s' Hs'. now apply wf_store_change.
    + rewrite <- after_update_map_single.
      eapply wf_same_grid; [exact Hwf|].
      now apply (out_of_bounds_record_dropped s GRID_SIDE t c x y z).
  - unfold apply_change. rewrite Hpos.
    apply wf_bind; [destruct (is_delete c); exact Hwf|]. intros _ s1 Hs1.
    apply wf_bind; [destruct (bool_decide (memid c = "")); exact Hs1|]. intros _ s2 Hs2.
    now apply wf_delete_loc_by_memid.
Qed.

Lemma wf_update_map (changes : list change) (t : Z) (s : PlaceField) :
  wf s -> wf (after (update_map changes t) s).
Proof.
  revert s. induction changes as [|c rest IH]; intros s Hwf; cbn [update_map].
  - exact Hwf.
  - apply wf_bind; [now apply wf_apply_change|]. intros _ s' Hs'. now apply IH.
Qed.

(** The exploration tracker does not touch the grid, the reverse index or
    the registry. *)
Lemma explore_same_grid (c : call) (s : PlaceField) :
  match c with
  | CallGetClosest _ | CallUpdate _ | CallClearExamined | CallCanExamine _ => True
  | _ => False
  end -> same_grid s (run c s).
Proof.
  destruct c; try contradiction; intros _; cbn [run];
    unfold after, update, can_examine, clear_examined, get_closest, self_l1,
      bind, get, lift, modify, ret, raise;
    repeat (case_match; simplify_eq; cbn [snd fst] in * );
    unfold same_grid; cbn; tauto.
Qed.

(** A new instance: the registry holds the sentinel and the agent, slice 0
    has side [GRID_SIDE] and the reverse index is empty. *)
Lemma wf_fresh (self_memid : string) (ppu : Q) : wf (fresh self_memid ppu).
Proof.
  pose proof (mono_init self_memid ppu blank) as [_ Hreg].
  specialize (Hreg registry_ok_blank).
  unfold fresh, init in *. unfold after in Hreg.
  unfold bind at 1 in Hreg. unfold bind at 1.
  rewrite (maybe_add_memid_new "NULL" blank) in * by reflexivity.
  cbn [blank index2memid memid2index length app] in *.
  set (s0 := set_registry _ _ _) in *.
  unfold bind at 1 in Hreg. unfold bind at 1.
  destruct (maybe_add_memid_total self_memid s0) as (idx & E & Hidx & Hm & Hs & Hl).
  rewrite E in *.
  set (s1 := after (maybe_add_memid self_memid) s0) in *.
  assert (Hnull : memid2index s1 !! "NULL" = Some 0).
  { eapply registry_stable with (s := s0).
    - intros m k. unfold s0. cbn [memid2index index2memid set_registry].
      destruct (decide (m = "NULL")) as [->|Hne].
      + rewrite lookup_insert_eq. split.
        * intros [= <-]. split; [lia | reflexivity].
        * intros [Hk Hl']. destruct (Z.to_nat k) as [|[|?]] eqn:Ek; try discriminate.
          f_equal. lia.
      + rewrite lookup_insert_ne, lookup_empty by congruence. split; [discriminate|].
        intros [Hk Hl']. destruct (Z.to_nat k) as [|[|?]]; cbn in Hl'; congruence.
    - apply mono_maybe_add_memid.
    - unfold s0. cbn [memid2index set_registry]. apply lookup_insert_eq. }
  assert (Hmaps : maps s1 = ∅) by (rewrite Hm; reflexivity).
  assert (Hext : extend_map (Some 0) 1 s1
                 = (Return GRID_SIDE,
                    set_maps (<[Some 0 := pad_slice 1 init_slice]> ∅) s1)).
  { unfold extend_map. unfold bind at 1. cbn [assert Z.leb Z.compare ret].
    unfold bind at 1. unfold get at 1. rewrite Hmaps.
    cbn [key_truthy Z.eqb negb andb].
    change (size (∅ : gmap (option Z) hslice) =? 1)%nat with false.
    unfold bind at 1. rewrite lookup_empty. unfold modify at 1.
    set (s2 := set_maps (<[Some 0 := init_slice]> (maps s1)) s1).
    assert (Hh2 : maps s2 !! Some 0 = Some init_slice).
    { unfold s2. cbn [maps set_maps]. apply lookup_insert_eq. }
    unfold bind at 1. unfold maps_getitem at 1. rewrite Hh2.
    change (shape0 (map_ init_slice)) with MAP_INIT_SIZE.
    change (MAX_MAP_SIZE <? MAP_INIT_SIZE + 2 * 1) with false.
    unfold bind. rewrite (pad_layers_fill s2 (Some 0) init_slice MAP_INIT_SIZE 1 Hh2);
      [| repeat split | unfold MAP_INIT_SIZE; lia | lia].
    unfold s2. cbn [maps set_maps]. rewrite Hmaps, insert_insert_eq. reflexivity. }
  unfold bind at 1 in Hreg. unfold bind at 1. rewrite Hext in *.
  unfold bind, modify in *. cbn [snd] in *.
  split.
  - eexists. cbn [maps set_maps set_memid2locs set_params map_size].
    rewrite lookup_insert_eq. split; [reflexivity|].
    split; [repeat split|]. split; [reflexivity|].
    unfold GRID_SIDE, MAP_INIT_SIZE, MAX_MAP_SIZE. lia.
  - cbn [memid2locs set_memid2locs]. intros X ks H. rewrite lookup_empty in H. discriminate.
  - cbn [memid2locs set_memid2locs]. intros X ks H. rewrite lookup_empty in H. discriminate.
  - exact Hreg.
  - exact Hnull.
Qed.

(** Every instance a caller can build is well formed. *)
Lemma built_wf (s : PlaceField) : built s -> wf s.
Proof.
  induction 1 as [self_memid ppu | c s Hpub Hs IH].
  - apply wf_fresh.
  - destruct c; try discriminate; try (eapply wf_same_grid; [exact IH|];
      apply explore_same_grid; exact I).
    cbn [run]. now apply wf_update_map.
Qed.

(** ** Moves on the instances a caller can build *)

Lemma list_getitem_registry (s : PlaceField) (memid : string) (idx : Z) :
  registry_ok s -> memid2index s !! memid = Some idx ->
  list_getitem (index2memid s) idx = Return memid.
Proof.
  intros Hok H. apply Hok in H as [Hk Hl].
  pose proof (lookup_lt_Some _ _ _ Hl) as Hlt.
  unfold list_getitem. rewrite norm_index_in by lia. now rewrite Hl.
Qed.

Lemma wf_key_pair (s : PlaceField) (memid k1 k2 : string) (rest : list string) :
  wf s -> memid2locs s !! memid = Some (k1 :: k2 :: rest) ->
  exists i1 j1 i2 j2,
    k1 = ijh2idx i1 j1 0 /\ k2 = ijh2idx i2 j2 0
    /\ 0 <= i1 < GRID_SIDE /\ 0 <= j1 < GRID_SIDE
    /\ 0 <= i2 < GRID_SIDE /\ 0 <= j2 < GRID_SIDE
    /\ NoDup (k1 :: k2 :: rest).
Proof.
  intros Hwf H. destruct (wf_keys s Hwf _ _ H) as [Hnd Hf].
  apply Forall_cons in Hf as [(i1 & j1 & -> & ? & ?) Hf].
  apply Forall_cons in Hf as [(i2 & j2 & -> & ? & ?) _].
  exists i1, j1, i2, j2. tauto.
Qed.

Lemma built_one_cell : built one_cell.
Proof. unfold one_cell. apply built_run; [reflexivity | apply built_fresh]. Qed.

Lemma built_two_cells : built two_cells.
Proof. unfold two_cells. apply built_run; [reflexivity | apply built_fresh]. Qed.

Lemma grid_side_inside (i : Z) : 0 <= i < 1027 -> 0 <= i < GRID_SIDE.
Proof. unfold GRID_SIDE, MAP_INIT_SIZE. lia. Qed.


(** * Further properties *)

Lemma py_round_integer (q : Q) (k : Z) : Qeq q (inject_Z k) -> py_round q = k.
Proof.
  intros Hq. unfold py_round.
  assert (Hf : Qfloor q = k) by (rewrite Hq; apply Qfloor_Z).
  rewrite Hf.
  assert (Hz : Qeq (q - inject_Z k)%Q 0%Q) by (rewrite Hq; ring).
  rewrite Hz. reflexivity.
Qed.

(** X1. Two cells have the same key exactly when they are the same cell:
    for row and column indices in [0, MAX_MAP_SIZE) and any slices, the keys
    built by [ijh2idx] are equal if and only if the rows, the columns and
    the slices are. *)
Theorem ijh2idx_no_aliasing (i j h i' j' h' : Z) :
  0 <= i < MAX_MAP_SIZE -> 0 <= j < MAX_MAP_SIZE ->
  0 <= i' < MAX_MAP_SIZE -> 0 <= j' < MAX_MAP_SIZE ->
  ijh2idx i j h = ijh2idx i' j' h' <-> (i, j, h) = (i', j', h').
Proof.
  intros Hi Hj Hi' Hj'. split.
  - now apply ijh2idx_inj.
  - now intros [= -> -> ->].
Qed.

Lemma ijh2idx_no_aliasing_witness :
  ijh2idx 3 1026 0 = ijh2idx 3 1026 0 <-> (3, 1026, 0) = (3, 1026, 0).
Proof.
  apply (ijh2idx_no_aliasing 3 1026 0 3 1026 0); unfold MAX_MAP_SIZE; lia.
Defined.

(** X2. Every key that is the decimal text of an integer [n], negative
    ones included, decodes: [idx2ijh] returns a row and a column in
    [0, BIG_I) and [0, BIG_J) and a slice, and [ijh2idx] on them gives the
    same key back. *)
Theorem ijh2idx_idx2ijh (n : Z) :
  exists i j h,
    idx2ijh (py_str n) = Return (i, j, h)
    /\ 0 <= i < BIG_I /\ 0 <= j < BIG_J
    /\ ijh2idx i j h = py_str n.
Proof.
  unfold idx2ijh. rewrite py_int_str. cbn [obind].
  eexists _, _, _. split; [reflexivity|].
  unfold BIG_I, BIG_J, MAX_MAP_SIZE.
  pose proof (Z.mod_pos_bound n 4097 ltac:(lia)) as Hj.
  pose proof (Z.mod_pos_bound ((n - n mod 4097) / 4097) 4097 ltac:(lia)) as Hi.
  split; [exact Hi|]. split; [exact Hj|].
  unfold ijh2idx, BIG_I, BIG_J, MAX_MAP_SIZE. f_equal.
  set (j := n mod 4097) in *.
  set (q := (n - j) / 4097) in *.
  set (i := q mod 4097) in *.
  assert (Hn : n = 4097 * q + j).
  { unfold q, j. pose proof (Z.div_mod n 4097 ltac:(lia)) as H.
    replace ((n - n mod 4097) / 4097) with (n / 4097); [lia|].
    rewrite H at 2. replace (4097 * (n / 4097) + n mod 4097 - n mod 4097)
      with ((n / 4097) * 4097) by ring.
    now rewrite Z.div_mul by lia. }
  assert (Hq : q = 4097 * ((q - i) / 4097) + i).
  { unfold i. pose proof (Z.div_mod q 4097 ltac:(lia)) as H.
    replace ((q - q mod 4097) / 4097) with (q / 4097); [lia|].
    rewrite H at 2. replace (4097 * (q / 4097) + q mod 4097 - q mod 4097)
      with ((q / 4097) * 4097) by ring.
    now rewrite Z.div_mul by lia. }
  lia.
Qed.

(** X3. [real2map] undoes [map2real] (in exact arithmetic): when slice
    [h] exists and [map2real(i, j, h)] returns the point [(x, z)], then
    [real2map(x, z, h)] returns the cell [(i, j)], at every resolution for
    which the division is defined, and changes nothing. *)
Theorem real2map_map2real (s : PlaceField) (sl : hslice) (i j h : Z) (x z : Q) :
  maps s !! Some h = Some sl ->
  map2real i j h s = inr (x, z) ->
  real2map x z h s = (Return (i, j), s).
Proof.
  intros Hh. unfold map2real, py_truediv. rewrite Hh.
  destruct (Qeq_bool (pixels_per_unit s) 0) eqn:Ep; [discriminate|].
  intros [= <- <-].
  apply Qeq_bool_neq in Ep.
  unfold real2map, bind, maps_getitem, get, ret. rewrite Hh.
  rewrite (py_round_integer _ i), (py_round_integer _ j); [reflexivity| |].
  - unfold Z.sub. rewrite inject_Z_plus, inject_Z_opp. field. exact Ep.
  - unfold Z.sub. rewrite inject_Z_plus, inject_Z_opp. field. exact Ep.
Qed.

Lemma real2map_map2real_witness :
  real2map (inject_Z (3 - 1027 / 2) / (5 # 2)) (inject_Z (1000 - 1027 / 2) / (5 # 2)) 0
    (fresh "self" (5 # 2))
  = (Return (3, 1000), fresh "self" (5 # 2)).
Proof.
  assert (Hh : exists sl, maps (fresh "self" (5 # 2)) !! Some 0 = Some sl
                          /\ shape0 (map_ sl) = 1027).
  { eexists. split; [vm_compute; reflexivity | reflexivity]. }
  destruct Hh as (sl & Hh & Hn).
  apply (real2map_map2real _ sl 3 1000 0 _ _ Hh).
  unfold map2real. rewrite Hh, Hn. reflexivity.
Defined.

(** X4. [map2real] fails in two ways: with KeyError when the slice
    [h] does not exist, and with ZeroDivisionError when the slice exists
    and the resolution [pixels_per_unit] is 0. *)
Theorem map2real_errors (s : PlaceField) (i j h : Z) :
  (maps s !! Some h = None -> map2real i j h s = inl (Raised KeyError))
  /\ (is_Some (maps s !! Some h) -> Qeq (pixels_per_unit s) 0%Q ->
      map2real i j h s = inl ZeroDivisionError).
Proof.
  split.
  - intros H. unfold map2real. now rewrite H.
  - intros [sl H] Hp. unfold map2real, py_truediv. rewrite H.
    now rewrite (proj2 (Qeq_bool_iff _ _) Hp).
Qed.

Lemma map2real_errors_witness :
  map2real 3 4 7 (fresh "self" 1%Q) = inl (Raised KeyError)
  /\ map2real 3 4 0 (fresh "self" 0%Q) = inl ZeroDivisionError.
Proof.
  split.
  - apply (proj1 (map2real_errors (fresh "self" 1%Q) 3 4 7)).
    vm_compute. reflexivity.
  - apply (proj2 (map2real_errors (fresh "self" 0%Q) 3 4 0)).
    + eexists. vm_compute. reflexivity.
    + reflexivity.
Defined.

(** ** Growth: the cases around the padding *)

Lemma extend_map_negative (s : PlaceField) (h : option Z) (e : Z) :
  e < 0 -> extend_map h e s = (Raise AssertionError, s).
Proof.
  intros He. unfold extend_map, bind.
  destruct (Z.leb_spec 0 e); [lia | reflexivity].
Qed.

Lemma slice_assign_zero (a : ndarray) (n v : Z) :
  2 <= shape0 a -> 0 <= n -> slice_assign (full n v) 0 (- 0) a = Raise ValueError.
Proof.
  intros Ha Hn. unfold slice_assign. change (- 0) with 0. cbn [shape0 full].
  assert (Hb : slice_bound n 0 = 0).
  { unfold slice_bound. cbn [Z.ltb Z.compare]. lia. }
  rewrite Hb. change (Z.max 0 (0 - 0)) with 0.
  destruct (Z.eqb_spec (shape0 a) 0); [lia|].
  destruct (Z.eqb_spec (shape0 a) 1); [lia|]. reflexivity.
Qed.

Lemma extend_map_zero (s : PlaceField) (h : option Z) (sl : hslice) (w : Z) :
  maps s !! h = Some sl -> slice_ok w sl -> 2 <= w <= MAX_MAP_SIZE ->
  extend_map h 0 s = (Raise ValueError, s).
Proof.
  intros Hh (Hu & Hm & Hi) Hw. unfold extend_map.
  unfold bind at 1. cbn [Z.leb Z.compare assert ret].
  unfold bind at 1. unfold get at 1.
  rewrite (resolve_key s h sl Hh).
  unfold bind at 1. rewrite Hh. cbn [ret].
  unfold bind at 1. unfold maps_getitem at 1. rewrite Hh, Hm.
  destruct (Z.ltb_spec MAX_MAP_SIZE (w + 2 * 0)); [lia|].
  unfold fill_values. cbn [pad_layers].
  unfold bind, maps_getitem, lift. rewrite Hh. cbn [get_layer].
  replace (w + 2 * 0) with w by lia.
  change 0 with (- 0) at 1.
  rewrite slice_assign_zero by lia. reflexivity.
Qed.

(** X5. [extend_map] needs an extension of at least 1: on an existing slice
    of side between 2 and [MAX_MAP_SIZE], a negative extension fails the
    assertion and the extension 0 ends in the ValueError of numpy (the region
    [0:-0] is empty); in both cases the instance is left as it was. *)
Theorem extend_map_nonpositive_raises
  (s : PlaceField) (h : option Z) (sl : hslice) (w e : Z) :
  maps s !! h = Some sl -> slice_ok w sl -> 2 <= w <= MAX_MAP_SIZE -> e <= 0 ->
  extend_map h e s = (Raise (if e <? 0 then AssertionError else ValueError), s).
Proof.
  intros Hh Hok Hw He. destruct (Z.ltb_spec e 0).
  - now apply extend_map_negative.
  - assert (e = 0) as -> by lia. now apply (extend_map_zero s h sl w).
Qed.

Lemma extend_map_nonpositive_raises_witness :
  extend_map (Some 0) 0 (fresh "self" 1%Q) = (Raise ValueError, fresh "self" 1%Q)
  /\ extend_map (Some 0) (-2) (fresh "self" 1%Q)
     = (Raise AssertionError, fresh "self" 1%Q).
Proof.
  assert (Hh : exists sl, maps (fresh "self" 1%Q) !! Some 0 = Some sl /\ slice_ok 1027 sl).
  { eexists. split; [vm_compute; reflexivity | repeat split]. }
  destruct Hh as (sl & Hh & Hok).
  split.
  - apply (extend_map_nonpositive_raises _ _ sl 1027 0 Hh Hok);
      unfold MAX_MAP_SIZE; lia.
  - apply (extend_map_nonpositive_raises _ _ sl 1027 (-2) Hh Hok);
      unfold MAX_MAP_SIZE; lia.
Defined.

Lemma extend_map_absent (s : PlaceField) (h : option Z) (e : Z) :
  maps s !! h = None -> key_truthy h = true -> 1 <= e ->
  extend_map h e s =
    if MAX_MAP_SIZE <? MAP_INIT_SIZE + 2 * e
    then (Return (-1), set_maps (<[h := init_slice]> (maps s)) s)
    else (Return (MAP_INIT_SIZE + 2 * e),
          set_maps (<[h := pad_slice e init_slice]> (maps s)) s).
Proof.
  intros Hh Hk He. unfold extend_map.
  unfold bind at 1. destruct (Z.leb_spec 0 e); [|lia]. cbn [assert ret].
  unfold bind at 1. unfold get at 1. rewrite Hk. cbn [negb andb].
  unfold bind at 1. rewrite Hh. unfold modify at 1.
  set (s1 := set_maps (<[h := init_slice]> (maps s)) s).
  assert (Hh1 : maps s1 !! h = Some init_slice).
  { unfold s1. cbn [maps set_maps]. apply lookup_insert_eq. }
  unfold bind at 1. unfold maps_getitem at 1. rewrite Hh1.
  change (shape0 (map_ init_slice)) with MAP_INIT_SIZE.
  destruct (MAX_MAP_SIZE <? MAP_INIT_SIZE + 2 * e); [reflexivity|].
  unfold bind.
  rewrite (pad_layers_fill s1 h init_slice MAP_INIT_SIZE e Hh1);
    [| repeat split | unfold MAP_INIT_SIZE; lia | lia].
  unfold s1. cbn [maps set_maps]. now rewrite insert_insert_eq.
Qed.

Lemma extend_map_create (s : PlaceField) (h : option Z) (e : Z) :
  maps s !! h = None -> key_truthy h = true -> 0 <= e ->
  extend_map h e s = extend_map h e (set_maps (<[h := init_slice]> (maps s)) s).
Proof.
  intros Hh Hk He.
  set (s1 := set_maps (<[h := init_slice]> (maps s)) s).
  assert (Hh1 : maps s1 !! h = Some init_slice)
    by (unfold s1; cbn [maps set_maps]; apply lookup_insert_eq).
  set (rhs := extend_map h e s1).
  unfold extend_map.
  unfold bind at 1. destruct (Z.leb_spec 0 e); [|lia]. cbn [assert ret].
  unfold bind at 1. unfold get at 1. rewrite Hk. cbn [negb andb].
  unfold bind at 1. rewrite Hh. unfold modify at 1. fold s1.
  symmetry. unfold rhs, extend_map.
  unfold bind at 1. destruct (Z.leb_spec 0 e); [|lia]. cbn [assert ret].
  unfold bind at 1. unfold get at 1. rewrite Hk. cbn [negb andb].
  unfold bind at 1. rewrite Hh1. reflexivity.
Qed.

Lemma extend_map_absent_zero (s : PlaceField) (h : option Z) :
  maps s !! h = None -> key_truthy h = true ->
  extend_map h 0 s = (Raise ValueError, set_maps (<[h := init_slice]> (maps s)) s).
Proof.
  intros Hh Hk. rewrite (extend_map_create s h 0 Hh Hk) by lia.
  apply (extend_map_zero _ h init_slice MAP_INIT_SIZE).
  - cbn [maps set_maps]. apply lookup_insert_eq.
  - repeat split.
  - unfold MAP_INIT_SIZE, MAX_MAP_SIZE. lia.
Qed.

(** X6. [extend_map] on a slice that does not exist yet (under a key
    other than 0 and [None]). A negative extension fails the assertion
    before anything is created. Otherwise the slice is created first, with
    the fill values and at the initial side, and no other slice is touched:
    with extension 0 the call then ends in the ValueError of numpy and the
    slice stays at the initial side; with an extension of at least 1 the
    slice is padded and the new side returned, unless the new side would
    exceed [MAX_MAP_SIZE], in which case the call returns [-1] and the slice
    stays at the initial side. *)
Theorem extend_map_creates_slice (s : PlaceField) (h e : Z) :
  maps s !! Some h = None -> h <> 0 ->
  (e < 0 -> extend_map (Some h) e s = (Raise AssertionError, s))
  /\ (0 <= e ->
      exists sl,
        maps (after (extend_map (Some h) e) s) !! Some h = Some sl
        /\ (forall k, k <> Some h ->
            maps (after (extend_map (Some h) e) s) !! k = maps s !! k)
        /\ (forall m x y, at_ (get_layer m sl) x y = fill_value m)
        /\ if e =? 0
           then fst (extend_map (Some h) e s) = Raise ValueError
                /\ slice_ok MAP_INIT_SIZE sl
           else if MAX_MAP_SIZE <? MAP_INIT_SIZE + 2 * e
           then fst (extend_map (Some h) e s) = Return (-1)
                /\ slice_ok MAP_INIT_SIZE sl
           else fst (extend_map (Some h) e s) = Return (MAP_INIT_SIZE + 2 * e)
                /\ slice_ok (MAP_INIT_SIZE + 2 * e) sl).
Proof.
  intros Hh Hne.
  assert (Hk : key_truthy (Some h) = true).
  { cbn [key_truthy]. destruct (Z.eqb_spec h 0); [contradiction | reflexivity]. }
  split; [apply extend_map_negative|].
  intros He. unfold after.
  destruct (Z.eqb_spec e 0) as [->|Hnz].
  - rewrite (extend_map_absent_zero s (Some h) Hh Hk). cbn [fst snd maps set_maps].
    exists init_slice. rewrite lookup_insert_eq. split; [reflexivity|].
    split; [intros k Hkne; now rewrite lookup_insert_ne by congruence|].
    split; [intros [] x y; reflexivity|]. split; [reflexivity | repeat split].
  - rewrite (extend_map_absent s (Some h) e Hh Hk) by lia.
    destruct (MAX_MAP_SIZE <? MAP_INIT_SIZE + 2 * e); cbn [fst snd maps set_maps].
    + exists init_slice. rewrite lookup_insert_eq. split; [reflexivity|].
      split; [intros k Hkne; now rewrite lookup_insert_ne by congruence|].
      split; [intros [] x y; reflexivity|]. split; [reflexivity | repeat split].
    + exists (pad_slice e init_slice). rewrite lookup_insert_eq. split; [reflexivity|].
      split; [intros k Hkne; now rewrite lookup_insert_ne by congruence|].
      split.
      * intros [] x y; cbn [get_layer pad_slice pad at_ init_slice full fill_value
                            updated map_ memids shape0];
          destruct (_ && _); reflexivity.
      * split; [reflexivity | repeat split].
Qed.

Lemma extend_map_creates_slice_witness :
  (exists sl,
    maps (after (extend_map (Some 87) 1) (fresh "self" 1%Q)) !! Some 87 = Some sl
    /\ (forall k, k <> Some 87 ->
        maps (after (extend_map (Some 87) 1) (fresh "self" 1%Q)) !! k
        = maps (fresh "self" 1%Q) !! k)
    /\ (forall m x y, at_ (get_layer m sl) x y = fill_value m)
    /\ fst (extend_map (Some 87) 1 (fresh "self" 1%Q)) = Return 1027
    /\ slice_ok 1027 sl)
  /\ (exists sl,
    maps (after (extend_map (Some 87) 0) (fresh "self" 1%Q)) !! Some 87 = Some sl
    /\ fst (extend_map (Some 87) 0 (fresh "self" 1%Q)) = Raise ValueError
    /\ slice_ok 1025 sl)
  /\ extend_map (Some 87) (-1) (fresh "self" 1%Q)
     = (Raise AssertionError, fresh "self" 1%Q).
Proof.
  assert (Hh : maps (fresh "self" 1%Q) !! Some 87 = None) by (vm_compute; reflexivity).
  assert (Hne : 87 <> 0) by lia.
  split; [|split].
  - destruct (extend_map_creates_slice (fresh "self" 1%Q) 87 1 Hh Hne) as [_ H].
    destruct (H ltac:(lia)) as (sl & H1 & H2 & H3 & H4).
    exists sl. change (1 =? 0) with false in H4.
    change (MAX_MAP_SIZE <? MAP_INIT_SIZE + 2 * 1) with false in H4.
    destruct H4 as [H4 H5]. repeat split; try assumption; apply H5.
  - destruct (extend_map_creates_slice (fresh "self" 1%Q) 87 0 Hh Hne) as [_ H].
    destruct (H ltac:(lia)) as (sl & H1 & _ & _ & H4).
    exists sl. change (0 =? 0) with true in H4.
    destruct H4 as [H4 H5]. repeat split; try assumption; apply H5.
  - destruct (extend_map_creates_slice (fresh "self" 1%Q) 87 (-1) Hh Hne) as [H _].
    apply H. lia.
Defined.

Lemma resolve_false_key (s : PlaceField) (h k : option Z) (sl : hslice) :
  key_truthy h = false -> size (maps s) = 1%nat -> maps s !! k = Some sl ->
  (if negb (key_truthy h) && (size (maps s) =? 1)%nat
   then match head (map_to_list (maps s)) with
        | Some (k', _) => k'
        | None => h
        end
   else h) = k.
Proof.
  intros Hf Hs Hk. rewrite Hf, Hs. cbn [negb andb Nat.eqb].
  apply elem_of_map_to_list in Hk.
  rewrite <- length_map_to_list in Hs.
  destruct (map_to_list (maps s)) as [|[k' v] [|? ?]]; try discriminate.
  apply list_elem_of_singleton in Hk. cbn [head]. congruence.
Qed.

(** X7. Called with a false slice key ([None], the default, or 0) on
    an instance that has exactly one slice, [extend_map] works on that
    slice, whatever its key is. *)
Theorem extend_map_false_key_single_slice
  (s : PlaceField) (h k : option Z) (sl : hslice) (e : Z) :
  key_truthy h = false -> size (maps s) = 1%nat -> maps s !! k = Some sl ->
  extend_map h e s = extend_map k e s.
Proof.
  intros Hf Hs Hk. unfold extend_map, bind.
  destruct (assert (0 <=? e) s) as [[[]|ex] s0] eqn:Ea; [|reflexivity].
  assert (s0 = s) as ->.
  { unfold assert, ret, raise in Ea. destruct (0 <=? e); congruence. }
  unfold get.
  rewrite (resolve_false_key s h k sl Hf Hs Hk), (resolve_key s k sl Hk).
  reflexivity.
Qed.

Lemma extend_map_false_key_single_slice_witness :
  extend_map None 3 (fresh "self" 1%Q) = extend_map (Some 0) 3 (fresh "self" 1%Q).
Proof.
  assert (Hh : exists sl, maps (fresh "self" 1%Q) !! Some 0 = Some sl).
  { eexists. vm_compute. reflexivity. }
  destruct Hh as (sl & Hh).
  apply (extend_map_false_key_single_slice (fresh "self" 1%Q) None (Some 0) sl 3).
  - reflexivity.
  - vm_compute. reflexivity.
  - exact Hh.
Defined.

Lemma slice_ok_pad_slice (e w : Z) (sl : hslice) :
  slice_ok w sl -> slice_ok (w + 2 * e) (pad_slice e sl).
Proof.
  intros (Hu & Hm & Hi). unfold slice_ok, pad_slice, pad. cbn [shape0 updated map_ memids].
  rewrite Hu, Hm, Hi. tauto.
Qed.

Lemma padded_twice (a b w : Z) (sl : hslice) :
  slice_ok w sl -> 0 <= a -> 0 <= b ->
  padded (a + b) w sl (pad_slice b (pad_slice a sl)).
Proof.
  intros (Hu & Hm & Hi) Ha Hb m.
  assert (Hsh : shape0 (get_layer m sl) = w) by (destruct m; assumption).
  assert (Hpad : get_layer m (pad_slice b (pad_slice a sl))
                 = pad b (fill_value m) (pad a (fill_value m) (get_layer m sl)))
    by (destruct m; reflexivity).
  rewrite Hpad. unfold pad. cbn [shape0 at_]. rewrite Hsh.
  split; [lia|]. split.
  - intros x y Hx Hy. unfold in_range.
    destruct (Z.leb_spec b (x + (a + b))); [|lia].
    destruct (Z.ltb_spec (x + (a + b)) (b + (w + 2 * a))); [|lia].
    destruct (Z.leb_spec b (y + (a + b))); [|lia].
    destruct (Z.ltb_spec (y + (a + b)) (b + (w + 2 * a))); [|lia].
    destruct (Z.leb_spec a (x + (a + b) - b)); [|lia].
    destruct (Z.ltb_spec (x + (a + b) - b) (a + w)); [|lia].
    destruct (Z.leb_spec a (y + (a + b) - b)); [|lia].
    destruct (Z.ltb_spec (y + (a + b) - b) (a + w)); [|lia].
    cbn [andb]. f_equal; lia.
  - intros x y _ _ Hout. unfold in_range.
    destruct (Z.leb_spec b x), (Z.ltb_spec x (b + (w + 2 * a))),
      (Z.leb_spec b y), (Z.ltb_spec y (b + (w + 2 * a)));
      cbn [andb]; try reflexivity.
    destruct (Z.leb_spec a (x - b)), (Z.ltb_spec (x - b) (a + w)),
      (Z.leb_spec a (y - b)), (Z.ltb_spec (y - b) (a + w));
      cbn [andb]; try reflexivity.
    exfalso. apply Hout. lia.
Qed.

(** X8. Growth composes: on an existing slice of side [w], growing by
    [a] and then by [b] (both at least 1, the final side within
    [MAX_MAP_SIZE]) returns the side [w + 2 * (a + b)] and leaves the slice
    padded by [a + b] on every side, as one call with [a + b] does. *)
Theorem extend_map_twice
  (s : PlaceField) (h : option Z) (sl : hslice) (w a b : Z) :
  maps s !! h = Some sl -> slice_ok w sl -> 0 <= w -> 1 <= a -> 1 <= b ->
  w + 2 * (a + b) <= MAX_MAP_SIZE ->
  exists sl2 sl1,
    (extend_map h a ;;; extend_map h b) s
    = (Return (w + 2 * (a + b)), set_maps (<[h := sl2]> (maps s)) s)
    /\ padded (a + b) w sl sl2
    /\ extend_map h (a + b) s
       = (Return (w + 2 * (a + b)), set_maps (<[h := sl1]> (maps s)) s)
    /\ padded (a + b) w sl sl1.
Proof.
  intros Hh Hok Hw Ha Hb Hmax.
  exists (pad_slice b (pad_slice a sl)), (pad_slice (a + b) sl).
  split; [|split; [|split]].
  - unfold bind. rewrite (extend_map_existing s h sl w a Hh Hok Hw Ha).
    destruct (Z.ltb_spec MAX_MAP_SIZE (w + 2 * a)); [lia|].
    rewrite (extend_map_existing _ h (pad_slice a sl) (w + 2 * a) b);
      [| cbn [maps set_maps]; apply lookup_insert_eq
       | now apply slice_ok_pad_slice | lia | lia].
    destruct (Z.ltb_spec MAX_MAP_SIZE (w + 2 * a + 2 * b)); [lia|].
    cbn [maps set_maps]. rewrite insert_insert_eq.
    replace (w + 2 * a + 2 * b) with (w + 2 * (a + b)) by ring. reflexivity.
  - apply padded_twice; [assumption | lia | lia].
  - rewrite (extend_map_existing s h sl w (a + b) Hh Hok Hw) by lia.
    destruct (Z.ltb_spec MAX_MAP_SIZE (w + 2 * (a + b))); [lia | reflexivity].
  - now apply pad_slice_padded.
Qed.

Lemma extend_map_twice_witness :
  exists sl sl2 sl1,
    maps (fresh "self" 1%Q) !! Some 0 = Some sl
    /\ (extend_map (Some 0) 2 ;;; extend_map (Some 0) 3) (fresh "self" 1%Q)
       = (Return (1027 + 2 * (2 + 3)),
          set_maps (<[Some 0 := sl2]> (maps (fresh "self" 1%Q))) (fresh "self" 1%Q))
    /\ padded (2 + 3) 1027 sl sl2
    /\ extend_map (Some 0) (2 + 3) (fresh "self" 1%Q)
       = (Return (1027 + 2 * (2 + 3)),
          set_maps (<[Some 0 := sl1]> (maps (fresh "self" 1%Q))) (fresh "self" 1%Q))
    /\ padded (2 + 3) 1027 sl sl1.
Proof.
  eexists. 
  assert (Hh : maps (fresh "self" 1%Q) !! Some 0 = Some ?[sl])
    by (vm_compute; reflexivity).
  destruct (extend_map_twice (fresh "self" 1%Q) (Some 0) _ 1027 2 3 Hh)
    as (sl2 & sl1 & H); [repeat split | lia | lia | lia | unfold MAX_MAP_SIZE; lia |].
  exists sl2, sl1. split; [exact Hh | exact H].
Defined.

(** X9. The side of a slice never decreases and never exceeds
    [MAX_MAP_SIZE]: whatever the extension, and whether [extend_map] returns
    the new side, returns [-1] or raises, the slice afterwards is a square
    slice whose side is at least the old one and at most [MAX_MAP_SIZE]. *)
Theorem extend_map_side_monotone
  (s : PlaceField) (h : option Z) (sl : hslice) (w e : Z) :
  maps s !! h = Some sl -> slice_ok w sl -> 2 <= w <= MAX_MAP_SIZE ->
  exists sl' w',
    maps (after (extend_map h e) s) !! h = Some sl'
    /\ slice_ok w' sl' /\ w <= w' <= MAX_MAP_SIZE.
Proof.
  intros Hh Hok Hw. unfold after.
  destruct (Z.le_gt_cases e 0) as [He|He].
  - assert (Hr : exists ex, extend_map h e s = (Raise ex, s)).
    { destruct (Z.ltb_spec e 0).
      - eexists. now apply extend_map_negative.
      - assert (e = 0) as -> by lia. eexists. now apply (extend_map_zero s h sl w). }
    destruct Hr as [ex ->]. exists sl, w. cbn [snd]. split; [assumption|].
    split; [assumption | lia].
  - rewrite (extend_map_existing s h sl w e Hh Hok) by lia.
    destruct (Z.ltb_spec MAX_MAP_SIZE (w + 2 * e)); cbn [snd].
    + exists sl, w. split; [assumption|]. split; [assumption | lia].
    + exists (pad_slice e sl), (w + 2 * e). cbn [maps set_maps].
      rewrite lookup_insert_eq. split; [reflexivity|].
      split; [now apply slice_ok_pad_slice | lia].
Qed.

Lemma extend_map_side_monotone_witness :
  exists sl' w',
    maps (after (extend_map (Some 0) 2000) (fresh "self" 1%Q)) !! Some 0 = Some sl'
    /\ slice_ok w' sl' /\ 1027 <= w' <= MAX_MAP_SIZE.
Proof.
  assert (Hh : exists sl, maps (fresh "self" 1%Q) !! Some 0 = Some sl /\ slice_ok 1027 sl).
  { eexists. split; [vm_compute; reflexivity | repeat split]. }
  destruct Hh as (sl & Hh & Hok).
  apply (extend_map_side_monotone (fresh "self" 1%Q) (Some 0) sl 1027 2000 Hh Hok).
  unfold MAX_MAP_SIZE. lia.
Defined.

(** ** What a method leaves alone *)

Section Keeps.
Variable R : PlaceField -> PlaceField -> Prop.
Hypothesis R_refl : forall s, R s s.
Hypothesis R_trans : forall s1 s2 s3, R s1 s2 -> R s2 s3 -> R s1 s3.

Lemma keeps_ret {A} (a : A) : keeps R (ret a).
Proof. intros s. apply R_refl. Qed.

Lemma keeps_raise {A} (e : exn) : keeps R (@raise A e).
Proof. intros s. apply R_refl. Qed.

Lemma keeps_get : keeps R get.
Proof. intros s. apply R_refl. Qed.

Lemma keeps_lift {A} (o : outcome A) : keeps R (lift o).
Proof. intros s. apply R_refl. Qed.

Lemma keeps_assert (b : bool) : keeps R (assert b).
Proof. destruct b; [apply keeps_ret | apply keeps_raise]. Qed.

Lemma keeps_maps_getitem (h : option Z) : keeps R (maps_getitem h).
Proof.
  intros s. unfold after, maps_getitem. destruct (maps s !! h); apply R_refl.
Qed.

Lemma keeps_bind {A B} (m : M A) (k : A -> M B) :
  keeps R m -> (forall a, keeps R (k a)) -> keeps R (bind m k).
Proof.
  intros Hm Hk s. specialize (Hm s). unfold after, bind in *.
  destruct (m s) as [[a|e] s1]; cbn [snd] in *; [|assumption].
  eapply R_trans; [exact Hm | apply Hk].
Qed.

Lemma keeps_modify (f : PlaceField -> PlaceField) :
  (forall s, R s (f s)) -> keeps R (modify f).
Proof. intros Hf s. apply Hf. Qed.
End Keeps.

Lemma same_tracker_refl (s : PlaceField) : same_tracker s s.
Proof. unfold same_tracker. tauto. Qed.

Lemma same_tracker_trans (s1 s2 s3 : PlaceField) :
  same_tracker s1 s2 -> same_tracker s2 s3 -> same_tracker s1 s3.
Proof.
  unfold same_tracker. intros (A1 & A2 & A3 & A4 & A5) (B1 & B2 & B3 & B4 & B5).
  rewrite B1, B2, B3, B4, B5. tauto.
Qed.

Ltac tracker_modify :=
  apply keeps_modify; intros ?;
  repeat match goal with
         | |- context [if ?b then _ else _] => destruct b
         | |- context [match ?x with _ => _ end] => destruct x
         end;
  unfold same_tracker; cbn; tauto.

Ltac tracker_step :=
  match goal with
  | |- keeps _ (bind _ _) =>
      apply (keeps_bind _ same_tracker_trans); [|intros ?]
  | |- keeps _ (ret _) => apply (keeps_ret _ same_tracker_refl)
  | |- keeps _ (raise _) => apply (keeps_raise _ same_tracker_refl)
  | |- keeps _ get => apply (keeps_get _ same_tracker_refl)
  | |- keeps _ (lift _) => apply (keeps_lift _ same_tracker_refl)
  | |- keeps _ (assert _) => apply (keeps_assert _ same_tracker_refl)
  | |- keeps _ (maps_getitem _) => apply (keeps_maps_getitem _ same_tracker_refl)
  | |- keeps _ (modify _) => tracker_modify
  | |- keeps _ (if ?b then _ else _) => destruct b
  | |- keeps _ (match ?x with _ => _ end) => destruct x
  end.

Ltac tracker_auto := repeat tracker_step.

Lemma tracker_cell_get (h : option Z) (m : layer) (i j : Z) :
  keeps same_tracker (cell_get h m i j).
Proof. unfold cell_get. tracker_auto. Qed.

Lemma tracker_cell_set (h : option Z) (m : layer) (i j v : Z) :
  keeps same_tracker (cell_set h m i j v).
Proof. unfold cell_set. tracker_auto. Qed.

Lemma tracker_maybe_add_memid (memid : string) :
  keeps same_tracker (maybe_add_memid memid).
Proof. unfold maybe_add_memid. tracker_auto. Qed.

Lemma tracker_pad_layers (h : option Z) (new_w e : Z) (mvs : list (layer * Z)) :
  keeps same_tracker (pad_layers h new_w e mvs).
Proof.
  induction mvs as [|[m v] rest IH]; cbn [pad_layers]; tracker_auto. exact IH.
Qed.

Lemma tracker_extend_map (h : option Z) (e : Z) : keeps same_tracker (extend_map h e).
Proof. unfold extend_map. tracker_auto; apply tracker_pad_layers. Qed.

Lemma tracker_maybe_delete_loc (i j h t : Z) (memid : string) :
  keeps same_tracker (maybe_delete_loc i j h t memid).
Proof.
  unfold maybe_delete_loc.
  tracker_auto; try apply tracker_cell_get; try apply tracker_cell_set.
Qed.

Lemma tracker_delete_loop (idxs : list string) (t : Z) (is_move : bool) (count : Z) :
  keeps same_tracker (delete_loop idxs t is_move count).
Proof.
  revert count. induction idxs as [|idx rest IH]; intros count; cbn [delete_loop].
  - apply (keeps_ret _ same_tracker_refl).
  - tracker_auto; try apply tracker_cell_set; apply IH.
Qed.

Lemma tracker_delete_loc_by_memid (memid : string) (t : Z) (is_move : bool) :
  keeps same_tracker (delete_loc_by_memid memid t is_move).
Proof. unfold delete_loc_by_memid. tracker_auto. apply tracker_delete_loop. Qed.

Lemma tracker_real2map (x z : Q) (h : Z) : keeps same_tracker (real2map x z h).
Proof. unfold real2map. tracker_auto. Qed.

Lemma tracker_store_change (c : change) (i j h t : Z) :
  keeps same_tracker (store_change c i j h t).
Proof.
  unfold store_change.
  tracker_auto; first [apply tracker_maybe_add_memid | apply tracker_cell_set].
Qed.

Lemma tracker_apply_change (c : change) (t : Z) : keeps same_tracker (apply_change c t).
Proof.
  unfold apply_change.
  tracker_auto;
    first [ apply tracker_real2map | apply tracker_extend_map
          | apply tracker_maybe_delete_loc | apply tracker_delete_loc_by_memid
          | apply tracker_store_change ].
Qed.

Lemma tracker_update_map (changes : list change) (t : Z) :
  keeps same_tracker (update_map changes t).
Proof.
  induction changes as [|c rest IH]; cbn [update_map]; tracker_auto.
  - apply tracker_apply_change.
  - exact IH.
Qed.

(** X10. The grid and the exploration tracker are independent:
    [update_map] never changes the examined points, the visited ids, the
    last examined point, the resolution or [map_size], and [get_closest],
    [update], [can_examine] and [clear_examined] never change slice 0, the
    reverse index or the registry; both whether the call returns or
    raises. *)
Theorem grid_and_tracker_independent (s : PlaceField) :
  (forall changes t, same_tracker s (after (update_map changes t) s))
  /\ (forall p, same_grid s (after (get_closest p) s))
  /\ (forall tg, same_grid s (after (update tg) s))
  /\ (forall x, same_grid s (after (can_examine x) s))
  /\ same_grid s (after clear_examined s).
Proof.
  split; [intros changes t; apply tracker_update_map|].
  split; [intros p; apply (explore_same_grid (CallGetClosest p) s I)|].
  split; [intros tg; apply (explore_same_grid (CallUpdate tg) s I)|].
  split; [intros x; apply (explore_same_grid (CallCanExamine x) s I)|].
  apply (explore_same_grid CallClearExamined s I).
Qed.

(** ** Batches *)

Lemma update_map_app (cs1 cs2 : list change) (t : Z) (s : PlaceField) :
  update_map (cs1 ++ cs2) t s
  = match update_map cs1 t s with
    | (Return _, s1) => update_map cs2 t s1
    | (Raise e, s1) => (Raise e, s1)
    end.
Proof.
  revert s. induction cs1 as [|c cs1 IH]; intros s.
  - reflexivity.
  - cbn [app update_map]. unfold bind.
    destruct (apply_change c t s) as [[[]|e] s1]; [apply IH | reflexivity].
Qed.

(** X11. A batch is applied record by record with no rollback: when the
    first part of a batch returns, the rest is applied to the instance it
    leaves; when a record raises, the exception ends the whole batch, the
    records after it are never looked at and the effect of the records
    before it stays. *)
Theorem update_map_batch (cs1 cs2 : list change) (t : Z) (s : PlaceField) :
  (forall s1, update_map cs1 t s = (Return tt, s1) ->
     update_map (cs1 ++ cs2) t s = update_map cs2 t s1)
  /\ (forall e s1, update_map cs1 t s = (Raise e, s1) ->
     update_map (cs1 ++ cs2) t s = (Raise e, s1)).
Proof.
  split.
  - intros s1 H. now rewrite update_map_app, H.
  - intros e s1 H. now rewrite update_map_app, H.
Qed.

Lemma update_map_batch_witness :
  let s := fresh "self" 1%Q in
  let c1 := insert_at 2%Q 3%Q "rock" in
  let c2 := by_memid "rock" false false in
  update_map ([c1] ++ [c1; c2]) 7 s
  = update_map [c1; c2] 7 (after (update_map [c1] 7) s)
  /\ update_map ([c1; c2] ++ [c1]) 7 s
     = (Raise AssertionError, after (update_map [c1] 7) s).
Proof.
  intros s c1 c2. split.
  - apply (proj1 (update_map_batch [c1] [c1; c2] 7 s)).
    vm_compute. reflexivity.
  - apply (proj2 (update_map_batch [c1; c2] [c1] 7 s)).
    vm_compute. reflexivity.
Defined.

(** X12. A record without a position is a deletion by identity and
    nothing else: without [is_delete] it fails the assertion, with an empty
    [memid] it raises the exception of [update_map], and with the default
    [memid] ["NULL"] it fails the assertion of [delete_loc_by_memid]; in the
    three cases the instance is unchanged and the rest of the batch is not
    applied. *)
Theorem update_map_without_position
  (c : change) (rest : list change) (t : Z) (s : PlaceField) :
  pos c = None ->
  (is_delete c = false -> update_map (c :: rest) t s = (Raise AssertionError, s))
  /\ (is_delete c = true -> memid c = "" ->
      update_map (c :: rest) t s = (Raise (Exception missing_location_error), s))
  /\ (is_delete c = true -> memid c = "NULL" ->
      update_map (c :: rest) t s = (Raise AssertionError, s)).
Proof.
  intros Hpos. cbn [update_map]. unfold apply_change. rewrite Hpos.
  split; [|split].
  - intros ->. reflexivity.
  - intros -> ->. reflexivity.
  - intros -> ->. reflexivity.
Qed.

Lemma update_map_without_position_witness :
  update_map [by_memid "rock1" false false; insert_at 0%Q 0%Q "rock1"] 1
    (fresh "self" 1%Q)
  = (Raise AssertionError, fresh "self" 1%Q)
  /\ update_map [by_memid "" false true] 1 (fresh "self" 1%Q)
     = (Raise (Exception missing_location_error), fresh "self" 1%Q)
  /\ update_map [by_memid "NULL" false true] 1 (fresh "self" 1%Q)
     = (Raise AssertionError, fresh "self" 1%Q).
Proof.
  split; [|split].
  - destruct (update_map_without_position (by_memid "rock1" false false)
                [insert_at 0%Q 0%Q "rock1"] 1 (fresh "self" 1%Q) eq_refl) as [H _].
    apply H. reflexivity.
  - destruct (update_map_without_position (by_memid "" false true)
                [] 1 (fresh "self" 1%Q) eq_refl) as (_ & H & _).
    apply H; reflexivity.
  - destruct (update_map_without_position (by_memid "NULL" false true)
                [] 1 (fresh "self" 1%Q) eq_refl) as (_ & _ & H).
    apply H; reflexivity.
Defined.

(** ** Owners and the reverse index on the instances a caller can build *)

Lemma cell_same_slice (s s' : PlaceField) (x y : Z) :
  maps s' !! Some 0 = maps s !! Some 0 -> cell s' x y = cell s x y.
Proof. intros H. unfold cell. now rewrite H. Qed.

Lemma grid_side_big (i : Z) : 0 <= i < GRID_SIDE -> 0 <= i < MAX_MAP_SIZE.
Proof. unfold GRID_SIDE, MAP_INIT_SIZE, MAX_MAP_SIZE. lia. Qed.

Lemma key_in_cons (x y i j : Z) (ks : list string) :
  0 <= x < GRID_SIDE -> 0 <= y < GRID_SIDE ->
  0 <= i < GRID_SIDE -> 0 <= j < GRID_SIDE ->
  ijh2idx x y 0 ∈ ijh2idx i j 0 :: ks <-> (x, y) = (i, j) \/ ijh2idx x y 0 ∈ ks.
Proof.
  intros Hx Hy Hi Hj. rewrite elem_of_cons. split.
  - intros [E|H]; [left | now right].
    apply ijh2idx_inj in E; try (apply grid_side_big; assumption). congruence.
  - intros [[= -> ->]|H]; [now left | now right].
Qed.

Lemma slices_ok_store_cell (i j vm vo vu : Z) (s : PlaceField) :
  slices_ok s -> slices_ok (store_cell i j vm vo vu s).
Proof.
  intros Hs h sl. unfold store_cell.
  destruct (maps s !! Some 0) as [sl0|] eqn:E0; [|apply Hs].
  cbn [maps set_maps]. destruct (decide (h = Some 0)) as [->|Hne].
  - rewrite lookup_insert_eq. intros [= <-].
    destruct (Hs _ _ E0) as (w & Hw & Hok). exists w. split; [assumption|].
    exact Hok.
  - rewrite lookup_insert_ne by congruence. apply Hs.
Qed.

Lemma slices_ok_frame (s s' : PlaceField) :
  maps s' = maps s -> slices_ok s -> slices_ok s'.
Proof. intros E Hs h sl. rewrite E. apply Hs. Qed.

(** The effect of the loop of [delete_loc_by_memid] on the cells. *)
Lemma delete_loop_effect (ks : list string) (t : Z) (is_move : bool) (count : Z)
  (s : PlaceField) :
  grid_ok GRID_SIDE s -> Forall key_ok ks ->
  exists r s',
    delete_loop ks t is_move count s = (r, s')
    /\ cells_changed s s'
    /\ (slices_ok s -> slices_ok s')
    /\ (forall x y, cell s' x y = cell s x y \/ cell s' x y = Some (0, 0, t))
    /\ (r = Return tt ->
        forall x y, 0 <= x < GRID_SIDE -> 0 <= y < GRID_SIDE ->
          cell s' x y = if bool_decide (ijh2idx x y 0 ∈ ks)
                        then Some (0, 0, t) else cell s x y)
    /\ (is_move = false -> r = Return tt).
Proof.
  intros Hg Hks. revert s count Hg.
  induction Hks as [|k ks Hk Hks IH]; intros s count Hg.
  - exists (Return tt), s. cbn [delete_loop ret].
    split; [reflexivity|]. split; [apply cells_changed_refl|].
    split; [auto|]. split; [auto|]. split; [|auto].
    intros _ x y _ _. rewrite bool_decide_eq_false_2; [reflexivity|].
    apply not_elem_of_nil.
  - destruct (key_ok_decode k Hk) as (i & j & -> & Hi & Hj & Hdec).
    pose proof Hg as (sl & Hh & Hok & _).
    cbn [delete_loop]. unfold bind at 1. unfold lift at 1. rewrite Hdec.
    rewrite (store3_eq s GRID_SIDE i j 0 0 t sl) by assumption.
    pose proof (cells_changed_store_cell i j 0 0 t s) as Hcc.
    pose proof (cell_store_cell GRID_SIDE i j 0 0 t) as Hcell.
    destruct (is_move && (1 <? count + 1)) eqn:Hraise.
    + eexists _, _. split; [reflexivity|]. split; [exact Hcc|].
      split; [apply slices_ok_store_cell|].
      split; [|split; [discriminate|]].
      * intros x y. rewrite (Hcell x y s Hg).
        destruct ((x =? i) && (y =? j)); auto.
      * intros ->. discriminate.
    + destruct (IH (store_cell i j 0 0 t s) (count + 1)) as
        (r & s' & E & Hcc' & Hsl & Hany & Hall & Hr).
      { now apply grid_ok_store_cell. }
      exists r, s'. split; [exact E|].
      split; [eapply cells_changed_trans; eauto|].
      split; [intros H; apply Hsl; now apply slices_ok_store_cell|].
      split; [|split; [|exact Hr]].
      * intros x y. destruct (Hany x y) as [H|H]; [|now right].
        rewrite H, (Hcell x y s Hg). destruct ((x =? i) && (y =? j)); auto.
      * intros Hret x y Hx Hy. rewrite (Hall Hret x y Hx Hy).
        rewrite (Hcell x y s Hg).
        destruct (decide ((x, y) = (i, j))) as [[= -> ->]|Hne].
        -- rewrite !Z.eqb_refl. cbn [andb].
           rewrite (bool_decide_eq_true_2 (ijh2idx i j 0 ∈ ijh2idx i j 0 :: ks))
             by (left).
           destruct (bool_decide (ijh2idx i j 0 ∈ ks)); reflexivity.
        -- rewrite (pair_neq_eqb _ _ _ _ Hne).
           destruct (bool_decide (ijh2idx x y 0 ∈ ks)) eqn:Eb.
           ++ apply bool_decide_eq_true_1 in Eb.
              rewrite bool_decide_eq_true_2; [reflexivity | now right].
           ++ apply bool_decide_eq_false_1 in Eb.
              rewrite bool_decide_eq_false_2; [reflexivity|].
              rewrite key_in_cons by assumption. tauto.
Qed.

Lemma delete_loc_by_memid_all (s : PlaceField) (memid : string) (t : Z) :
  wf s -> memid <> "" -> memid <> "NULL" ->
  exists s1,
    delete_loc_by_memid memid t false s
    = (Return tt, set_memid2locs (delete memid (memid2locs s)) s1)
    /\ cells_changed s s1
    /\ (slices_ok s -> slices_ok s1)
    /\ (forall x y, 0 <= x < GRID_SIDE -> 0 <= y < GRID_SIDE ->
        cell s1 x y
        = if bool_decide (ijh2idx x y 0 ∈ default [] (memid2locs s !! memid))
          then Some (0, 0, t) else cell s x y).
Proof.
  intros Hwf Hne Hnull. unfold delete_loc_by_memid.
  rewrite delete_loc_by_memid_asserts by assumption.
  unfold bind at 1. unfold get at 1.
  assert (Hks : Forall key_ok (default [] (memid2locs s !! memid))).
  { destruct (memid2locs s !! memid) as [ks|] eqn:E; cbn; [|constructor].
    apply (wf_keys s Hwf memid ks E). }
  destruct (delete_loop_effect _ t false 0 s (wf_grid s Hwf) Hks)
    as (r & s1 & E & Hcc & Hsl & _ & Hall & Hr).
  specialize (Hr eq_refl). subst r.
  exists s1. unfold bind. rewrite E. unfold modify.
  destruct Hcc as (Hg & Hl & Hrest). rewrite Hl.
  split; [reflexivity|]. split; [unfold cells_changed; tauto|].
  split; [exact Hsl|]. now apply Hall.
Qed.

(** X13. On every instance a caller can build, a record without position
    that asks to delete a named identity returns normally: the identity is
    removed from the reverse index, every cell that was listed for it is
    cleared (sentinel owner, unoccupied, updated at [t]), every other cell
    and every other identity of the reverse index is as before, and the
    registry keeps the identity. *)
Theorem delete_by_identity (s : PlaceField) (t : Z) (c : change) :
  built s -> pos c = None -> is_delete c = true ->
  memid c <> "" -> memid c <> "NULL" ->
  exists s',
    update_map [c] t s = (Return tt, s')
    /\ memid2locs s' = delete (memid c) (memid2locs s)
    /\ (forall x y, 0 <= x < GRID_SIDE -> 0 <= y < GRID_SIDE ->
        cell s' x y
        = if bool_decide (ijh2idx x y 0 ∈ default [] (memid2locs s !! memid c))
          then Some (0, 0, t) else cell s x y)
    /\ index2memid s' = index2memid s
    /\ memid2index s' = memid2index s.
Proof.
  intros Hb Hpos Hdel Hne Hnull. pose proof (built_wf s Hb) as Hwf.
  destruct (delete_loc_by_memid_all s (memid c) t Hwf Hne Hnull)
    as (s1 & E & (Hg & Hl & Hr1 & Hr2) & _ & Hcells).
  rewrite update_map_single. unfold apply_change. rewrite Hpos, Hdel.
  unfold bind at 1. cbn [assert ret].
  unfold bind at 1. rewrite bool_decide_eq_false_2 by assumption. cbn [ret].
  rewrite E. eexists. split; [reflexivity|].
  cbn [memid2locs set_memid2locs index2memid memid2index].
  split; [reflexivity|]. split; [|tauto].
  intros x y Hx Hy.
  change (cell (set_memid2locs (delete (memid c) (memid2locs s)) s1) x y)
    with (cell s1 x y).
  now apply Hcells.
Qed.

Lemma delete_by_identity_witness :
  exists s',
    update_map [by_memid "rock1" false true] 2 two_cells = (Return tt, s')
    /\ memid2locs s' = delete "rock1" (memid2locs two_cells)
    /\ cell s' 513 513 = Some (0, 0, 2)
    /\ cell s' 514 513 = Some (0, 0, 2)
    /\ cell s' 515 513 = cell two_cells 515 513.
Proof.
  destruct (delete_by_identity two_cells 2 (by_memid "rock1" false true))
    as (s' & H1 & H2 & H3 & _);
    [exact built_two_cells | reflexivity | reflexivity | discriminate | discriminate |].
  exists s'. split; [exact H1|]. split; [exact H2|].
  assert (Hl : default [] (memid2locs two_cells !! memid (by_memid "rock1" false true))
               = [ijh2idx 513 513 0; ijh2idx 514 513 0]) by (vm_compute; reflexivity).
  rewrite Hl in H3.
  split; [|split].
  - rewrite (H3 513 513) by (apply grid_side_inside; lia).
    rewrite bool_decide_eq_true_2; [reflexivity | left].
  - rewrite (H3 514 513) by (apply grid_side_inside; lia).
    rewrite bool_decide_eq_true_2; [reflexivity | right; left].
  - rewrite (H3 515 513) by (apply grid_side_inside; lia).
    rewrite bool_decide_eq_false_2; [reflexivity|].
    vm_compute. intros H. 
    repeat (apply elem_of_cons in H as [H|H]; [discriminate|]).
    now apply not_elem_of_nil in H.
Defined.

(** ** Plain insertions *)

Lemma add_loc_lookup (memid k : string) (locs : gmap string (list string)) :
  add_loc memid k locs !! memid = Some (dict_add k (default [] (locs !! memid))).
Proof.
  unfold add_loc. rewrite lookup_alter_eq.
  destruct (locs !! memid) as [[|a l]|] eqn:E; cbn [locs_truthy].
  - now rewrite lookup_insert_eq.
  - now rewrite E.
  - now rewrite lookup_insert_eq.
Qed.

Lemma add_loc_lookup_ne (memid k Y : string) (locs : gmap string (list string)) :
  Y <> memid -> add_loc memid k locs !! Y = locs !! Y.
Proof.
  intros Hne. unfold add_loc. rewrite lookup_alter_ne by congruence.
  destruct (locs_truthy (locs !! memid)); [reflexivity|].
  now rewrite lookup_insert_ne by congruence.
Qed.

Lemma dict_add_in (k : string) (l : list string) : k ∈ dict_add k l.
Proof.
  unfold dict_add. case_bool_decide; [assumption|].
  apply elem_of_app. right. left.
Qed.

Lemma dict_add_keeps (k k' : string) (l : list string) : k' ∈ l -> k' ∈ dict_add k l.
Proof.
  intros H. unfold dict_add. case_bool_decide; [assumption|].
  apply elem_of_app. now left.
Qed.

Lemma dict_add_idem (k : string) (l : list string) :
  dict_add k (dict_add k l) = dict_add k l.
Proof.
  unfold dict_add at 1. rewrite bool_decide_eq_true_2; [reflexivity|].
  apply dict_add_in.
Qed.

(** The instance after a plain insertion inside the grid. *)
Lemma insert_spec (s : PlaceField) (t : Z) (c : change) (x y z : Q) (i j : Z) :
  wf s -> pos c = Some (x, y, z) -> is_delete c = false -> is_move c = false ->
  grid_index GRID_SIDE (pixels_per_unit s) x = i ->
  grid_index GRID_SIDE (pixels_per_unit s) z = j ->
  0 <= i < GRID_SIDE -> 0 <= j < GRID_SIDE ->
  exists idx,
    memid2index (after (maybe_add_memid (memid c)) s) !! memid c = Some idx
    /\ apply_change c t s
       = (Return tt,
          set_memid2locs (add_loc (memid c) (ijh2idx i j 0) (memid2locs s))
            (store_cell i j idx (Z.b2z (is_obstacle c)) t
               (after (maybe_add_memid (memid c)) s))).
Proof.
  intros Hwf Hpos Hdel Hmove Ei Ej Hi Hj.
  rewrite (apply_change_inside s GRID_SIDE t c x y z (wf_grid s Hwf) Hpos Hdel)
    by (rewrite ?Ei, ?Ej; assumption).
  rewrite Ei, Ej, Hmove. unfold bind at 1. unfold ret at 1.
  exact (store_change_eq s GRID_SIDE i j t c (wf_grid s Hwf) Hi Hj).
Qed.

(** X14. On every instance a caller can build, a plain record (neither a
    move nor a delete) with a position inside the grid returns normally:
    the identity is registered, the cell holds its index, the record's
    [is_obstacle] and the time [t], reading the owner of the cell gives the
    identity back, the key of the cell is in the reverse index of the
    identity after the keys it had, every other cell and every other
    identity is as before, and the registry only grew. *)
Theorem insert_then_lookup
  (s : PlaceField) (t : Z) (c : change) (x y z : Q) (i j : Z) :
  built s -> pos c = Some (x, y, z) -> is_delete c = false -> is_move c = false ->
  grid_index GRID_SIDE (pixels_per_unit s) x = i ->
  grid_index GRID_SIDE (pixels_per_unit s) z = j ->
  0 <= i < GRID_SIDE -> 0 <= j < GRID_SIDE ->
  exists s' idx,
    update_map [c] t s = (Return tt, s')
    /\ memid2index s' !! memid c = Some idx
    /\ cell s' i j = Some (idx, Z.b2z (is_obstacle c), t)
    /\ fst (cell_owner 0 i j s') = Return (memid c)
    /\ (forall x' y', (x', y') <> (i, j) -> cell s' x' y' = cell s x' y')
    /\ memid2locs s' !! memid c
       = Some (dict_add (ijh2idx i j 0) (default [] (memid2locs s !! memid c)))
    /\ (forall Y, Y <> memid c -> memid2locs s' !! Y = memid2locs s !! Y)
    /\ (forall Y k, memid2index s !! Y = Some k -> memid2index s' !! Y = Some k).
Proof.
  intros Hb Hpos Hdel Hmove Ei Ej Hi Hj. pose proof (built_wf s Hb) as Hwf.
  destruct (insert_spec s t c x y z i j Hwf Hpos Hdel Hmove Ei Ej Hi Hj)
    as (idx & Hidx & E).
  rewrite update_map_single, E.
  pose proof (wf_maybe_add_memid (memid c) s Hwf) as Hwf1.
  destruct (maybe_add_memid_total (memid c) s) as (? & _ & _ & Hm & Hsz & Hl).
  set (s1 := after (maybe_add_memid (memid c)) s) in *.
  pose proof (wf_grid s1 Hwf1) as Hg1.
  set (s2 := store_cell i j idx (Z.b2z (is_obstacle c)) t s1).
  assert (Hreg2 : index2memid s2 = index2memid s1 /\ memid2index s2 = memid2index s1)
    by apply registry_store_cell.
  eexists _, idx. split; [reflexivity|].
  cbn [memid2index memid2locs set_memid2locs]. fold s2.
  assert (Hcell : forall L x' y', cell (set_memid2locs L s2) x' y'
      = if (x' =? i) && (y' =? j) then Some (idx, Z.b2z (is_obstacle c), t)
        else cell s x' y').
  { intros L x' y'. change (cell (set_memid2locs L s2) x' y') with (cell s2 x' y').
    unfold s2. rewrite (cell_store_cell GRID_SIDE) by assumption.
    destruct ((x' =? i) && (y' =? j)); [reflexivity|].
    apply cell_same_slice. now rewrite Hm. }
  split; [now rewrite (proj2 Hreg2)|].
  split; [rewrite Hcell, !Z.eqb_refl; reflexivity|].
  split.
  - rewrite (cell_owner_eq _ GRID_SIDE i j idx (Z.b2z (is_obstacle c)) t);
      [ | eapply grid_ok_frame; [| | apply (grid_ok_store_cell _ i j idx
            (Z.b2z (is_obstacle c)) t s1 Hg1)]; reflexivity
        | assumption | assumption
        | rewrite Hcell, !Z.eqb_refl; reflexivity ].
    cbn [index2memid set_memid2locs]. rewrite (proj1 Hreg2).
    apply list_getitem_registry; [apply (wf_registry s1 Hwf1) | exact Hidx].
  - split; [intros x' y' Hne; now rewrite Hcell, (pair_neq_eqb _ _ _ _ Hne)|].
    split; [apply add_loc_lookup|].
    split; [intros Y Hne; now apply add_loc_lookup_ne|].
    intros Y k HY. rewrite (proj2 Hreg2).
    eapply registry_stable; eauto.
    + apply (wf_registry s Hwf).
    + apply mono_maybe_add_memid.
Qed.

Lemma insert_then_lookup_witness :
  exists s' idx,
    update_map [insert_at 2%Q 3%Q "rock2"] 2 one_cell = (Return tt, s')
    /\ memid2index s' !! "rock2" = Some idx
    /\ cell s' 515 516 = Some (idx, 1, 2)
    /\ fst (cell_owner 0 515 516 s') = Return "rock2"
    /\ memid2locs s' !! "rock2" = Some [ijh2idx 515 516 0]
    /\ memid2locs s' !! "rock1" = memid2locs one_cell !! "rock1".
Proof.
  destruct (insert_then_lookup one_cell 2 (insert_at 2%Q 3%Q "rock2")
              2%Q 0%Q 3%Q 515 516 built_one_cell)
    as (s' & idx & H1 & H2 & H3 & H4 & _ & H6 & H7 & _);
    [reflexivity | reflexivity | reflexivity
     | vm_compute; reflexivity | vm_compute; reflexivity
     | apply grid_side_inside; lia | apply grid_side_inside; lia |].
  exists s', idx. split; [exact H1|]. split; [exact H2|]. split; [exact H3|].
  split; [exact H4|].
  change (memid (insert_at 2%Q 3%Q "rock2")) with "rock2" in H6, H7.
  split.
  - rewrite H6.
    replace (memid2locs one_cell !! "rock2")
      with (@None (list string)) by (vm_compute; reflexivity).
    reflexivity.
  - apply H7. discriminate.
Defined.

(** ** Deletions at a position *)

Lemma set_memid2locs_id (s : PlaceField) : set_memid2locs (memid2locs s) s = s.
Proof. destruct s. reflexivity. Qed.

Lemma cell_get_eq (s : PlaceField) (n i j vm vo vu : Z) :
  grid_ok n s -> 0 <= i < n -> 0 <= j < n -> cell s i j = Some (vm, vo, vu) ->
  cell_get (Some 0) Memids i j s = (Return vm, s).
Proof.
  intros (sl & Hh & (_ & _ & Hm) & _) Hi Hj Hc.
  unfold cell in Hc. rewrite Hh in Hc. injection Hc as Hvm _ _.
  unfold cell_get, bind, maps_getitem, lift, ndarray_get.
  rewrite Hh. cbn [get_layer]. rewrite Hm, !norm_index_in by assumption.
  now rewrite Hvm.
Qed.

Lemma maybe_delete_loc_eq
  (s : PlaceField) (i j t vm vo vu : Z) (memid cur : string) :
  wf s -> 0 <= i < GRID_SIDE -> 0 <= j < GRID_SIDE ->
  cell s i j = Some (vm, vo, vu) ->
  list_getitem (index2memid s) vm = Return cur ->
  maybe_delete_loc i j 0 t memid s
  = (Return tt,
     if bool_decide (memid = "NULL") || bool_decide (cur = memid)
     then set_memid2locs (pop_loc memid (ijh2idx i j 0) (memid2locs s))
            (store_cell i j 0 0 t s)
     else s).
Proof.
  intros Hwf Hi Hj Hc Hcur. pose proof (wf_grid s Hwf) as Hg.
  pose proof Hg as (sl & Hh & Hok & _).
  unfold maybe_delete_loc.
  unfold bind at 1. rewrite (cell_get_eq s GRID_SIDE i j vm vo vu Hg Hi Hj Hc).
  unfold bind at 1. unfold get at 1.
  unfold bind at 1. unfold lift at 1. rewrite Hcur.
  destruct (bool_decide (memid = "NULL") || bool_decide (cur = memid));
    [|reflexivity].
  unfold bind at 1. unfold lift at 1. unfold dict_getitem.
  rewrite (wf_null s Hwf).
  rewrite (store3_eq s GRID_SIDE i j 0 0 t sl) by assumption.
  set (s1 := store_cell i j 0 0 t s).
  assert (Hl1 : memid2locs s1 = memid2locs s) by apply memid2locs_store_cell.
  unfold bind at 1. unfold get at 1. unfold pop_loc. rewrite Hl1.
  destruct (locs_truthy (memid2locs s !! memid)).
  - unfold bind at 1. unfold modify at 1.
    unfold bind at 1. unfold get at 1. cbn [memid2locs set_memid2locs].
    rewrite Hl1.
    destruct (alter (dict_pop (ijh2idx i j 0)) memid (memid2locs s) !! memid)
      as [[|k ks]|]; reflexivity.
  - cbn [ret]. f_equal. rewrite <- Hl1. symmetry. apply set_memid2locs_id.
Qed.

Lemma pop_loc_lookup_ne (memid k Y : string) (locs : gmap string (list string)) :
  Y <> memid -> pop_loc memid k locs !! Y = locs !! Y.
Proof.
  intros Hne. unfold pop_loc.
  destruct (locs_truthy (locs !! memid)); [|reflexivity].
  destruct (alter (dict_pop k) memid locs !! memid) as [[|a l]|];
    rewrite ?lookup_delete_ne by congruence;
    now rewrite lookup_alter_ne by congruence.
Qed.

Lemma pop_loc_lookup (memid k : string) (ks : list string)
  (locs : gmap string (list string)) :
  locs !! memid = Some ks -> ks <> [] ->
  pop_loc memid k locs !! memid
  = match dict_pop k ks with [] => None | l => Some l end.
Proof.
  intros H Hne. unfold pop_loc. rewrite H.
  destruct ks as [|a l]; [contradiction|]. cbn [locs_truthy].
  assert (Ha : alter (dict_pop k) memid locs !! memid = Some (dict_pop k (a :: l))).
  { rewrite lookup_alter_eq, H. reflexivity. }
  rewrite Ha.
  destruct (dict_pop k (a :: l)) as [|b l'].
  - apply lookup_delete_eq.
  - exact Ha.
Qed.

Lemma dict_pop_keeps (k k' : string) (ks : list string) :
  k' ∈ ks -> k' <> k -> k' ∈ dict_pop k ks.
Proof. intros H Hne. unfold dict_pop. now apply list_elem_of_filter. Qed.

Lemma dict_pop_gone (k : string) (ks : list string) : k ∉ dict_pop k ks.
Proof. unfold dict_pop. intros H. apply list_elem_of_filter in H as [H _]. congruence. Qed.

Lemma cell_is_some (s : PlaceField) (n i j : Z) :
  grid_ok n s -> exists vm vo vu, cell s i j = Some (vm, vo, vu).
Proof.
  intros (sl & Hh & _). unfold cell. rewrite Hh. eauto.
Qed.

(** On a sound instance the owner of every cell of the grid can be read. *)
Lemma owner_readable (s : PlaceField) (i j : Z) :
  wf s -> owner_listed s -> 0 <= i < GRID_SIDE -> 0 <= j < GRID_SIDE ->
  exists vm vo vu cur,
    cell s i j = Some (vm, vo, vu)
    /\ list_getitem (index2memid s) vm = Return cur
    /\ memid2index s !! cur = Some vm
    /\ (vm <> 0 -> exists ks, memid2locs s !! cur = Some ks /\ ijh2idx i j 0 ∈ ks).
Proof.
  intros Hwf Hol Hi Hj.
  destruct (cell_is_some s GRID_SIDE i j (wf_grid s Hwf)) as (vm & vo & vu & Hc).
  exists vm, vo, vu.
  destruct (decide (vm = 0)) as [->|Hne].
  - exists "NULL". split; [assumption|].
    split; [apply list_getitem_registry; [apply (wf_registry s Hwf) | apply (wf_null s Hwf)]|].
    split; [apply (wf_null s Hwf) | congruence].
  - destruct (Hol i j vm vo vu Hi Hj Hc Hne) as (X & ks & Hpos & HX & Hl & Hin).
    assert (Hidx : memid2index s !! X = Some vm).
    { apply (wf_registry s Hwf). split; [lia | assumption]. }
    exists X. split; [assumption|].
    split; [apply list_getitem_registry; [apply (wf_registry s Hwf) | assumption]|].
    split; [assumption|]. intros _. eauto.
Qed.

Lemma sound_same_grid (s s' : PlaceField) :
  same_grid s s' -> slices_ok s' -> sound s -> sound s'.
Proof.
  intros (Hm & _ & _ & Hl & Hi & Hx) Hsl (Hol & _ & Hne).
  split; [|split; [assumption|]].
  - intros i j vm vo vu Hbi Hbj Hc Hvm.
    rewrite (cell_same_slice s s' i j Hm) in Hc.
    destruct (Hol i j vm vo vu Hbi Hbj Hc Hvm) as (X & ks & H).
    exists X, ks. now rewrite Hi, Hl.
  - intros X. rewrite Hl. apply Hne.
Qed.

Lemma sound_store
  (s : PlaceField) (c : change) (i j idx t : Z) :
  wf s -> sound s -> 0 <= i < GRID_SIDE -> 0 <= j < GRID_SIDE ->
  memid2index (after (maybe_add_memid (memid c)) s) !! memid c = Some idx ->
  sound (set_memid2locs (add_loc (memid c) (ijh2idx i j 0) (memid2locs s))
           (store_cell i j idx (Z.b2z (is_obstacle c)) t
              (after (maybe_add_memid (memid c)) s))).
Proof.
  intros Hwf (Hol & Hsl & Hne) Hi Hj Hidx.
  pose proof (wf_maybe_add_memid (memid c) s Hwf) as Hwf1.
  destruct (maybe_add_memid_total (memid c) s) as (idx0 & _ & _ & Hm & Hsz & Hl).
  destruct (mono_maybe_add_memid (memid c) s) as [[suffix Hsuf] _].
  set (s1 := after (maybe_add_memid (memid c)) s) in *.
  set (s2 := store_cell i j idx (Z.b2z (is_obstacle c)) t s1).
  destruct (registry_store_cell i j idx (Z.b2z (is_obstacle c)) t s1) as [Hr1 Hr2].
  fold s2 in Hr1, Hr2.
  split; [|split].
  - intros x y vm vo vu Hx Hy Hc Hvm.
    change (cell s2 x y = Some (vm, vo, vu)) in Hc. unfold s2 in Hc.
    rewrite (cell_store_cell GRID_SIDE) in Hc by apply (wf_grid s1 Hwf1).
    cbn [index2memid memid2locs set_memid2locs]. rewrite Hr1.
    destruct (decide ((x, y) = (i, j))) as [[= -> ->]|Hxy].
    + rewrite !Z.eqb_refl in Hc. cbn [andb] in Hc. injection Hc as <- _ _.
      apply (wf_registry s1 Hwf1) in Hidx as [Hk Hlk].
      exists (memid c), (dict_add (ijh2idx i j 0) (default [] (memid2locs s !! memid c))).
      split; [lia|]. split; [assumption|].
      split; [apply add_loc_lookup | apply dict_add_in].
    + rewrite (pair_neq_eqb _ _ _ _ Hxy) in Hc.
      rewrite (cell_same_slice s s1) in Hc by now rewrite Hm.
      destruct (Hol x y vm vo vu Hx Hy Hc Hvm) as (X & ks & Hpos & HX & HL & Hin).
      assert (HX1 : index2memid s1 !! Z.to_nat vm = Some X).
      { rewrite Hsuf. rewrite lookup_app_l; [assumption|].
        now apply lookup_lt_Some in HX. }
      destruct (decide (X = memid c)) as [->|Hne'].
      * exists (memid c), (dict_add (ijh2idx i j 0) (default [] (memid2locs s !! memid c))).
        split; [assumption|]. split; [assumption|].
        split; [apply add_loc_lookup|]. rewrite HL. cbn. now apply dict_add_keeps.
      * exists X, ks. split; [assumption|]. split; [assumption|].
        split; [now rewrite add_loc_lookup_ne | assumption].
  - apply (slices_ok_frame s2); [reflexivity|]. unfold s2.
    apply slices_ok_store_cell. apply (slices_ok_frame s); assumption.
  - intros X. cbn [memid2locs set_memid2locs].
    destruct (decide (X = memid c)) as [->|Hne'].
    + rewrite add_loc_lookup. intros [= H]. unfold dict_add in H.
      case_bool_decide as Hin; [rewrite H in Hin; now apply not_elem_of_nil in Hin|].
      now apply app_nil in H as [_ H].
    + rewrite add_loc_lookup_ne by assumption. apply Hne.
Qed.

Lemma sound_pop
  (s : PlaceField) (i j t : Z) (memid : string) :
  wf s -> sound s -> 0 <= i < GRID_SIDE -> 0 <= j < GRID_SIDE ->
  sound (set_memid2locs (pop_loc memid (ijh2idx i j 0) (memid2locs s))
           (store_cell i j 0 0 t s)).
Proof.
  intros Hwf (Hol & Hsl & Hne) Hi Hj.
  set (s1 := store_cell i j 0 0 t s).
  destruct (registry_store_cell i j 0 0 t s) as [Hr1 Hr2]. fold s1 in Hr1, Hr2.
  split; [|split].
  - intros x y vm vo vu Hx Hy Hc Hvm.
    change (cell s1 x y = Some (vm, vo, vu)) in Hc. unfold s1 in Hc.
    rewrite (cell_store_cell GRID_SIDE) in Hc by apply (wf_grid s Hwf).
    cbn [index2memid memid2locs set_memid2locs]. rewrite Hr1.
    destruct (decide ((x, y) = (i, j))) as [[= -> ->]|Hxy].
    + rewrite !Z.eqb_refl in Hc. cbn [andb] in Hc. congruence.
    + rewrite (pair_neq_eqb _ _ _ _ Hxy) in Hc.
      destruct (Hol x y vm vo vu Hx Hy Hc Hvm) as (X & ks & Hpos & HX & HL & Hin).
      destruct (decide (X = memid)) as [->|Hne'].
      * assert (Hkk : ijh2idx x y 0 <> ijh2idx i j 0).
        { intros E. apply ijh2idx_inj in E;
            try (apply grid_side_big; assumption). congruence. }
        pose proof (dict_pop_keeps (ijh2idx i j 0) _ ks Hin Hkk) as Hin'.
        assert (Hks : ks <> []) by (intros ->; now apply not_elem_of_nil in Hin).
        exists memid, (dict_pop (ijh2idx i j 0) ks).
        split; [assumption|]. split; [assumption|]. split; [|assumption].
        rewrite (pop_loc_lookup memid _ ks) by assumption.
        destruct (dict_pop (ijh2idx i j 0) ks); [now apply not_elem_of_nil in Hin'|].
        reflexivity.
      * exists X, ks. split; [assumption|]. split; [assumption|].
        split; [now rewrite pop_loc_lookup_ne | assumption].
  - apply (slices_ok_frame s1); [reflexivity|]. now apply slices_ok_store_cell.
  - intros X. cbn [memid2locs set_memid2locs].
    destruct (decide (X = memid)) as [->|Hne'].
    + destruct (memid2locs s !! memid) as [ks|] eqn:E.
      * destruct (decide (ks = [])) as [->|Hks]; [now apply Hne in E|].
        rewrite (pop_loc_lookup memid _ ks) by assumption.
        destruct (dict_pop (ijh2idx i j 0) ks); discriminate.
      * unfold pop_loc. rewrite E. cbn [locs_truthy]. rewrite E. discriminate.
    + rewrite pop_loc_lookup_ne by assumption. apply Hne.
Qed.

Lemma slices_ok_insert (s : PlaceField) (h : option Z) (sl : hslice) (w : Z) :
  slices_ok s -> slice_ok w sl -> 0 <= w ->
  slices_ok (set_maps (<[h := sl]> (maps s)) s).
Proof.
  intros Hs Hok Hw h' sl'. cbn [maps set_maps].
  destruct (decide (h' = h)) as [->|Hne].
  - rewrite lookup_insert_eq. intros [= <-]. eauto.
  - rewrite lookup_insert_ne by congruence. apply Hs.
Qed.

Lemma same_grid_insert (s : PlaceField) (h : option Z) (sl : hslice) :
  h <> Some 0 -> same_grid s (set_maps (<[h := sl]> (maps s)) s).
Proof.
  intros Hne. unfold same_grid. cbn [maps set_maps map_size pixels_per_unit
    memid2locs index2memid memid2index].
  rewrite lookup_insert_ne by congruence. tauto.
Qed.

Lemma same_grid_refl (s : PlaceField) : same_grid s s.
Proof. unfold same_grid. tauto. Qed.

(** The call [self.extend_map(s)] of [update_map], on an instance whose
    slices are square: it returns, and works on slice [s] only. *)
Lemma extend_map_stray (s : PlaceField) (sv : Z) :
  slices_ok s -> sv <> 0 ->
  exists r s1,
    extend_map (Some sv) 1 s = (Return r, s1) /\ same_grid s s1 /\ slices_ok s1.
Proof.
  intros Hs Hsv.
  assert (Hk : key_truthy (Some sv) = true).
  { cbn [key_truthy]. destruct (Z.eqb_spec sv 0); [contradiction | reflexivity]. }
  assert (Hne : Some sv <> Some 0) by congruence.
  destruct (maps s !! Some sv) as [sl|] eqn:E.
  - destruct (Hs _ _ E) as (w & Hw & Hok).
    rewrite (extend_map_existing s (Some sv) sl w 1 E Hok Hw) by lia.
    destruct (MAX_MAP_SIZE <? w + 2 * 1).
    + eexists _, _. split; [reflexivity|]. split; [apply same_grid_refl | assumption].
    + eexists _, _. split; [reflexivity|].
      split; [now apply same_grid_insert|].
      apply (slices_ok_insert s _ _ (w + 2 * 1)); [assumption | | lia].
      now apply slice_ok_pad_slice.
  - rewrite (extend_map_absent s (Some sv) 1 E Hk) by lia.
    change (MAX_MAP_SIZE <? MAP_INIT_SIZE + 2 * 1) with false. cbn iota.
    eexists _, _. split; [reflexivity|].
    split; [now apply same_grid_insert|].
    apply (slices_ok_insert s _ _ (MAP_INIT_SIZE + 2 * 1)); [assumption | | ].
    + apply slice_ok_pad_slice. repeat split.
    + unfold MAP_INIT_SIZE. lia.
Qed.

(** A record whose position is outside slice 0 is dropped without error. *)
Lemma apply_change_outside
  (s : PlaceField) (t : Z) (c : change) (x y z : Q) :
  wf s -> slices_ok s -> pos c = Some (x, y, z) ->
  ~ (0 <= grid_index GRID_SIDE (pixels_per_unit s) x < GRID_SIDE
     /\ 0 <= grid_index GRID_SIDE (pixels_per_unit s) z < GRID_SIDE) ->
  exists s1,
    apply_change c t s = (Return tt, s1) /\ same_grid s s1 /\ slices_ok s1.
Proof.
  intros Hwf Hs Hpos Hout. pose proof (wf_grid s Hwf) as Hg.
  pose proof Hg as (sl & Hh & Hok & Hsz & Hn).
  set (i := grid_index GRID_SIDE (pixels_per_unit s) x) in *.
  set (j := grid_index GRID_SIDE (pixels_per_unit s) z) in *.
  assert (Hsv : overshoot GRID_SIDE i j <> 0).
  { pose proof (overshoot_outside GRID_SIDE i j Hout) as H. apply Z.ltb_lt in H. lia. }
  destruct (extend_map_stray s (overshoot GRID_SIDE i j) Hs Hsv)
    as (r & s1 & E & Hsame & Hs1).
  exists s1.
  unfold apply_change. rewrite Hpos. unfold y2slice.
  unfold bind at 1. rewrite (real2map_eq s GRID_SIDE x z Hg). fold i j.
  unfold bind at 1. unfold get at 1. cbn [fst snd]. rewrite Hsz.
  rewrite (overshoot_outside GRID_SIDE i j Hout).
  unfold bind at 1. unfold bind at 1. rewrite E. unfold ret at 1.
  pose proof (grid_ok_same_grid GRID_SIDE s s1 Hsame Hg) as Hg1.
  pose proof Hsame as (Hm & Hsz1 & Hp & Hrest).
  unfold bind at 1. rewrite (real2map_eq s1 GRID_SIDE x z Hg1). rewrite Hp. fold i j.
  unfold bind at 1. unfold get at 1. rewrite Hsz1, Hsz.
  rewrite (overshoot_outside GRID_SIDE i j Hout).
  split; [reflexivity|]. split; assumption.
Qed.

Lemma sound_delete_locs (s s1 : PlaceField) (memid : string) (t : Z) :
  wf s -> sound s -> cells_changed s s1 -> slices_ok s1 ->
  (forall x y, 0 <= x < GRID_SIDE -> 0 <= y < GRID_SIDE ->
     cell s1 x y
     = if bool_decide (ijh2idx x y 0 ∈ default [] (memid2locs s !! memid))
       then Some (0, 0, t) else cell s x y) ->
  sound (set_memid2locs (delete memid (memid2locs s)) s1).
Proof.
  intros Hwf (Hol & Hsl & Hne) (Hg & Hl & Hi & Hx) Hs1 Hcells.
  split; [|split].
  - intros x y vm vo vu Hbx Hby Hc Hvm.
    change (cell s1 x y = Some (vm, vo, vu)) in Hc.
    rewrite (Hcells x y Hbx Hby) in Hc.
    cbn [index2memid memid2locs set_memid2locs]. rewrite Hi.
    destruct (bool_decide (ijh2idx x y 0 ∈ default [] (memid2locs s !! memid))) eqn:Eb;
      [congruence|].
    apply bool_decide_eq_false_1 in Eb.
    destruct (Hol x y vm vo vu Hbx Hby Hc Hvm) as (X & ks & Hpos & HX & HL & Hin).
    exists X, ks. split; [assumption|]. split; [assumption|]. split; [|assumption].
    rewrite lookup_delete_ne; [assumption|].
    intros ->. apply Eb. rewrite HL. exact Hin.
  - apply (slices_ok_frame s1); [reflexivity | assumption].
  - intros X. cbn [memid2locs set_memid2locs]. intros H.
    apply lookup_delete_Some in H as [_ H]. now apply Hne in H.
Qed.

Lemma sound_cleared (s s1 : PlaceField) (t : Z) :
  sound s -> cells_changed s s1 -> slices_ok s1 ->
  (forall x y, cell s1 x y = cell s x y \/ cell s1 x y = Some (0, 0, t)) ->
  sound s1.
Proof.
  intros (Hol & Hsl & Hne) (Hg & Hl & Hi & Hx) Hs1 Hany.
  split; [|split; [assumption|]].
  - intros x y vm vo vu Hbx Hby Hc Hvm.
    destruct (Hany x y) as [H|H]; rewrite H in Hc; [|congruence].
    destruct (Hol x y vm vo vu Hbx Hby Hc Hvm) as (X & ks & Hrest).
    exists X, ks. now rewrite Hi, Hl.
  - intros X. rewrite Hl. apply Hne.
Qed.

Lemma sound_delete_loc_by_memid
  (memid : string) (t : Z) (is_move : bool) (s : PlaceField) :
  wf s -> sound s -> sound (after (delete_loc_by_memid memid t is_move) s).
Proof.
  intros Hwf Hsound. unfold after, delete_loc_by_memid.
  unfold bind at 1. destruct (bool_decide (memid = "")); cbn [negb assert raise ret snd];
    [assumption|].
  unfold bind at 1. destruct (bool_decide (memid = "NULL")); cbn [negb assert raise ret snd];
    [assumption|].
  unfold bind at 1. unfold get at 1.
  assert (Hks : Forall key_ok (default [] (memid2locs s !! memid))).
  { destruct (memid2locs s !! memid) as [ks|] eqn:E; cbn; [|constructor].
    apply (wf_keys s Hwf memid ks E). }
  destruct (delete_loop_effect _ t is_move 0 s (wf_grid s Hwf) Hks)
    as (r & s1 & E & Hcc & Hsl & Hany & Hall & _).
  unfold bind. rewrite E.
  assert (Hs1 : slices_ok s1) by (apply Hsl, Hsound).
  destruct r as [[]|e]; cbn [snd modify].
  - pose proof Hcc as (_ & Hl & _). rewrite Hl.
    apply (sound_delete_locs s s1 memid t); auto.
  - now apply (sound_cleared s s1 t).
Qed.

Lemma sound_maybe_delete_loc (i j t : Z) (memid : string) (s : PlaceField) :
  wf s -> sound s -> 0 <= i < GRID_SIDE -> 0 <= j < GRID_SIDE ->
  exists s', maybe_delete_loc i j 0 t memid s = (Return tt, s') /\ sound s'.
Proof.
  intros Hwf Hsound Hi Hj.
  destruct (owner_readable s i j Hwf (proj1 Hsound) Hi Hj)
    as (vm & vo & vu & cur & Hc & Hcur & _).
  rewrite (maybe_delete_loc_eq s i j t vm vo vu memid cur Hwf Hi Hj Hc Hcur).
  eexists. split; [reflexivity|].
  destruct (bool_decide (memid = "NULL") || bool_decide (cur = memid));
    [now apply sound_pop | assumption].
Qed.

Lemma explore_same_maps (c : call) (s : PlaceField) :
  match c with
  | CallGetClosest _ | CallUpdate _ | CallClearExamined | CallCanExamine _ => True
  | _ => False
  end -> maps (run c s) = maps s.
Proof.
  destruct c; try contradiction; intros _; cbn [run];
    unfold after, update, can_examine, clear_examined, get_closest, self_l1,
      bind, get, lift, modify, ret, raise;
    repeat (case_match; simplify_eq; cbn [snd fst] in * );
    reflexivity.
Qed.

(** ** Construction *)

Lemma init_eq (self_memid : string) (ppu : Q) :
  init self_memid ppu blank
  = (Return tt,
     set_memid2locs ∅
       (set_params GRID_SIDE ppu
          (set_maps (<[Some 0 := pad_slice 1 init_slice]> ∅)
             (after (maybe_add_memid self_memid)
                (set_registry ["NULL"] (<["NULL" := 0]> ∅) blank))))).
Proof.
  unfold init.
  unfold bind at 1.
  rewrite (maybe_add_memid_new "NULL" blank) by reflexivity.
  cbn [blank index2memid memid2index length app Z.of_nat].
  set (s0 := set_registry _ _ _).
  unfold bind at 1.
  destruct (maybe_add_memid_total self_memid s0) as (idx & E & Hidx & Hm & Hs & Hl).
  rewrite E.
  set (s1 := after (maybe_add_memid self_memid) s0) in *.
  assert (Hmaps : maps s1 = ∅) by (rewrite Hm; reflexivity).
  assert (Hext : extend_map (Some 0) 1 s1
                 = (Return GRID_SIDE,
                    set_maps (<[Some 0 := pad_slice 1 init_slice]> ∅) s1)).
  { unfold extend_map. unfold bind at 1. cbn [assert Z.leb Z.compare ret].
    unfold bind at 1. unfold get at 1. rewrite Hmaps.
    cbn [key_truthy Z.eqb negb andb].
    change (size (∅ : gmap (option Z) hslice) =? 1)%nat with false.
    unfold bind at 1. rewrite lookup_empty. unfold modify at 1.
    set (s2 := set_maps (<[Some 0 := init_slice]> (maps s1)) s1).
    assert (Hh2 : maps s2 !! Some 0 = Some init_slice).
    { unfold s2. cbn [maps set_maps]. apply lookup_insert_eq. }
    unfold bind at 1. unfold maps_getitem at 1. rewrite Hh2.
    change (shape0 (map_ init_slice)) with MAP_INIT_SIZE.
    change (MAX_MAP_SIZE <? MAP_INIT_SIZE + 2 * 1) with false.
    unfold bind. rewrite (pad_layers_fill s2 (Some 0) init_slice MAP_INIT_SIZE 1 Hh2);
      [| repeat split | unfold MAP_INIT_SIZE; lia | lia].
    unfold s2. cbn [maps set_maps]. rewrite Hmaps, insert_insert_eq. reflexivity. }
  unfold bind at 1. rewrite Hext.
  reflexivity.
Qed.

Lemma fresh_eq (self_memid : string) (ppu : Q) :
  fresh self_memid ppu
  = set_memid2locs ∅
      (set_params GRID_SIDE ppu
         (set_maps (<[Some 0 := pad_slice 1 init_slice]> ∅)
            (after (maybe_add_memid self_memid)
               (set_registry ["NULL"] (<["NULL" := 0]> ∅) blank)))).
Proof. unfold fresh. now rewrite init_eq. Qed.

Lemma fresh_cell (self_memid : string) (ppu : Q) (i j : Z) :
  cell (fresh self_memid ppu) i j = Some (0, 0, -1).
Proof.
  rewrite fresh_eq. unfold cell. cbn [maps set_memid2locs set_params set_maps].
  rewrite lookup_insert_eq.
  cbn [pad_slice pad at_ init_slice full memids map_ updated shape0].
  destruct (_ && _); reflexivity.
Qed.

(** X15. What [__init__] builds, for every agent identity and
    resolution: it returns; the registry holds the sentinel ["NULL"] at
    index 0 and the agent at index 1 (the sentinel alone when the agent's
    identity is ["NULL"] itself); slice 0 is the only slice, a grid of side
    [MAP_INIT_SIZE + 2] with [map_size] equal to it and every cell unowned,
    free and never updated; the resolution is the one given; the reverse
    index and the tracker are empty. *)
Theorem init_state (self_memid : string) (ppu : Q) :
  let s := fresh self_memid ppu in
  fst (init self_memid ppu blank) = Return tt
  /\ index2memid s
     = (if bool_decide (self_memid = "NULL") then ["NULL"] else ["NULL"; self_memid])
  /\ memid2index s
     = (if bool_decide (self_memid = "NULL") then <["NULL" := 0]> ∅
        else <[self_memid := 1]> (<["NULL" := 0]> ∅))
  /\ (forall h, is_Some (maps s !! h) <-> h = Some 0)
  /\ grid_ok (MAP_INIT_SIZE + 2) s
  /\ (forall i j, cell s i j = Some (0, 0, -1))
  /\ pixels_per_unit s = ppu
  /\ memid2locs s = ∅
  /\ examined s = [] /\ examined_id s = ∅ /\ last s = None.
Proof.
  intros s. split; [now rewrite init_eq|].
  assert (Hreg : after (maybe_add_memid self_memid)
                   (set_registry ["NULL"] (<["NULL" := 0]> ∅) blank)
                 = if bool_decide (self_memid = "NULL")
                   then set_registry ["NULL"] (<["NULL" := 0]> ∅) blank
                   else set_registry ["NULL"; self_memid]
                          (<[self_memid := 1]> (<["NULL" := 0]> ∅)) blank).
  { unfold after. case_bool_decide as Hn.
    - subst. rewrite (maybe_add_memid_known "NULL" 0); [reflexivity|].
      cbn [memid2index set_registry]. apply lookup_insert_eq.
    - rewrite maybe_add_memid_new; [reflexivity|].
      cbn [memid2index set_registry].
      rewrite lookup_insert_ne by congruence. apply lookup_empty. }
  pose proof (fresh_cell self_memid ppu) as Hcell.
  pose proof (wf_grid _ (wf_fresh self_memid ppu)) as Hgrid.
  fold s in Hcell, Hgrid.
  unfold s. rewrite fresh_eq, Hreg.
  split; [case_bool_decide; reflexivity|].
  split; [case_bool_decide; reflexivity|].
  split.
  { intros h. cbn [maps set_memid2locs set_params set_maps]. split.
    - intros [sl H]. destruct (decide (h = Some 0)) as [|Hne]; [assumption|].
      rewrite lookup_insert_ne, lookup_empty in H by congruence. discriminate.
    - intros ->. rewrite lookup_insert_eq. eauto. }
  split; [rewrite <- Hreg, <- fresh_eq; exact Hgrid|].
  split; [rewrite <- Hreg, <- fresh_eq; exact Hcell|].
  case_bool_decide; repeat split.
Qed.

(** ** The cells and the reverse index on the instances a caller can build *)

Lemma sound_fresh (self_memid : string) (ppu : Q) : sound (fresh self_memid ppu).
Proof.
  split; [|split].
  - intros i j vm vo vu _ _ Hc Hvm. rewrite fresh_cell in Hc. congruence.
  - rewrite fresh_eq. intros h sl. cbn [maps set_memid2locs set_params set_maps].
    destruct (decide (h = Some 0)) as [->|Hne].
    + rewrite lookup_insert_eq. intros [= <-]. exists (MAP_INIT_SIZE + 2 * 1).
      split; [unfold MAP_INIT_SIZE; lia|].
      apply slice_ok_pad_slice. repeat split.
    + rewrite lookup_insert_ne, lookup_empty by congruence. discriminate.
  - rewrite fresh_eq. intros X. cbn [memid2locs set_memid2locs].
    rewrite lookup_empty. discriminate.
Qed.

Lemma good_bind {A B} (m : M A) (k : A -> M B) (s : PlaceField) :
  wf (after m s) /\ sound (after m s) ->
  (forall a s', wf s' -> sound s' -> wf (after (k a) s') /\ sound (after (k a) s')) ->
  wf (after (bind m k) s) /\ sound (after (bind m k) s).
Proof.
  intros Hm Hk. unfold after, bind in *.
  destruct (m s) as [[a|e] s1]; cbn [snd] in *; [now apply Hk | assumption].
Qed.

Lemma sound_store_change (c : change) (i j t : Z) (s : PlaceField) :
  wf s -> sound s -> 0 <= i < GRID_SIDE -> 0 <= j < GRID_SIDE ->
  exists s', store_change c i j 0 t s = (Return tt, s') /\ sound s'.
Proof.
  intros Hwf Hs Hi Hj.
  destruct (store_change_eq s GRID_SIDE i j t c (wf_grid s Hwf) Hi Hj) as (idx & Hidx & E).
  eexists. split; [exact E|]. now apply sound_store.
Qed.

Lemma good_apply_change (c : change) (t : Z) (s : PlaceField) :
  wf s -> sound s ->
  wf (after (apply_change c t) s) /\ sound (after (apply_change c t) s).
Proof.
  intros Hwf Hs. split; [now apply wf_apply_change|].
  pose proof (wf_grid s Hwf) as Hg.
  destruct (pos c) as [[[x y] z]|] eqn:Hpos.
  - set (i := grid_index GRID_SIDE (pixels_per_unit s) x).
    set (j := grid_index GRID_SIDE (pixels_per_unit s) z).
    destruct (decide (0 <= i < GRID_SIDE /\ 0 <= j < GRID_SIDE)) as [[Hi Hj]|Hout].
    + destruct (is_delete c) eqn:Hdel.
      * unfold after.
        rewrite (apply_change_inside_delete s GRID_SIDE t c x y z Hg Hpos Hdel Hi Hj).
        destruct (sound_maybe_delete_loc _ _ t (memid c) s Hwf Hs Hi Hj) as (s' & E & Hs').
        fold i j. now rewrite E.
      * unfold after.
        rewrite (apply_change_inside s GRID_SIDE t c x y z Hg Hpos Hdel Hi Hj).
        apply good_bind.
        -- destruct (is_move c); [|split; assumption].
           apply good_bind.
           ++ destruct (negb (bool_decide (memid c = "NULL"))); split; assumption.
           ++ intros _ s' Hwf' Hs'.
              split; [now apply wf_delete_loc_by_memid
                     | now apply sound_delete_loc_by_memid].
        -- intros _ s' Hwf' Hs'. split; [now apply wf_store_change|].
           destruct (sound_store_change c i j t s' Hwf' Hs' Hi Hj) as (s2 & E & Hs2).
           unfold after. fold i j. now rewrite E.
    + destruct (apply_change_outside s t c x y z Hwf (proj1 (proj2 Hs)) Hpos Hout)
        as (s1 & E & Hsame & Hsl).
      unfold after. rewrite E. cbn [snd]. now apply (sound_same_grid s).
  - unfold apply_change. rewrite Hpos.
    apply good_bind; [destruct (is_delete c); split; assumption|]. intros _ s1 Hwf1 Hs1.
    apply good_bind; [destruct (bool_decide (memid c = "")); split; assumption|].
    intros _ s2 Hwf2 Hs2.
    split; [now apply wf_delete_loc_by_memid | now apply sound_delete_loc_by_memid].
Qed.

Lemma good_update_map (changes : list change) (t : Z) (s : PlaceField) :
  wf s -> sound s ->
  wf (after (update_map changes t) s) /\ sound (after (update_map changes t) s).
Proof.
  revert s. induction changes as [|c rest IH]; intros s Hwf Hs; cbn [update_map].
  - split; assumption.
  - apply good_bind; [now apply good_apply_change|]. intros _ s' Hwf' Hs'. now apply IH.
Qed.

Lemma sound_explore (c : call) (s : PlaceField) :
  match c with
  | CallGetClosest _ | CallUpdate _ | CallClearExamined | CallCanExamine _ => True
  | _ => False
  end -> sound s -> sound (run c s).
Proof.
  intros Hc Hs. apply (sound_same_grid s).
  - now apply explore_same_grid.
  - intros h sl. rewrite (explore_same_maps c s Hc). apply Hs.
  - assumption.
Qed.

Lemma built_sound (s : PlaceField) : built s -> sound s.
Proof.
  induction 1 as [self_memid ppu | c s Hpub Hb IH].
  - apply sound_fresh.
  - destruct c; try discriminate; try (apply sound_explore; [exact I | exact IH]).
    cbn [run]. apply good_update_map; [now apply built_wf | assumption].
Qed.

(** A record with a position that is not a move returns. *)
Lemma apply_change_returns (c : change) (t : Z) (s : PlaceField) :
  wf s -> sound s -> pos c <> None -> is_move c = false ->
  fst (apply_change c t s) = Return tt.
Proof.
  intros Hwf Hs Hpos Hmv. pose proof (wf_grid s Hwf) as Hg.
  destruct (pos c) as [[[x y] z]|] eqn:Ep; [|contradiction].
  set (i := grid_index GRID_SIDE (pixels_per_unit s) x).
  set (j := grid_index GRID_SIDE (pixels_per_unit s) z).
  destruct (decide (0 <= i < GRID_SIDE /\ 0 <= j < GRID_SIDE)) as [[Hi Hj]|Hout].
  - destruct (is_delete c) eqn:Hdel.
    + rewrite (apply_change_inside_delete s GRID_SIDE t c x y z Hg Ep Hdel Hi Hj).
      destruct (sound_maybe_delete_loc _ _ t (memid c) s Hwf Hs Hi Hj) as (s' & E & _).
      fold i j. now rewrite E.
    + rewrite (apply_change_inside s GRID_SIDE t c x y z Hg Ep Hdel Hi Hj).
      rewrite Hmv. unfold bind, ret.
      destruct (sound_store_change c i j t s Hwf Hs Hi Hj) as (s2 & E & _).
      fold i j. now rewrite E.
  - destruct (apply_change_outside s t c x y z Hwf (proj1 (proj2 Hs)) Ep Hout)
      as (s1 & E & _).
    now rewrite E.
Qed.

Lemma update_map_returns (cs : list change) (t : Z) (s : PlaceField) :
  wf s -> sound s ->
  Forall (fun c => pos c <> None /\ is_move c = false) cs ->
  fst (update_map cs t s) = Return tt.
Proof.
  revert s. induction cs as [|c rest IH]; intros s Hwf Hs Hall; [reflexivity|].
  apply Forall_cons in Hall as [[Hp Hm] Hall].
  cbn [update_map]. unfold bind.
  pose proof (apply_change_returns c t s Hwf Hs Hp Hm) as E.
  pose proof (good_apply_change c t s Hwf Hs) as [Hwf1 Hs1]. unfold after in Hwf1, Hs1.
  destruct (apply_change c t s) as [[[]|e] s1]; cbn [fst snd] in *; [|discriminate].
  now apply IH.
Qed.

(** X16. With coordinates taken as exact numbers, [update_map] never
    raises on a batch of records that all have a position and are not
    moves: on every instance a caller can build, whatever the positions
    (inside or outside the grid), the identities and the flags [is_delete]
    and [is_obstacle], the call returns. *)
Theorem update_map_never_raises_without_moves
  (cs : list change) (t : Z) (s : PlaceField) :
  built s ->
  Forall (fun c => pos c <> None /\ is_move c = false) cs ->
  fst (update_map cs t s) = Return tt.
Proof.
  intros Hb Hall.
  apply update_map_returns; [now apply built_wf | now apply built_sound | assumption].
Qed.

Lemma update_map_never_raises_without_moves_witness :
  fst (update_map
         [insert_at 2%Q 3%Q "rock"; at_pos 2%Q 3%Q "tree" true false true;
          insert_at 9000%Q 3%Q "rock"; at_pos 2%Q 3%Q "NULL" false false true]
         7 (fresh "self" 1%Q))
  = Return tt.
Proof.
  apply update_map_never_raises_without_moves.
  - apply built_fresh.
  - repeat constructor; discriminate.
Defined.

(** X17. On every instance a caller can build, the owner of each cell
    of the grid can be read (the lookup in the registry never fails), it is
    registered under the index the cell holds, and, unless it is the
    sentinel ["NULL"], its entry of the reverse index lists the cell. *)
Theorem owner_of_cell_is_listed (s : PlaceField) (i j : Z) :
  built s -> 0 <= i < GRID_SIDE -> 0 <= j < GRID_SIDE ->
  exists vm vo vu X,
    cell s i j = Some (vm, vo, vu)
    /\ cell_owner 0 i j s = (Return X, s)
    /\ memid2index s !! X = Some vm
    /\ (X <> "NULL" ->
        exists ks, memid2locs s !! X = Some ks /\ ijh2idx i j 0 ∈ ks).
Proof.
  intros Hb Hi Hj.
  pose proof (built_wf s Hb) as Hwf. pose proof (built_sound s Hb) as Hs.
  destruct (owner_readable s i j Hwf (proj1 Hs) Hi Hj)
    as (vm & vo & vu & X & Hc & Hget & Hidx & Hlist).
  exists vm, vo, vu, X. split; [assumption|].
  split.
  { unfold cell_owner. unfold bind at 1.
    rewrite (cell_get_eq s GRID_SIDE i j vm vo vu (wf_grid s Hwf) Hi Hj Hc).
    unfold bind, get, lift. now rewrite Hget. }
  split; [assumption|].
  intros HX. apply Hlist. intros ->.
  pose proof (wf_null s Hwf) as H0.
  apply (wf_registry s Hwf) in H0 as [_ H0].
  apply (wf_registry s Hwf) in Hidx as [_ Hidx].
  change (Z.to_nat 0) with 0%nat in *. congruence.
Qed.

Lemma owner_of_cell_is_listed_witness :
  exists vm vo vu X,
    cell one_cell 513 513 = Some (vm, vo, vu)
    /\ cell_owner 0 513 513 one_cell = (Return X, one_cell)
    /\ memid2index one_cell !! X = Some vm
    /\ (X <> "NULL" ->
        exists ks, memid2locs one_cell !! X = Some ks /\ ijh2idx 513 513 0 ∈ ks).
Proof.
  apply (owner_of_cell_is_listed one_cell 513 513).
  - apply built_one_cell.
  - unfold GRID_SIDE, MAP_INIT_SIZE. lia.
  - unfold GRID_SIDE, MAP_INIT_SIZE. lia.
Defined.

(** ** Deleting at a position *)

Lemma pop_loc_default (memid k : string) (locs : gmap string (list string)) :
  default [] (pop_loc memid k locs !! memid) = dict_pop k (default [] (locs !! memid)).
Proof.
  destruct (locs !! memid) as [[|a l]|] eqn:E.
  - unfold pop_loc. rewrite E. cbn [locs_truthy]. now rewrite E.
  - rewrite (pop_loc_lookup memid k (a :: l)) by (assumption || discriminate).
    change (default [] (Some (a :: l))) with (a :: l).
    destruct (dict_pop k (a :: l)); reflexivity.
  - unfold pop_loc. rewrite E. cbn [locs_truthy]. now rewrite E.
Qed.

Lemma pop_loc_nonempty (memid k X : string) (locs : gmap string (list string)) :
  (forall Y, locs !! Y <> Some []) -> pop_loc memid k locs !! X <> Some [].
Proof.
  intros Hne. destruct (decide (X = memid)) as [->|HX].
  - destruct (locs !! memid) as [ks|] eqn:E.
    + destruct (decide (ks = [])) as [->|Hks]; [now apply Hne in E|].
      rewrite (pop_loc_lookup memid k ks) by assumption.
      destruct (dict_pop k ks); discriminate.
    + unfold pop_loc. rewrite E. cbn [locs_truthy]. rewrite E. discriminate.
  - rewrite pop_loc_lookup_ne by assumption. apply Hne.
Qed.

(** X18. On every instance a caller can build, a delete record with a
    position inside the grid returns normally, whatever [is_move] says.
    When its [memid] is ["NULL"] (the default) or is the owner of the cell,
    the cell is cleared (sentinel owner, unoccupied, updated at [t]), the
    key of the cell is removed from the cells listed for [memid] (an
    identity left without cells is dropped), and nothing else changes;
    otherwise the instance is left exactly as it was. *)
Theorem delete_at_position
  (s : PlaceField) (t : Z) (c : change) (x y z : Q) (i j : Z) :
  built s -> pos c = Some (x, y, z) -> is_delete c = true ->
  grid_index GRID_SIDE (pixels_per_unit s) x = i ->
  grid_index GRID_SIDE (pixels_per_unit s) z = j ->
  0 <= i < GRID_SIDE -> 0 <= j < GRID_SIDE ->
  exists cur s',
    fst (cell_owner 0 i j s) = Return cur
    /\ update_map [c] t s = (Return tt, s')
    /\ if bool_decide (memid c = "NULL") || bool_decide (cur = memid c)
       then cell s' i j = Some (0, 0, t)
            /\ (forall x' y', (x', y') <> (i, j) -> cell s' x' y' = cell s x' y')
            /\ default [] (memid2locs s' !! memid c)
               = dict_pop (ijh2idx i j 0) (default [] (memid2locs s !! memid c))
            /\ memid2locs s' !! memid c <> Some []
            /\ (forall Y, Y <> memid c -> memid2locs s' !! Y = memid2locs s !! Y)
            /\ index2memid s' = index2memid s
            /\ memid2index s' = memid2index s
       else s' = s.
Proof.
  intros Hb Hpos Hdel Ei Ej Hi Hj.
  pose proof (built_wf s Hb) as Hwf. pose proof (built_sound s Hb) as Hs.
  pose proof (wf_grid s Hwf) as Hg.
  destruct (owner_readable s i j Hwf (proj1 Hs) Hi Hj)
    as (vm & vo & vu & cur & Hc & Hcur & _).
  exists cur.
  rewrite (cell_owner_eq s GRID_SIDE i j vm vo vu Hg Hi Hj Hc).
  rewrite update_map_single.
  rewrite (apply_change_inside_delete s GRID_SIDE t c x y z Hg Hpos Hdel)
    by (rewrite ?Ei, ?Ej; assumption).
  rewrite Ei, Ej.
  rewrite (maybe_delete_loc_eq s i j t vm vo vu (memid c) cur Hwf Hi Hj Hc Hcur).
  eexists. split; [exact Hcur|]. split; [reflexivity|].
  destruct (bool_decide (memid c = "NULL") || bool_decide (cur = memid c));
    [|reflexivity].
  set (s1 := store_cell i j 0 0 t s).
  assert (Hcell : forall L x' y', cell (set_memid2locs L s1) x' y'
      = if (x' =? i) && (y' =? j) then Some (0, 0, t) else cell s x' y').
  { intros L x' y'. change (cell (set_memid2locs L s1) x' y') with (cell s1 x' y').
    unfold s1. now rewrite (cell_store_cell GRID_SIDE) by assumption. }
  destruct (registry_store_cell i j 0 0 t s) as [Hr1 Hr2]. fold s1 in Hr1, Hr2.
  split; [rewrite Hcell, !Z.eqb_refl; reflexivity|].
  split; [intros x' y' Hne; now rewrite Hcell, (pair_neq_eqb _ _ _ _ Hne)|].
  cbn [memid2locs set_memid2locs index2memid memid2index].
  split; [apply pop_loc_default|].
  split; [apply pop_loc_nonempty, Hs|].
  split; [intros Y HY; now apply pop_loc_lookup_ne|].
  split; assumption.
Qed.

Lemma delete_at_position_witness :
  exists cur s',
    fst (cell_owner 0 513 513 one_cell) = Return cur
    /\ update_map [at_pos 0%Q 0%Q "rock1" true true true] 5 one_cell = (Return tt, s')
    /\ if bool_decide ("rock1" = "NULL") || bool_decide (cur = "rock1")
       then cell s' 513 513 = Some (0, 0, 5)
            /\ (forall x' y', (x', y') <> (513, 513) ->
                cell s' x' y' = cell one_cell x' y')
            /\ default [] (memid2locs s' !! "rock1")
               = dict_pop (ijh2idx 513 513 0)
                   (default [] (memid2locs one_cell !! "rock1"))
            /\ memid2locs s' !! "rock1" <> Some []
            /\ (forall Y, Y <> "rock1" ->
                memid2locs s' !! Y = memid2locs one_cell !! Y)
            /\ index2memid s' = index2memid one_cell
            /\ memid2index s' = memid2index one_cell
       else s' = one_cell.
Proof.
  apply (delete_at_position one_cell 5 (at_pos 0%Q 0%Q "rock1" true true true)
           0%Q 0%Q 0%Q 513 513).
  - apply built_one_cell.
  - reflexivity.
  - reflexivity.
  - vm_compute. reflexivity.
  - vm_compute. reflexivity.
  - unfold GRID_SIDE, MAP_INIT_SIZE. lia.
  - unfold GRID_SIDE, MAP_INIT_SIZE. lia.
Defined.

(** X19. On every instance a caller can build, each entry of the
    reverse index is well formed: the identity is registered, its cells
    are listed once each and there is at least one, and every key decodes
    with [idx2ijh] to a cell of slice 0 inside the grid, of which it is the
    key. *)
Theorem reverse_index_well_formed (s : PlaceField) (X : string) (ks : list string) :
  built s -> memid2locs s !! X = Some ks ->
  is_Some (memid2index s !! X)
  /\ ks <> [] /\ NoDup ks
  /\ forall k, k ∈ ks ->
       exists i j, idx2ijh k = Return (i, j, 0)
                   /\ 0 <= i < GRID_SIDE /\ 0 <= j < GRID_SIDE
                   /\ k = ijh2idx i j 0.
Proof.
  intros Hb HX.
  pose proof (built_wf s Hb) as Hwf. pose proof (built_sound s Hb) as (_ & _ & Hne).
  split; [apply (wf_placed s Hwf X ks HX)|].
  split; [intros ->; now apply Hne in HX|].
  destruct (wf_keys s Hwf X ks HX) as [Hnd Hall].
  split; [assumption|].
  intros k Hk. rewrite Forall_forall in Hall.
  destruct (key_ok_decode k (Hall k Hk)) as (i & j & Hkey & Hi & Hj & Hdec).
  exists i, j. tauto.
Qed.

Lemma reverse_index_well_formed_witness :
  is_Some (memid2index two_cells !! "rock1")
  /\ [ijh2idx 513 513 0; ijh2idx 514 513 0] <> [] /\ NoDup [ijh2idx 513 513 0; ijh2idx 514 513 0]
  /\ forall k, k ∈ [ijh2idx 513 513 0; ijh2idx 514 513 0] ->
       exists i j, idx2ijh k = Return (i, j, 0)
                   /\ 0 <= i < GRID_SIDE /\ 0 <= j < GRID_SIDE
                   /\ k = ijh2idx i j 0.
Proof.
  apply (reverse_index_well_formed two_cells "rock1").
  - apply built_two_cells.
  - vm_compute. reflexivity.
Defined.

(** ** The exploration tracker *)

Lemma coord_eqb_refl (p : coord) : coord_eqb p p = true.
Proof.
  unfold coord_eqb.
  rewrite !(proj2 (Qeq_bool_iff _ _)) by reflexivity. reflexivity.
Qed.

Lemma update_empty (tg : target) (s : PlaceField) :
  examined s = [] ->
  update tg s
  = (Return tt,
     set_explore [(xyz tg, 1)] ({[eid tg]} ∪ examined_id s) (Some (xyz tg)) s).
Proof.
  intros He. unfold update. unfold bind at 1.
  rewrite (get_closest_empty _ s He).
  unfold bind, modify, get, lift.
  cbn [examined set_explore examined_id last examined_getitem map fst].
  rewrite !coord_eqb_refl. cbn [map fst]. rewrite ?coord_eqb_refl. reflexivity.
Qed.

Lemma update_nonempty (tg : target) (s : PlaceField) :
  examined s <> [] -> update tg s = (Raise TypeError, s).
Proof.
  intros He. unfold update. unfold bind at 1.
  now rewrite (get_closest_nonempty _ s He).
Qed.

Lemma can_examine_empty (x : target) (s : PlaceField) :
  examined s = [] ->
  can_examine x s
  = (match last s with Some _ => Raise AttributeError | None => Return true end,
     set_explore [(xyz x, 0)] (examined_id s) (last s) s).
Proof.
  intros He. unfold can_examine. unfold bind at 1.
  rewrite (get_closest_empty _ s He).
  unfold bind at 1. unfold get at 1. cbn [last set_explore].
  destruct (last s) as [l|].
  - reflexivity.
  - unfold bind, ret, get, lift. cbn [examined set_explore examined_getitem].
    rewrite coord_eqb_refl. reflexivity.
Qed.

Lemma can_examine_nonempty (x : target) (s : PlaceField) :
  examined s <> [] -> can_examine x s = (Raise TypeError, s).
Proof.
  intros He. unfold can_examine. unfold bind at 1.
  now rewrite (get_closest_nonempty _ s He).
Qed.

(** X20. [get_closest] never finds a neighbour: on an empty tracker
    it returns the very point it was asked about, after recording it with
    count 0; on a tracker that holds a point it raises TypeError at the first
    distance it computes (the call of [no_y_l1] is one argument short) and
    leaves the instance unchanged. *)
Theorem get_closest_outcomes (p : coord) (s : PlaceField) :
  (examined s = [] ->
   get_closest p s = (Return p, set_explore [(p, 0)] (examined_id s) (last s) s))
  /\ (examined s <> [] -> get_closest p s = (Raise TypeError, s)).
Proof.
  split; [apply get_closest_empty | apply get_closest_nonempty].
Qed.

Lemma get_closest_outcomes_witness :
  get_closest (1 # 3, 0, 7)%Q (fresh "self" 1%Q)
  = (Return (1 # 3, 0, 7)%Q,
     set_explore [((1 # 3, 0, 7)%Q, 0)] (examined_id (fresh "self" 1%Q))
       (last (fresh "self" 1%Q)) (fresh "self" 1%Q))
  /\ get_closest (1 # 3, 0, 7)%Q (after (get_closest (1 # 3, 0, 7)%Q) (fresh "self" 1%Q))
     = (Raise TypeError, after (get_closest (1 # 3, 0, 7)%Q) (fresh "self" 1%Q)).
Proof.
  split.
  - apply (proj1 (get_closest_outcomes (1 # 3, 0, 7)%Q (fresh "self" 1%Q))).
    vm_compute. reflexivity.
  - apply (proj2 (get_closest_outcomes (1 # 3, 0, 7)%Q
                    (after (get_closest (1 # 3, 0, 7)%Q) (fresh "self" 1%Q)))).
    vm_compute. discriminate.
Defined.

(** X21. [update] succeeds only on an empty tracker: there it returns,
    the target's point becomes the only examined point, with count 1, and
    the last point, and the target's id is added to the examined ids; on a
    tracker that holds a point, whatever the target, it raises TypeError
    (out of the scan of [get_closest]) and records nothing, the id of the
    target included. After [clear_examined] it succeeds again. *)
Theorem update_outcomes (tg : target) (s : PlaceField) :
  (examined s = [] ->
   update tg s
   = (Return tt,
      set_explore [(xyz tg, 1)] ({[eid tg]} ∪ examined_id s) (Some (xyz tg)) s))
  /\ (examined s <> [] -> update tg s = (Raise TypeError, s))
  /\ (clear_examined ;;; update tg) s
     = (Return tt, set_explore [(xyz tg, 1)] {[eid tg]} (Some (xyz tg)) s).
Proof.
  split; [apply update_empty|]. split; [apply update_nonempty|].
  unfold bind, clear_examined, modify.
  rewrite update_empty by reflexivity.
  cbn [examined_id set_explore]. rewrite (right_id_L ∅ (∪)). reflexivity.
Qed.

Lemma update_outcomes_witness :
  update near_target (fresh "self" 1%Q)
  = (Return tt,
     set_explore [(xyz near_target, 1)]
       ({[eid near_target]} ∪ examined_id (fresh "self" 1%Q))
       (Some (xyz near_target)) (fresh "self" 1%Q))
  /\ update near_target (after (update origin_target) (fresh "self" 1%Q))
     = (Raise TypeError, after (update origin_target) (fresh "self" 1%Q)).
Proof.
  split.
  - apply (proj1 (update_outcomes near_target (fresh "self" 1%Q))).
    vm_compute. reflexivity.
  - apply (proj1 (proj2 (update_outcomes near_target
                           (after (update origin_target) (fresh "self" 1%Q))))).
    vm_compute. discriminate.
Defined.

(** X22. [can_examine] never answers [False], on any instance: it
    returns [True] exactly when the tracker is empty and there is no last
    point, and otherwise raises (TypeError when the tracker holds a point,
    AttributeError when it is empty but a last point is set). On an empty
    tracker the call also records the candidate's point, with count 0, even
    when it raises. *)
Theorem can_examine_never_refuses (x : target) (s : PlaceField) :
  fst (can_examine x s) <> Return false
  /\ (fst (can_examine x s) = Return true <-> examined s = [] /\ last s = None)
  /\ (examined s <> [] -> can_examine x s = (Raise TypeError, s))
  /\ (examined s = [] -> last s <> None ->
      fst (can_examine x s) = Raise AttributeError)
  /\ (examined s = [] ->
      examined (after (can_examine x) s) = [(xyz x, 0)]).
Proof.
  destruct (examined s) as [|kv rest] eqn:He.
  - rewrite (can_examine_empty x s He). unfold after.
    rewrite (can_examine_empty x s He). cbn [fst snd examined set_explore].
    destruct (last s) as [l|].
    + split; [discriminate|]. split; [split; [discriminate | intros [_ ?]; discriminate]|].
      split; [congruence|]. split; reflexivity.
    + split; [discriminate|]. split; [tauto|].
      split; [congruence|]. split; [congruence | reflexivity].
  - assert (Hne : examined s <> []) by (rewrite He; discriminate).
    rewrite (can_examine_nonempty x s Hne). cbn [fst].
    split; [discriminate|]. split; [split; [discriminate | intros [? _]; discriminate]|].
    split; [reflexivity|]. split; intros; discriminate.
Qed.

Lemma can_examine_never_refuses_witness :
  fst (can_examine near_target (fresh "self" 1%Q)) = Return true
  /\ examined (after (can_examine near_target) (fresh "self" 1%Q))
     = [(xyz near_target, 0)]
  /\ can_examine near_target (after (update origin_target) (fresh "self" 1%Q))
     = (Raise TypeError, after (update origin_target) (fresh "self" 1%Q)).
Proof.
  destruct (can_examine_never_refuses near_target (fresh "self" 1%Q))
    as (_ & H2 & _ & _ & H5).
  destruct (can_examine_never_refuses near_target
              (after (update origin_target) (fresh "self" 1%Q)))
    as (_ & _ & H3 & _).
  split; [apply H2; vm_compute; split; reflexivity|].
  split; [apply H5; vm_compute; reflexivity|].
  apply H3. vm_compute. discriminate.
Defined.

Lemma tracker_ok_same_tracker (s s' : PlaceField) :
  same_tracker s s' -> tracker_ok s -> tracker_ok s'.
Proof.
  intros (He & _ & Hl & _). unfold tracker_ok. now rewrite He, Hl.
Qed.

Lemma tracker_ok_fresh (self_memid : string) (ppu : Q) :
  tracker_ok (fresh self_memid ppu).
Proof.
  rewrite fresh_eq. unfold tracker_ok.
  cbn [examined last set_memid2locs set_params set_maps].
  destruct (tracker_maybe_add_memid self_memid
              (set_registry ["NULL"] (<["NULL" := 0]> ∅) blank)) as (He & _ & Hl & _).
  rewrite He, Hl. reflexivity.
Qed.

Lemma tracker_ok_run (c : call) (s : PlaceField) :
  tracker_ok s -> tracker_ok (run c s).
Proof.
  intros Hok.
  destruct c; cbn [run];
    try (eapply tracker_ok_same_tracker; [|exact Hok];
         first [ apply tracker_update_map | apply tracker_maybe_add_memid
               | apply tracker_extend_map | apply tracker_maybe_delete_loc
               | apply tracker_delete_loc_by_memid ]).
  - (* get_closest *)
    unfold after. destruct (examined s) as [|kv rest] eqn:He.
    + rewrite (get_closest_empty p s He). cbn [snd].
      unfold tracker_ok in *. rewrite He in Hok. cbn [examined last set_explore]. tauto.
    + rewrite get_closest_nonempty by (rewrite He; discriminate). assumption.
  - (* update *)
    unfold after. destruct (examined s) as [|kv rest] eqn:He.
    + rewrite (update_empty tg s He). cbn [snd].
      unfold tracker_ok. cbn [examined last set_explore]. tauto.
    + rewrite update_nonempty by (rewrite He; discriminate). assumption.
  - (* clear_examined *)
    reflexivity.
  - (* can_examine *)
    unfold after. destruct (examined s) as [|kv rest] eqn:He.
    + rewrite (can_examine_empty x s He). cbn [snd].
      unfold tracker_ok in *. rewrite He in Hok. cbn [examined last set_explore]. tauto.
    + rewrite can_examine_nonempty by (rewrite He; discriminate). assumption.
Qed.

Lemma reachable_tracker_ok (s : PlaceField) : reachable s -> tracker_ok s.
Proof.
  induction 1 as [self_memid ppu | c s Hr IH].
  - apply tracker_ok_fresh.
  - now apply tracker_ok_run.
Qed.

(** X23. On every instance that can exist (a new one, after any
    sequence of calls of any methods, returning or raising), the tracker
    holds at most one examined point and its count is 0 or 1; when a last
    point is set it is that point, with count 1. So the count never reaches
    the threshold 2 of [can_examine], which on such instances returns
    [True] or raises TypeError, and nothing else. *)
Theorem tracker_holds_one_point (s : PlaceField) :
  reachable s ->
  (length (examined s) <= 1)%nat
  /\ (forall p v, (p, v) ∈ examined s -> 0 <= v <= 1)
  /\ (forall p, last s = Some p -> examined s = [(p, 1)])
  /\ (forall x, fst (can_examine x s) = Return true
                \/ fst (can_examine x s) = Raise TypeError).
Proof.
  intros Hr. pose proof (reachable_tracker_ok s Hr) as Hok.
  unfold tracker_ok in Hok.
  destruct (examined s) as [|[p v] [|kv rest]] eqn:He; [| |contradiction].
  - split; [cbn; lia|]. split; [intros p v H; now apply not_elem_of_nil in H|].
    split; [congruence|].
    intros x. left. rewrite (can_examine_empty x s He), Hok. reflexivity.
  - split; [cbn; lia|].
    split.
    { intros p' v' H. apply list_elem_of_singleton in H. injection H as -> ->.
      destruct Hok as [[-> _]|[-> _]]; lia. }
    split.
    { intros p' Hl. destruct Hok as [[_ H]|[-> H]]; congruence. }
    intros x. right. rewrite can_examine_nonempty by (rewrite He; discriminate).
    reflexivity.
Qed.

Lemma tracker_holds_one_point_witness :
  let s := run (CallCanExamine near_target)
             (run (CallUpdate origin_target) (fresh "self" 1%Q)) in
  (length (examined s) <= 1)%nat
  /\ (forall p v, (p, v) ∈ examined s -> 0 <= v <= 1)
  /\ (forall p, last s = Some p -> examined s = [(p, 1)])
  /\ (forall x, fst (can_examine x s) = Return true
                \/ fst (can_examine x s) = Raise TypeError).
Proof.
  intros s. apply (tracker_holds_one_point s).
  unfold s. apply reachable_run, reachable_run, reachable_fresh.
Defined.

(** ** The reserved indices *)

(** X25. The indices given by [__init__] are kept for the life of
    the instance: after any sequence of calls of any methods on a new
    instance, returning or raising, index 0 is the sentinel ["NULL"] and,
    when the agent's identity is not ["NULL"], index 1 is the agent, in both
    directions of the registry. *)
Theorem reserved_indices (cs : list call) (self_memid : string) (ppu : Q) :
  let s := run_all cs (fresh self_memid ppu) in
  memid2index s !! "NULL" = Some 0
  /\ index2memid s !! 0%nat = Some "NULL"
  /\ (self_memid <> "NULL" ->
      memid2index s !! self_memid = Some 1
      /\ index2memid s !! 1%nat = Some self_memid).
Proof.
  intros s.
  pose proof (reachable_registry_ok _ (reachable_fresh self_memid ppu)) as Hok0.
  pose proof (reg_ext_run_all cs (fresh self_memid ppu)) as Hext. fold s in Hext.
  pose proof (proj2 Hext Hok0) as Hok.
  assert (H0 : memid2index (fresh self_memid ppu) !! "NULL" = Some 0)
    by apply (wf_null _ (wf_fresh self_memid ppu)).
  destruct (registry_stable _ s "NULL" 0 Hok0 Hext H0) as [H0' _].
  split; [assumption|].
  split; [apply (Hok "NULL" 0) in H0' as [_ H]; exact H|].
  intros Hne.
  assert (H1 : memid2index (fresh self_memid ppu) !! self_memid = Some 1).
  { rewrite fresh_eq. cbn [memid2index set_memid2locs set_params set_maps].
    unfold after. rewrite maybe_add_memid_new.
    - cbn [snd memid2index set_registry index2memid length Z.of_nat].
      apply lookup_insert_eq.
    - cbn [memid2index set_registry].
      rewrite lookup_insert_ne by congruence. apply lookup_empty. }
  destruct (registry_stable _ s self_memid 1 Hok0 Hext H1) as [H1' _].
  split; [assumption|].
  apply (Hok self_memid 1) in H1' as [_ H]. exact H.
Qed.

(** ** Storing twice *)

(** X26. Storing is idempotent: on every instance a caller can build, a
    plain record (neither a move nor a delete) with a position inside the
    grid, applied twice in a batch, leaves the same cells, the same reverse
    index and the same registry as applied once. *)
Theorem insert_twice
  (s : PlaceField) (t : Z) (c : change) (x y z : Q) :
  built s -> pos c = Some (x, y, z) -> is_delete c = false -> is_move c = false ->
  0 <= grid_index GRID_SIDE (pixels_per_unit s) x < GRID_SIDE ->
  0 <= grid_index GRID_SIDE (pixels_per_unit s) z < GRID_SIDE ->
  exists s1 s2,
    update_map [c] t s = (Return tt, s1)
    /\ update_map [c; c] t s = (Return tt, s2)
    /\ (forall x' y', cell s2 x' y' = cell s1 x' y')
    /\ memid2locs s2 = memid2locs s1
    /\ index2memid s2 = index2memid s1
    /\ memid2index s2 = memid2index s1.
Proof.
  intros Hb Hpos Hdel Hmove Hi Hj. pose proof (built_wf s Hb) as Hwf.
  set (i := grid_index GRID_SIDE (pixels_per_unit s) x) in *.
  set (j := grid_index GRID_SIDE (pixels_per_unit s) z) in *.
  destruct (insert_spec s t c x y z i j Hwf Hpos Hdel Hmove eq_refl eq_refl Hi Hj)
    as (idx & Hidx & E).
  set (s1 := set_memid2locs (add_loc (memid c) (ijh2idx i j 0) (memid2locs s))
               (store_cell i j idx (Z.b2z (is_obstacle c)) t
                  (after (maybe_add_memid (memid c)) s))) in *.
  assert (Hs1 : s1 = run (CallUpdateMap [c] t) s).
  { cbn [run]. rewrite after_update_map_single. unfold after. now rewrite E. }
  assert (Hb1 : built s1) by (rewrite Hs1; now apply built_run).
  pose proof (built_wf s1 Hb1) as Hwf1.
  assert (Hppu : pixels_per_unit s1 = pixels_per_unit s).
  { rewrite Hs1. apply (tracker_update_map [c] t s). }
  pose proof (wf_maybe_add_memid (memid c) s Hwf) as Hwfa.
  destruct (registry_store_cell i j idx (Z.b2z (is_obstacle c)) t
              (after (maybe_add_memid (memid c)) s)) as [Hr1 Hr2].
  assert (Hidx1 : memid2index s1 !! memid c = Some idx).
  { unfold s1. cbn [memid2index set_memid2locs]. now rewrite Hr2. }
  assert (Hcell1 : cell s1 i j = Some (idx, Z.b2z (is_obstacle c), t)).
  { unfold s1.
    change (cell (set_memid2locs ?L ?s0) i j) with (cell s0 i j).
    rewrite (cell_store_cell GRID_SIDE) by apply (wf_grid _ Hwfa).
    now rewrite !Z.eqb_refl. }
  assert (Hlocs1 : memid2locs s1 !! memid c
                   = Some (dict_add (ijh2idx i j 0) (default [] (memid2locs s !! memid c)))).
  { unfold s1. cbn [memid2locs set_memid2locs]. apply add_loc_lookup. }
  destruct (insert_spec s1 t c x y z i j Hwf1 Hpos Hdel Hmove)
    as (idx' & Hidx' & E'); try assumption;
    try (rewrite Hppu; reflexivity).
  assert (Ha : after (maybe_add_memid (memid c)) s1 = s1).
  { unfold after. now rewrite (maybe_add_memid_known _ idx s1 Hidx1). }
  rewrite Ha in Hidx', E'. assert (idx' = idx) as -> by congruence.
  exists s1, (set_memid2locs (add_loc (memid c) (ijh2idx i j 0) (memid2locs s1))
                (store_cell i j idx (Z.b2z (is_obstacle c)) t s1)).
  split; [now rewrite update_map_single, E|].
  split.
  { change [c; c] with ([c] ++ [c])%list. rewrite update_map_app.
    rewrite update_map_single, E. now rewrite update_map_single, E'. }
  destruct (registry_store_cell i j idx (Z.b2z (is_obstacle c)) t s1) as [Hq1 Hq2].
  split.
  { intros x' y'.
    change (cell (set_memid2locs ?L ?s0) x' y') with (cell s0 x' y').
    rewrite (cell_store_cell GRID_SIDE) by apply (wf_grid _ Hwf1).
    destruct ((x' =? i) && (y' =? j)) eqn:Exy; [|reflexivity].
    apply andb_true_iff in Exy as [Ex Ey].
    apply Z.eqb_eq in Ex, Ey. subst. now rewrite Hcell1. }
  cbn [memid2locs index2memid memid2index set_memid2locs].
  split; [|split; assumption].
  unfold add_loc. rewrite Hlocs1.
  pose proof (dict_add_in (ijh2idx i j 0) (default [] (memid2locs s !! memid c))) as Hin.
  assert (Ht : locs_truthy
                 (Some (dict_add (ijh2idx i j 0) (default [] (memid2locs s !! memid c))))
               = true).
  { destruct (dict_add _ _); [now apply not_elem_of_nil in Hin | reflexivity]. }
  rewrite Ht. apply alter_id. intros l Hl.
  rewrite Hlocs1 in Hl. injection Hl as <-.
  unfold dict_add at 1. now rewrite bool_decide_eq_true_2.
Qed.

Lemma insert_twice_witness :
  exists s1 s2,
    update_map [insert_at 2%Q 3%Q "rock2"] 9 one_cell = (Return tt, s1)
    /\ update_map [insert_at 2%Q 3%Q "rock2"; insert_at 2%Q 3%Q "rock2"] 9 one_cell
       = (Return tt, s2)
    /\ (forall x' y', cell s2 x' y' = cell s1 x' y')
    /\ memid2locs s2 = memid2locs s1
    /\ index2memid s2 = index2memid s1
    /\ memid2index s2 = memid2index s1.
Proof.
  apply (insert_twice one_cell 9 (insert_at 2%Q 3%Q "rock2") 2%Q 0%Q 3%Q).
  - apply built_one_cell.
  - reflexivity.
  - reflexivity.
  - reflexivity.
  - vm_compute. split; [discriminate | reflexivity].
  - vm_compute. split; [discriminate | reflexivity].
Defined.

(** * Moves and ownership *)


(** On the instances a caller can build, a cell owned by a named identity
    is listed for it. *)
Lemma owns_listed (s : PlaceField) (X : string) (i j : Z) :
  wf s -> owner_listed s -> X <> "NULL" ->
  0 <= i < GRID_SIDE -> 0 <= j < GRID_SIDE -> owns s X i j ->
  exists ks, memid2locs s !! X = Some ks /\ ijh2idx i j 0 ∈ ks.
Proof.
  intros Hwf Hol HX Hi Hj Hown. unfold owns in Hown.
  destruct (owner_readable s i j Hwf Hol Hi Hj) as (vm & vo & vu & cur & Hc & Hget & Hidx & Hl).
  rewrite (cell_owner_eq s GRID_SIDE i j vm vo vu (wf_grid s Hwf) Hi Hj Hc), Hget in Hown.
  injection Hown as ->.
  apply Hl. intros ->.
  pose proof (wf_null s Hwf) as H0.
  apply (wf_registry s Hwf) in H0 as [_ H0].
  apply (wf_registry s Hwf) in Hidx as [_ Hidx].
  change (Z.to_nat 0) with 0%nat in *. congruence.
Qed.






(** The other half of C5 holds on every instance a caller can build: a move
    record, to a target inside the grid, for a named identity that owns two
    cells raises the move error. *)
Lemma move_of_owner_of_two_cells_fails
  (s : PlaceField) (t : Z) (c : change) (x y z : Q) (i1 j1 i2 j2 : Z) :
  built s ->
  pos c = Some (x, y, z) -> is_move c = true -> is_delete c = false ->
  memid c <> "" -> memid c <> "NULL" ->
  0 <= grid_index GRID_SIDE (pixels_per_unit s) x < GRID_SIDE ->
  0 <= grid_index GRID_SIDE (pixels_per_unit s) z < GRID_SIDE ->
  0 <= i1 < GRID_SIDE -> 0 <= j1 < GRID_SIDE ->
  0 <= i2 < GRID_SIDE -> 0 <= j2 < GRID_SIDE ->
  (i1, j1) <> (i2, j2) ->
  owns s (memid c) i1 j1 -> owns s (memid c) i2 j2 ->
  fst (update_map [c] t s) = Raise (Exception move_error).
Proof.
  intros Hb Hpos Hmove Hdel Hne Hnull Hi Hj Hi1 Hj1 Hi2 Hj2 Hdiff Ho1 Ho2.
  pose proof (built_wf s Hb) as Hwf. pose proof (built_sound s Hb) as (Hol & _ & _).
  destruct (owns_listed s (memid c) i1 j1 Hwf Hol Hnull Hi1 Hj1 Ho1) as (ks & Hks & Hin1).
  destruct (owns_listed s (memid c) i2 j2 Hwf Hol Hnull Hi2 Hj2 Ho2) as (ks' & Hks' & Hin2).
  rewrite Hks in Hks'. injection Hks' as <-.
  assert (Hk : ijh2idx i1 j1 0 <> ijh2idx i2 j2 0).
  { intros E. apply ijh2idx_inj in E; try (apply grid_side_big; assumption). congruence. }
  destruct (move_record_on_grid s GRID_SIDE t c x y z _ _
              (wf_grid s Hwf) Hpos Hmove Hdel Hne Hnull eq_refl eq_refl Hi Hj) as [Hmany _].
  destruct ks as [|a [|b rest]].
  - now apply not_elem_of_nil in Hin1.
  - apply list_elem_of_singleton in Hin1, Hin2. congruence.
  - destruct (wf_key_pair s (memid c) a b rest Hwf Hks)
      as (a1 & b1 & a2 & b2 & -> & -> & Ha1 & Hb1 & Ha2 & Hb2 & _).
    now apply (Hmany a1 b1 a2 b2 rest).
Qed.

(** C5. A move record for an identity that owns no cell is not refused: on
    a new instance, where every cell is unowned and the reverse index is
    empty, the move of ["rock1"] returns normally and is applied as a plain
    insertion, although [delete_loc_by_memid] is documented to assert, with
    [is_move] set, that the identity has precisely one cell. *)
Theorem move_of_unplaced_identity_returns :
  let s := fresh "self" 1%Q in
  let r := update_map [move_to 5%Q 5%Q "rock1" true] 2 s in
  (forall i j, 0 <= i < GRID_SIDE -> 0 <= j < GRID_SIDE -> ~ owns s "rock1" i j)
  /\ memid2locs s !! "rock1" = None
  /\ fst r = Return tt
  /\ cell (snd r) 518 518 = Some (2, 1, 2)
  /\ owns (snd r) "rock1" 518 518
  /\ memid2locs (snd r) !! "rock1" = Some [ijh2idx 518 518 0].
Proof.
  intros s r. split.
  - intros i j Hi Hj. unfold owns.
    rewrite (cell_owner_eq s GRID_SIDE i j 0 0 (-1)
               (wf_grid _ (wf_fresh "self" 1%Q)) Hi Hj (fresh_cell "self" 1%Q i j)).
    vm_compute. discriminate.
  - vm_compute. repeat split; reflexivity.
Qed.

Lemma built_stale_cells : built stale_cells.
Proof. unfold stale_cells. apply built_run; [reflexivity | apply built_fresh]. Qed.

(** C10. With stale keys in the reverse index, [delete_loc_by_memid] with
    [is_move] set raises with none of the identity's cells cleared. On
    [stale_cells], ["rock1"] has been stored in two cells, both have been
    deleted without naming it (which leaves their keys listed), and it has
    been stored in two other cells: it owns two cells and four keys are
    listed, the stale ones first. The call raises the move error after the
    two stale cells, which were clear already; the two cells of ["rock1"]
    are still its own, and, the time being that of the deletions, no cell
    has changed at all. *)
Theorem delete_loc_by_memid_move_stale_keys :
  built stale_cells
  /\ owns stale_cells "rock1" 516 513 /\ owns stale_cells "rock1" 517 513
  /\ owns stale_cells "NULL" 513 513 /\ owns stale_cells "NULL" 514 513
  /\ memid2locs stale_cells !! "rock1"
     = Some [ijh2idx 513 513 0; ijh2idx 514 513 0; ijh2idx 516 513 0; ijh2idx 517 513 0]
  /\ fst (delete_loc_by_memid "rock1" 1 true stale_cells)
     = Raise (Exception move_error)
  /\ owns (after (delete_loc_by_memid "rock1" 1 true) stale_cells) "rock1" 516 513
  /\ owns (after (delete_loc_by_memid "rock1" 1 true) stale_cells) "rock1" 517 513
  /\ (forall x y,
        cell (after (delete_loc_by_memid "rock1" 1 true) stale_cells) x y
        = cell stale_cells x y)
  /\ memid2locs (after (delete_loc_by_memid "rock1" 1 true) stale_cells)
     = memid2locs stale_cells.
Proof.
  pose proof built_stale_cells as Hb.
  pose proof (built_wf _ Hb) as Hwf.
  assert (Hl : memid2locs stale_cells !! "rock1"
               = Some [ijh2idx 513 513 0; ijh2idx 514 513 0;
                       ijh2idx 516 513 0; ijh2idx 517 513 0])
    by (vm_compute; reflexivity).
  pose proof (grid_side_inside 513 ltac:(lia)) as H513.
  pose proof (grid_side_inside 514 ltac:(lia)) as H514.
  destruct (delete_two_cells_on_grid stale_cells GRID_SIDE 1 "rock1" 513 513 514 513
              [ijh2idx 516 513 0; ijh2idx 517 513 0] (wf_grid _ Hwf)
              ltac:(discriminate) ltac:(discriminate) Hl
              (proj1 (wf_keys _ Hwf "rock1" _ Hl)) H513 H513 H514 H513)
    as (s' & Hrun & _ & Hc1 & Hc2 & Hrest & Hlocs).
  unfold after. rewrite Hrun. cbn [fst snd].
  split; [exact Hb|].
  split; [vm_compute; reflexivity|]. split; [vm_compute; reflexivity|].
  split; [vm_compute; reflexivity|]. split; [vm_compute; reflexivity|].
  split; [exact Hl|].
  split; [reflexivity|].
  assert (Hs' : s' = snd (delete_loc_by_memid "rock1" 1 true stale_cells))
    by now rewrite Hrun.
  split; [rewrite Hs'; vm_compute; reflexivity|].
  split; [rewrite Hs'; vm_compute; reflexivity|].
  split; [|exact Hlocs].
  intros x y.
  destruct (decide ((x, y) = (513, 513))) as [E1|H1].
  { injection E1 as -> ->. rewrite Hc1. vm_compute. reflexivity. }
  destruct (decide ((x, y) = (514, 513))) as [E2|H2].
  { injection E2 as -> ->. rewrite Hc2. vm_compute. reflexivity. }
  exact (Hrest x y H1 H2).
Qed.
